(** * Candidate retrieval, fusion and arbitration of the bibliographic
      entity linker (evaluation_unique.py), as a shallow embedding.

    Texts are Python [str] values: sequences of Unicode code points.  The
    functions of the Unicode character database that the program calls
    through [unicodedata], [str.lower], [str.isdigit], [int] and the
    regular-expression classes [\w] and [\d] are collected in the record
    [UCD]; the similarity functions of rapidfuzz in [Fuzz]; the full-text
    index in [Store]; the language model in [Arbiter].  Similarity scores
    are taken on the integer scale. *)

From Stdlib Require Import Ascii String.
From Stdlib Require Import List ZArith NArith Lia Bool.
From Stdlib Require Import Permutation Sorted DecimalString.
From Stdlib Require DecimalPos.
Import ListNotations.

Set Implicit Arguments.

Open Scope Z_scope.

(** ** Python strings *)

Definition char := N.
Definition str := list char.

(** An ASCII literal as a [str]. *)
Definition u (s : String.string) : str :=
  map N_of_ascii (String.list_ascii_of_string s).
Arguments u s%_string.

Definition str_eq_dec : forall a b : str, {a = b} + {a <> b} :=
  list_eq_dec N.eq_dec.

Definition str_eqb (a b : str) : bool :=
  if str_eq_dec a b then true else false.

Definition in_range (lo hi c : N) : bool := (N.leb lo c) && (N.leb c hi).

Definition is_az (c : char) : bool := in_range 97 122 c.
Definition is_AZ (c : char) : bool := in_range 65 90 c.
Definition is_09 (c : char) : bool := in_range 48 57 c.

Definition SP : char := 32%N.

(** [str.isspace] on one character; the class [\s] of [re] on [str]
    patterns is the same set. *)
Definition isspace (c : char) : bool :=
  in_range 9 13 c || in_range 28 32 c || N.eqb c 133 || N.eqb c 160
  || N.eqb c 5760 || in_range 8192 8202 c || in_range 8232 8233 c
  || N.eqb c 8239 || N.eqb c 8287 || N.eqb c 12288.

Fixpoint dropwhile (p : char -> bool) (s : str) : str :=
  match s with
  | [] => []
  | c :: s' => if p c then dropwhile p s' else s
  end.

Fixpoint takewhile (p : char -> bool) (s : str) : str :=
  match s with
  | [] => []
  | c :: s' => if p c then c :: takewhile p s' else []
  end.

Definition lstrip (s : str) : str := dropwhile isspace s.
Definition rstrip (s : str) : str := rev (dropwhile isspace (rev s)).
Definition strip (s : str) : str := rstrip (lstrip s).

Definition cons_token (w : str) (ws : list str) : list str :=
  match w with
  | [] => ws
  | _ => w :: ws
  end.

(** [split_aux s] is the token that starts at the head of [s] (empty when
    [s] starts with white space) and the tokens after it. *)
Fixpoint split_aux (s : str) : str * list str :=
  match s with
  | [] => ([], [])
  | c :: s' =>
      let (w, ws) := split_aux s' in
      if isspace c then ([], cons_token w ws) else (c :: w, ws)
  end.

(** [s.split()] *)
Definition split (s : str) : list str :=
  let (w, ws) := split_aux s in cons_token w ws.

(** [sep.join(l)] *)
Fixpoint join (sep : str) (l : list str) : str :=
  match l with
  | [] => []
  | [w] => w
  | w :: l' => w ++ sep ++ join sep l'
  end.

Fixpoint startswith (p s : str) : bool :=
  match p, s with
  | [], _ => true
  | _ :: _, [] => false
  | a :: p', b :: s' => N.eqb a b && startswith p' s'
  end.

(** [p in s] on strings *)
Fixpoint contains (p s : str) : bool :=
  startswith p s ||
  match s with
  | [] => false
  | _ :: s' => contains p s'
  end.

(** [s.replace(old, new)] for a non-empty [old]; [skip] counts the
    characters of a replaced occurrence still to be passed over. *)
Fixpoint replace_go (old new : str) (skip : nat) (s : str) : str :=
  match s with
  | [] => []
  | c :: s' =>
      match skip with
      | S k => replace_go old new k s'
      | O =>
          if startswith old s
          then new ++ replace_go old new (length old - 1) s'
          else c :: replace_go old new 0 s'
      end
  end.

Definition replace (old new s : str) : str := replace_go old new 0 s.

(** [re.sub(r"\s+", " ", s)] *)
Fixpoint sub_ws_go (in_ws : bool) (s : str) : str :=
  match s with
  | [] => []
  | c :: s' =>
      if isspace c
      then (if in_ws then sub_ws_go true s' else SP :: sub_ws_go true s')
      else c :: sub_ws_go false s'
  end.

Definition sub_ws (s : str) : str := sub_ws_go false s.

(** [re.sub(r"\s+", " ", s).strip()] *)
Definition collapse_ws (s : str) : str := strip (sub_ws s).

(** [str(n)] for an integer *)
Definition str_of_Z (z : Z) : str := u (NilEmpty.string_of_int (Z.to_int z)).

(** Lexicographic order on code points, the order of SQLite's BINARY
    collation on UTF-8 text. *)
Fixpoint str_leb (a b : str) : bool :=
  match a, b with
  | [], _ => true
  | _ :: _, [] => false
  | x :: a', y :: b' => N.ltb x y || (N.eqb x y && str_leb a' b')
  end.

(** ** The Unicode character database *)

Record UCD := {
  nfkd : str -> str;            (* unicodedata.normalize("NFKD", s) *)
  combining : char -> bool;     (* unicodedata.combining(c) != 0 *)
  lower : str -> str;           (* s.lower() *)
  upper : str -> str;           (* s.upper() *)
  isalnum : char -> bool;       (* c.isalnum() *)
  isdigit : char -> bool;       (* c.isdigit() *)
  decimal : char -> option Z    (* value of a decimal digit: \d, int() *)
}.

(** The database restricted to Basic Latin: exact on ASCII texts. *)
Definition ascii_lower (c : char) : char := if is_AZ c then (c + 32)%N else c.
Definition ascii_upper (c : char) : char := if is_az c then (c - 32)%N else c.

Definition basic_latin : UCD := {|
  nfkd := fun s => s;
  combining := fun _ => false;
  lower := map ascii_lower;
  upper := map ascii_upper;
  isalnum := fun c => is_az c || is_AZ c || is_09 c;
  isdigit := is_09;
  decimal := fun c => if is_09 c then Some (Z.of_N c - 48) else None
|}.

(** Exceptions and results. *)
Inductive exn := ValueError | TypeError.

Inductive result (A : Type) :=
| Ok (a : A)
| Raise (e : exn).
Arguments Ok {A} a.
Arguments Raise {A} e.

Definition bind {A B} (r : result A) (k : A -> result B) : result B :=
  match r with
  | Ok a => k a
  | Raise e => Raise e
  end.

Notation "x <- r ;; k" := (bind r (fun x => k))
  (at level 61, r at next level, right associativity).

Section Unicode.
Variable U : UCD.

(** The class [\w]. *)
Definition is_word (c : char) : bool := isalnum U c || N.eqb c 95.

Definition is_word_opt (o : option char) : bool :=
  match o with
  | Some c => is_word c
  | None => false
  end.

(** [\b] between the characters [p] and [q] ([None] at either end of the
    text). *)
Definition boundary (p q : option char) : bool :=
  xorb (is_word_opt p) (is_word_opt q).

(** [s.isdigit()] *)
Definition str_isdigit (s : str) : bool :=
  match s with
  | [] => false
  | _ => forallb (isdigit U) s
  end.

Definition is_decimal (c : char) : bool :=
  match decimal U c with
  | Some _ => true
  | None => false
  end.

(** Digits of an integer literal, with single underscores between
    digits. *)
Fixpoint int_digits (acc : Z) (s : str) : option Z :=
  match s with
  | [] => Some acc
  | c :: s' =>
      if N.eqb c 95 then
        match s' with
        | d :: _ => if is_decimal d then int_digits acc s' else None
        | [] => None
        end
      else
        match decimal U c with
        | Some v => int_digits (10 * acc + v) s'
        | None => None
        end
  end.

Definition int_body (s : str) : option Z :=
  match s with
  | [] => None
  | c :: _ => if is_decimal c then int_digits 0 s else None
  end.

(** [int(s)] on a string: [ValueError] on an invalid literal. *)
Definition py_int (s : str) : result Z :=
  let t := strip s in
  let r :=
    match t with
    | c :: b =>
        if N.eqb c 43 then int_body b
        else if N.eqb c 45 then option_map Z.opp (int_body b)
        else int_body t
    | [] => int_body t
    end in
  match r with
  | Some z => Ok z
  | None => Raise ValueError
  end.

(** [int(v)] on a column value: [TypeError] on NULL. *)
Definition py_int_opt (v : option str) : result Z :=
  match v with
  | Some s => py_int s
  | None => Raise TypeError
  end.

End Unicode.

(** ** Sorting

    [list.sort(key=..., reverse=True)] and [sorted(..., reverse=True)] are
    stable: elements with equal keys keep their relative order. *)

Fixpoint insert_desc {A} (key : A -> Z) (x : A) (l : list A) : list A :=
  match l with
  | [] => [x]
  | y :: l' => if key x <? key y then y :: insert_desc key x l' else x :: l
  end.

Fixpoint sort_desc {A} (key : A -> Z) (l : list A) : list A :=
  match l with
  | [] => []
  | x :: l' => insert_desc key x (sort_desc key l')
  end.

Definition len (s : str) : Z := Z.of_nat (length s).

(** ** Configuration *)

Definition MIN_FTS_TOKEN_LEN : Z := 3.
Definition STRICT_MAX_TOKENS : nat := 4.
Definition BROAD_MAX_TOKENS : nat := 8.
Definition MIN_ACCEPT_SCORE : Z := 50.

Definition YEAR_BONUS_EXACT : Z := 15.
Definition YEAR_BONUS_CLOSE : Z := 5.
Definition AUTHOR_BONUS : Z := 15.
Definition PLACE_BONUS : Z := 10.
Definition VD18_PREF_BONUS : Z := 5.
Definition ENTITY_BONUS : Z := 5.

Definition STOPWORDS : list str :=
  [ u "der"; u "die"; u "das"; u "und"; u "oder"; u "von"; u "zu"; u "im";
    u "in"; u "an"; u "auf"; u "herrn"; u "herr"; u "georgii"; u "georg";
    u "joh"; u "jac"; u "et"; u "cum"; u "de"; u "opus"; u "tomus";
    u "pars"; u "liber"; u "tractatus"; u "dissertatio"; u "vol"; u "cap";
    u "tit"; u "pag"; u "etc"; u "bey";
    u "buchh" ++ [228%N] ++ u "ndler";
    u "allhier"; u "haben"; u "sind"; u "ist"; u "eine"; u "einer"; u "ein";
    u "neue"; u "mr"; u "mr-"; u "aus"; u "dem"; u "den"; u "des";
    u "stuck"; u "st" ++ [252%N] ++ u "ck"; u "item"; u "theil"; u "band";
    u "b" ++ [228%N] ++ u "nde"; [252%N] ++ u "ber"; u "gegen"; u "nach" ].

Definition ABBREVIATIONS : list (str * str) :=
  [ (u "evangel", u "evangelische"); (u "hist", u "historie");
    (u "math", u "mathematik"); (u "theol", u "theologie");
    (u "jur", u "juristische"); (u "med", u "medizin");
    (u "phil", u "philosophie"); (u "bot", u "botschaft") ].

Definition mem (x : str) (l : list str) : bool := existsb (str_eqb x) l.

(** [d.get(k, default)] *)
Fixpoint dict_get (d : list (str * str)) (k default : str) : str :=
  match d with
  | [] => default
  | (k', v) :: d' => if str_eqb k k' then v else dict_get d' k default
  end.

(** ** Text normalizer *)

Definition is_alnum_ascii (c : char) : bool := is_az c || is_AZ c || is_09 c.

(** the class [-–—\.,:;] *)
Definition is_punct (c : char) : bool :=
  N.eqb c 45 || N.eqb c 8211 || N.eqb c 8212 || N.eqb c 46 || N.eqb c 44
  || N.eqb c 58 || N.eqb c 59.

Section Normalizer.
Variable U : UCD.

Definition normalize_db_vd_id (vd_id : str) : str :=
  match vd_id with
  | [] => []
  | _ => lower U (filter is_alnum_ascii vd_id)
  end.

(** One alternative of [(ns|s)] after [k] letters, followed by [\b]. *)
Definition alt_ok (t : str) (k : nat) (alt : str) : bool :=
  startswith alt (skipn k t)
  && boundary U (hd_error (rev alt)) (hd_error (skipn (k + length alt) t)).

(** Backtracking of [([a-z]{5,})(ns|s)\b] from [k] letters downwards,
    [cnt] lengths left to try. *)
Fixpoint suffix_try (t : str) (k cnt : nat) : option (str * nat) :=
  match cnt with
  | O => None
  | S cnt' =>
      if alt_ok t k (u "ns") then Some (firstn k t, (k + 2)%nat)
      else if alt_ok t k (u "s") then Some (firstn k t, (k + 1)%nat)
      else suffix_try t (pred k) cnt'
  end.

(** A match of [\b([a-z]{5,})(ns|s)\b] at the head of [t], [prev] being
    the character before it: group 1 and the length of the match. *)
Definition suffix_match (prev : option char) (t : str) : option (str * nat) :=
  if boundary U prev (hd_error t) then
    let n := length (takewhile is_az t) in
    if (5 <=? n)%nat then suffix_try t n (n - 4) else None
  else None.

(** [re.sub(r"\b([a-z]{5,})(ns|s)\b", r"\1", t)] *)
Fixpoint sub_suffix_go (prev : option char) (skip : nat) (t : str) : str :=
  match t with
  | [] => []
  | c :: t' =>
      match skip with
      | S k => sub_suffix_go (Some c) k t'
      | O =>
          match suffix_match prev t with
          | Some (g, n) => g ++ sub_suffix_go (Some c) (n - 1) t'
          | None => c :: sub_suffix_go (Some c) 0 t'
          end
      end
  end.

Definition sub_suffix (t : str) : str := sub_suffix_go None 0 t.

Definition fold_ligatures (text : str) : str :=
  replace [339%N] (u "oe")
    (replace [230%N] (u "ae")
       (replace [223%N] (u "ss") (replace [383%N] (u "s") text))).

Definition _basic_normalize (text : str) : str :=
  match text with
  | [] => []
  | _ =>
      let text := nfkd U text in
      let text := filter (fun c => negb (combining U c)) text in
      let text := lower U text in
      let text := fold_ligatures text in
      let text := map (fun c => if is_punct c then SP else c) text in
      let text := sub_suffix text in
      let text :=
        map (fun c => if is_az c || is_09 c || isspace c then c else SP) text in
      collapse_ws text
  end.

Definition expand_abbreviations (text : str) : str :=
  join (u " ")
    (map (fun t => dict_get ABBREVIATIONS (replace (u ".") [] t) t)
       (split text)).

Definition normalize_for_fts (text : str) : str :=
  collapse_ws (expand_abbreviations (_basic_normalize text)).

Definition normalize_for_fuzz (text : str) : str := _basic_normalize text.

(** normalize_text of the index builder (create_el_index.py). *)
Definition normalize_text (text : str) : str :=
  match text with
  | [] => []
  | _ =>
      let text := nfkd U text in
      let text := filter (fun c => negb (combining U c)) text in
      let text := lower U text in
      let text := fold_ligatures text in
      let text :=
        map (fun c => if is_az c || is_09 c || isspace c then c else SP) text in
      collapse_ws text
  end.

(** ** Query planner *)

(** [\b(1[4-9]\d{2})\b] at the head of [t]. *)
Definition year_at (prev : option char) (t : str) : option str :=
  match t with
  | a :: b :: c :: d :: rest =>
      if boundary U prev (Some a) && N.eqb a 49 && in_range 52 57 b
         && is_decimal U c && is_decimal U d
         && boundary U (Some d) (hd_error rest)
      then Some [a; b; c; d] else None
  | _ => None
  end.

Fixpoint year_search (prev : option char) (t : str) : option str :=
  match year_at prev t with
  | Some y => Some y
  | None =>
      match t with
      | [] => None
      | c :: t' => year_search (Some c) t'
      end
  end.

Definition extract_query_year (query : str) : option str :=
  year_search None query.

(** The order in which a [set] of strings is iterated depends on the
    hashes of the process. *)
Variable set_iter : list str -> list str.

Definition planned_token (t : str) : bool :=
  negb (mem t STOPWORDS || str_isdigit U t || (len t <? MIN_FTS_TOKEN_LEN)).

Definition build_fts_queries (norm_query_fts : str) : str * str :=
  let toks := filter planned_token (split norm_query_fts) in
  let toks := sort_desc len (set_iter toks) in
  (join (u " AND ") (firstn STRICT_MAX_TOKENS toks),
   join (u " OR ") (firstn BROAD_MAX_TOKENS toks)).

End Normalizer.

(** A set keeps one copy of each element. *)
Definition set_iter_ok (set_iter : list str -> list str) : Prop :=
  forall l, NoDup (set_iter l) /\ forall x, In x (set_iter l) <-> In x l.

Definition first_seen_order : list str -> list str := nodup str_eq_dec.

(** ** Catalog records, candidates and the external services *)

(** A row of the index: every column is NULL or a text. *)
Record row := {
  db_author : option str;
  db_title : option str;
  db_year : option str;
  db_place : option str;
  db_vd_id : option str
}.

Record cand := {
  vd_id : str;
  vd_id_norm : str;
  score : Z;
  source : str
}.

Definition cand_eq_dec : forall a b : cand, {a = b} + {a <> b}.
Proof.
  decide equality; try apply str_eq_dec; apply Z.eq_dec.
Defined.

(** rapidfuzz.fuzz *)
Record Fuzz := {
  token_set_ratio : str -> str -> Z;
  partial_ratio : str -> str -> Z;
  WRatio : str -> str -> Z
}.

(** The full-text index: the rows that MATCH an expression, by ascending
    bm25 rank and in table order, and the rows of a list of identifiers. *)
Record Store := {
  fts_ranked : str -> list row;
  fts_scan : str -> list row;
  rows_of_ids : list str -> list row
}.

(** The reply of the language model to a prompt made of the query and the
    candidate rows: an exception (network, malformed JSON), or a JSON
    object with or without the key best_match_vd_id. *)
Inductive llm_reply :=
| LLMError
| LLMResult (best_match_vd_id : option str).

Definition Arbiter := str -> list row -> llm_reply.

(** [v or ''] *)
Definition or_empty (v : option str) : str :=
  match v with
  | Some s => s
  | None => []
  end.

(** truth value of a column or of an optional string *)
Definition truthy (v : option str) : bool :=
  match v with
  | Some (_ :: _) => true
  | _ => false
  end.

Definition nonempty (s : str) : bool :=
  match s with
  | [] => false
  | _ => true
  end.

(** [str(v)] of a column *)
Definition str_of (v : option str) : str :=
  match v with
  | Some s => s
  | None => u "None"
  end.

Definition opt_cons {A} (o : option A) (l : list A) : list A :=
  match o with
  | Some a => a :: l
  | None => l
  end.

(** A loop over rows whose body appends at most one candidate and may
    raise. *)
Fixpoint for_rows (body : row -> result (option cand)) (rows : list row)
  : result (list cand) :=
  match rows with
  | [] => Ok []
  | r :: rows' =>
      o <- body r ;;
      out <- for_rows body rows' ;;
      Ok (opt_cons o out)
  end.

Definition col_eqb (v : option str) (s : str) : bool :=
  match v with
  | Some t => str_eqb t s
  | None => false
  end.

Section Strategies.
Variable U : UCD.
Variable F : Fuzz.
Variable conn : Store.

Definition mk_cand (id : str) (sc : Z) (src : str) : cand :=
  {| vd_id := id; vd_id_norm := normalize_db_vd_id U id;
     score := Z.min sc 100; source := src |}.

Definition full_label (r : row) : str :=
  strip (or_empty (db_author r) ++ u " " ++ or_empty (db_title r)).

(** *** Run 1 *)

Definition year_rank (y : Z) (r : row) : Z :=
  if col_eqb (db_year r) (str_of_Z y) then 2
  else if col_eqb (db_year r) (str_of_Z (y - 1)) then 1
  else if col_eqb (db_year r) (str_of_Z (y + 1)) then 1
  else 0.

Definition sql_search (fts_query : str) (year : option str)
  : result (list row) :=
  if truthy year && str_isdigit U (or_empty year) then
    y <- py_int U (or_empty year) ;;
    Ok (firstn 500 (sort_desc (year_rank y) (fts_ranked conn fts_query)))
  else Ok (firstn 500 (fts_ranked conn fts_query)).

(** The year part of the score: [None] when the hit is rejected. *)
Definition year_adjust (query_year : option str) (strict_mode : bool)
  (r : row) (score : Z) : result (option Z) :=
  if truthy query_year && truthy (db_year r)
     && str_isdigit U (str_of (db_year r)) then
    qy <- py_int U (or_empty query_year) ;;
    ry <- py_int_opt U (db_year r) ;;
    let dy := Z.abs (qy - ry) in
    if strict_mode && (dy >? 1) then Ok None
    else
      let score :=
        if score >? 60 then
          if dy =? 0 then score + YEAR_BONUS_EXACT
          else if dy =? 1 then score + YEAR_BONUS_CLOSE
          else score
        else score in
      let score :=
        if negb strict_mode && (dy >? 1) && (score <? 92)
        then score - Z.min dy 15 else score in
      Ok (Some score)
  else Ok (Some score).

Definition author_bonus (norm_query_fuzz : str) (r : row) : Z :=
  if truthy (db_author r)
     && (partial_ratio F (normalize_for_fuzz U (or_empty (db_author r)))
           norm_query_fuzz >=? 90)
  then AUTHOR_BONUS else 0.

Definition place_bonus (query_place : str) (r : row) : Z :=
  if nonempty query_place && truthy (db_place r)
     && (partial_ratio F (normalize_for_fuzz U query_place)
           (normalize_for_fuzz U (or_empty (db_place r))) >? 85)
  then PLACE_BONUS else 0.

(** The score of a hit before the acceptance test and the clamp. *)
Definition run_1_score (query_year : option str)
  (norm_query_fuzz query_place : str) (strict_mode : bool) (r : row)
  : result (option Z) :=
  let norm_db_label := normalize_for_fuzz U (full_label r) in
  let score := token_set_ratio F norm_query_fuzz norm_db_label in
  o <- year_adjust query_year strict_mode r score ;;
  Ok (option_map
        (fun score =>
           score + author_bonus norm_query_fuzz r + place_bonus query_place r)
        o).

Definition accept (threshold : Z) (id : str) (src : str) (score : Z)
  : option cand :=
  if score >=? threshold then Some (mk_cand id score src) else None.

Definition process_row (query_year : option str)
  (norm_query_fuzz query_place : str) (strict_mode : bool) (r : row)
  : result (option cand) :=
  if negb (truthy (db_vd_id r)) then Ok None
  else
    o <- run_1_score query_year norm_query_fuzz query_place strict_mode r ;;
    Ok (match o with
        | Some score =>
            accept MIN_ACCEPT_SCORE (or_empty (db_vd_id r)) (u "RUN_1") score
        | None => None
        end).

Definition process (query_year : option str)
  (norm_query_fuzz query_place : str) (rows : list row) (strict_mode : bool)
  : result (list cand) :=
  for_rows (process_row query_year norm_query_fuzz query_place strict_mode)
    rows.

Definition best_below (candidates : list cand) (bound : Z) : bool :=
  match candidates with
  | [] => true
  | c :: _ => score c <? bound
  end.

Definition execute_run_1 (q_fts strict_q broad_q : str)
  (query_year : option str) (norm_query_fuzz query_place query_author : str)
  : result (list cand) :=
  candidates <-
    (if nonempty strict_q then
       rows <- sql_search strict_q query_year ;;
       process query_year norm_query_fuzz query_place rows true
     else Ok []) ;;
  let candidates := sort_desc score candidates in
  candidates <-
    (if best_below candidates 95 && nonempty broad_q then
       rows <- sql_search broad_q None ;;
       cands_broad <-
         process query_year norm_query_fuzz query_place rows false ;;
       let existing := map vd_id_norm candidates in
       Ok (candidates
             ++ filter (fun c => negb (mem (vd_id_norm c) existing))
                  cands_broad)
     else Ok candidates) ;;
  Ok (sort_desc score candidates).

(** *** Run 2 *)

(** [year >= lo AND year <= hi] on a text column; NULL satisfies
    neither. *)
Definition year_between (lo hi : str) (r : row) : bool :=
  match db_year r with
  | Some y => str_leb lo y && str_leb y hi
  | None => false
  end.

Definition run_2_row (y : Z) (norm_query_fuzz norm_q_auth : str) (r : row)
  : result (option cand) :=
  if negb (truthy (db_vd_id r)) then Ok None
  else if truthy (db_author r) then Ok None
  else
    let norm_db_label := normalize_for_fuzz U (strip (or_empty (db_title r))) in
    if partial_ratio F norm_q_auth norm_db_label >? 90 then
      let score := WRatio F norm_query_fuzz norm_db_label + 30 in
      ry <- py_int_opt U (db_year r) ;;
      let dy := Z.abs (y - ry) in
      let score := if dy >? 0 then score - dy else score in
      Ok (accept MIN_ACCEPT_SCORE (or_empty (db_vd_id r)) (u "RUN_2") score)
    else Ok None.

Definition execute_run_2 (broad_q : str) (query_year : option str)
  (norm_query_fuzz query_author : str) : result (list cand) :=
  if negb (nonempty broad_q) || negb (truthy query_year)
     || negb (nonempty query_author) then Ok []
  else
    y <- py_int U (or_empty query_year) ;;
    let rows :=
      firstn 300
        (filter (year_between (str_of_Z (y - 3)) (str_of_Z (y + 3)))
           (fts_scan conn broad_q)) in
    let norm_q_auth := normalize_for_fuzz U query_author in
    if len norm_q_auth <? 4 then Ok []
    else for_rows (run_2_row y norm_query_fuzz norm_q_auth) rows.

End Strategies.

Section Fallbacks.
Variable U : UCD.
Variable F : Fuzz.
Variable conn : Store.

(** *** Run 3: entity fallback *)

(** Backtracking of [[a-z]{3,}\b] after the capital at the head of [t]:
    [k] letters taken, [cnt] lengths left to try; the length of the
    match. *)
Fixpoint entity_try (t : str) (k cnt : nat) : option nat :=
  match cnt with
  | O => None
  | S cnt' =>
      if boundary U (nth_error t k) (nth_error t (S k)) then Some (S k)
      else entity_try t (pred k) cnt'
  end.

(** A match of [\b[A-Z][a-z]{3,}\b] at the head of [t]. *)
Definition entity_match (prev : option char) (t : str) : option nat :=
  match t with
  | c :: t' =>
      if boundary U prev (Some c) && is_AZ c then
        let n := length (takewhile is_az t') in
        if (3 <=? n)%nat then entity_try t n (n - 2) else None
      else None
  | [] => None
  end.

(** [re.findall(r'\b[A-Z][a-z]{3,}\b', t)] *)
Fixpoint findall_entities (prev : option char) (skip : nat) (t : str)
  : list str :=
  match t with
  | [] => []
  | c :: t' =>
      match skip with
      | S k => findall_entities (Some c) k t'
      | O =>
          match entity_match prev t with
          | Some n => firstn n t :: findall_entities (Some c) (n - 1) t'
          | None => findall_entities (Some c) 0 t'
          end
      end
  end.

Definition entities_of (raw_query : str) : list str :=
  filter (fun w => negb (mem (lower U w) STOPWORDS))
    (findall_entities None 0 raw_query).

Definition entity_hits (entities : list str) (norm_db_label : str) : Z :=
  Z.of_nat
    (length (filter (fun ent => contains (lower U ent) norm_db_label)
               entities)).

Definition run_3_score (norm_query_fuzz : str) (entities : list str)
  (r : row) : Z :=
  let norm_db_label := normalize_for_fuzz U (full_label r) in
  let score := token_set_ratio F norm_query_fuzz norm_db_label in
  let score := score + entity_hits entities norm_db_label * ENTITY_BONUS in
  if startswith (u "VD18") (upper U (or_empty (db_vd_id r)))
  then score + VD18_PREF_BONUS else score.

Definition run_3_row (norm_query_fuzz : str) (entities : list str) (r : row)
  : option cand :=
  if negb (truthy (db_vd_id r)) then None
  else accept U MIN_ACCEPT_SCORE (or_empty (db_vd_id r)) (u "RUN_3")
         (run_3_score norm_query_fuzz entities r).

(** A loop over rows whose body appends at most one candidate. *)
Definition collect (body : row -> option cand) (rows : list row)
  : list cand :=
  fold_right (fun r out => opt_cons (body r) out) [] rows.

Definition execute_run_3 (broad_q norm_query_fuzz raw_query : str)
  : list cand :=
  if negb (nonempty broad_q) then []
  else
    let rows := firstn 200 (fts_scan conn broad_q) in
    let entities := entities_of raw_query in
    sort_desc score (collect (run_3_row norm_query_fuzz entities) rows).

(** *** Run 4: rare terms *)

Definition rare_token (t : str) : bool :=
  (len t >=? 5) && negb (mem t STOPWORDS).

Definition run_4_row (norm_query_fuzz : str) (r : row) : option cand :=
  if negb (truthy (db_vd_id r)) then None
  else
    let norm_db_label := normalize_for_fuzz U (full_label r) in
    accept U 65 (or_empty (db_vd_id r)) (u "RUN_4")
      (token_set_ratio F norm_query_fuzz norm_db_label).

Definition execute_run_4 (norm_query_fts norm_query_fuzz : str)
  : list cand :=
  let tokens := filter rare_token (split norm_query_fts) in
  match tokens with
  | [] => []
  | _ =>
      let tokens := sort_desc len tokens in
      let top_terms := firstn 3 tokens in
      let fts_query := join (u " OR ") top_terms in
      let rows := firstn 100 (fts_scan conn fts_query) in
      sort_desc score (collect (run_4_row norm_query_fuzz) rows)
  end.

(** *** The arbiter *)

Variable model : Arbiter.

Definition NONE : str := u "NONE".

Definition execute_llm_judgment (query_str : str) (top_candidates : list cand)
  : option str :=
  match top_candidates with
  | [] => None
  | _ =>
      let candidate_ids := map vd_id top_candidates in
      let rows := rows_of_ids conn candidate_ids in
      match model query_str rows with
      | LLMError => None
      | LLMResult o =>
          let winner_id := match o with Some w => w | None => NONE end in
          if negb (str_eqb winner_id NONE)
             && existsb (fun c => str_eqb (vd_id c) winner_id) top_candidates
          then Some winner_id else None
      end
  end.

End Fallbacks.

(** ** Aggregation *)

(** A [dict] keeps its keys in the order of their first insertion. *)
Definition odict := list (str * cand).

Fixpoint odict_get (k : str) (m : odict) : option cand :=
  match m with
  | [] => None
  | (k', v) :: m' => if str_eqb k k' then Some v else odict_get k m'
  end.

Fixpoint odict_set (k : str) (v : cand) (m : odict) : odict :=
  match m with
  | [] => [(k, v)]
  | (k', v') :: m' =>
      if str_eqb k k' then (k', v) :: m' else (k', v') :: odict_set k v m'
  end.

Definition odict_values (m : odict) : list cand := map snd m.

Definition fuse_step (exclude_vd17 : bool) (final_map : odict) (r : cand)
  : odict :=
  let vid := vd_id_norm r in
  if exclude_vd17 && startswith (u "vd17") vid then final_map
  else
    match odict_get vid final_map with
    | None => odict_set vid r final_map
    | Some old =>
        if score r >? score old then odict_set vid r final_map else final_map
    end.

Definition fuse_map (exclude_vd17 : bool) (all_results : list cand) : odict :=
  fold_left (fuse_step exclude_vd17) all_results [].

(** The fused ranking: the list before the arbiter is consulted. *)
Definition fuse (exclude_vd17 : bool) (all_results : list cand) : list cand :=
  sort_desc score (odict_values (fuse_map exclude_vd17 all_results)).

Definition promoted (item : cand) : cand :=
  {| vd_id := vd_id item; vd_id_norm := vd_id_norm item;
     score := 100; source := source item ++ u "+LLM" |}.

(** The first item whose identifier is [winner] is updated in place: the
    updated item and the list that holds it. *)
Fixpoint update_winner (winner : str) (l : list cand)
  : option (cand * list cand) :=
  match l with
  | [] => None
  | item :: l' =>
      if str_eqb (vd_id item) winner
      then Some (promoted item, promoted item :: l')
      else
        match update_winner winner l' with
        | Some (it, m) => Some (it, item :: m)
        | None => None
        end
  end.

(** [l.remove(x)]: the first element equal to [x] is removed. *)
Fixpoint list_remove (x : cand) (l : list cand) : list cand :=
  match l with
  | [] => []
  | y :: l' => if cand_eq_dec x y then l' else y :: list_remove x l'
  end.

Definition promote (winner : str) (final_list : list cand) : list cand :=
  match update_winner winner final_list with
  | Some (item, l) => item :: list_remove item l
  | None => final_list
  end.

Section Pipeline.
Variable U : UCD.
Variable F : Fuzz.
Variable conn : Store.
Variable model : Arbiter.
Variable set_iter : list str -> list str.

Definition exclude_vd17_of (query_year : option str) : result bool :=
  if truthy query_year && str_isdigit U (or_empty query_year) then
    y <- py_int U (or_empty query_year) ;;
    Ok (y >? 1700)
  else Ok false.

Definition all_results_of (query query_place query_author : str)
  : result (list cand) :=
  let query_year := extract_query_year U query in
  let norm_query_fts := normalize_for_fts U query in
  let norm_query_fuzz := normalize_for_fuzz U query in
  let (strict_q, broad_q) := build_fts_queries U set_iter norm_query_fts in
  r1 <- execute_run_1 U F conn norm_query_fts strict_q broad_q query_year
          norm_query_fuzz query_place query_author ;;
  r2 <- execute_run_2 U F conn broad_q query_year norm_query_fuzz
          query_author ;;
  let r3 := execute_run_3 U F conn broad_q norm_query_fuzz query in
  let r5 := execute_run_4 U F conn norm_query_fts norm_query_fuzz in
  Ok (r1 ++ r2 ++ r3 ++ r5).

(** The ranking of [get_search_results] before the arbiter step. *)
Definition fused_ranking (query query_place query_author : str)
  : result (list cand) :=
  all_results <- all_results_of query query_place query_author ;;
  exclude_vd17 <- exclude_vd17_of (extract_query_year U query) ;;
  Ok (fuse exclude_vd17 all_results).

Definition arbiter_step (query : str) (final_list : list cand)
  : list cand * str :=
  match final_list with
  | [] => (final_list, u "-")
  | _ =>
      let top_cands := firstn 25 final_list in
      match execute_llm_judgment conn model query top_cands with
      | Some winner =>
          if nonempty winner then (promote winner final_list, winner)
          else (final_list, u "-")
      | None => (final_list, u "-")
      end
  end.

(** The final list and the identifier chosen by the arbiter. *)
Definition get_search_results (query query_place query_author : str)
  : result (list cand * str) :=
  final_list <- fused_ranking query query_place query_author ;;
  Ok (arbiter_step query final_list).

End Pipeline.


(** * The index builder (create_el_index.py) *)

(** A JSON value of a record: null, a string, or a list of such. *)
Inductive jval :=
| JNone
| JStr (s : str)
| JList (l : list (option str)).

(** The first element of a list that is a string with more than white
    space, stripped. *)
Fixpoint first_nonblank (l : list (option str)) : str :=
  match l with
  | [] => []
  | None :: l' => first_nonblank l'
  | Some s :: l' =>
      match strip s with
      | [] => first_nonblank l'
      | t => t
      end
  end.

Definition _first_scalar (val : jval) : str :=
  match val with
  | JList l => first_nonblank l
  | JNone => []
  | JStr s => strip s
  end.

Definition extract_vd_id (vd_ids_list : list (option str)) : str :=
  match vd_ids_list with
  | [] => []
  | first :: _ =>
      match find (fun vid => contains (u "VD18") (str_of vid)) vd_ids_list with
      | Some vid => str_of vid
      | None => str_of first
      end
  end.

(** A line of vd_works.jsonl, with the keys and types that
    map_row_to_first_schema (download_vd_data.py) writes. *)
Record work := {
  w_title : option str;
  w_normalized_title : str;
  w_authors : list str;
  w_year : option str;
  w_place : option str;
  w_vd16_number : option str;
  w_vd17_number : option str;
  w_vd18_number : option str
}.

Definition jval_of (v : option str) : jval :=
  match v with
  | Some s => JStr s
  | None => JNone
  end.

(** extract_vd_id_from_record on such a line: there is no key vd_ids, and
    of the keys tried in turn, vd18, vd17 and vd16 are absent. *)
Definition extract_vd_id_from_record (data : work) : str :=
  let val := _first_scalar (jval_of (w_vd18_number data)) in
  if nonempty val then val
  else
    let val := _first_scalar (jval_of (w_vd17_number data)) in
    if nonempty val then val
    else _first_scalar (jval_of (w_vd16_number data)).

Section IndexBuilder.
Variable U : UCD.

(** [re.findall(r'\b(1[4-9]\d{2})\b', t)] *)
Fixpoint findall_years (prev : option char) (skip : nat) (t : str)
  : list str :=
  match t with
  | [] => []
  | c :: t' =>
      match skip with
      | S k => findall_years (Some c) k t'
      | O =>
          match year_at U prev t with
          | Some y => y :: findall_years (Some c) 3 t'
          | None => findall_years (Some c) 0 t'
          end
      end
  end.

(** extract_year, on the text [str(year_str)]. *)
Definition extract_year (year_str : str) : str :=
  match findall_years None 0 year_str with
  | y :: _ => y
  | [] => []
  end.

(** The body of the loop of build_index on one line: the row inserted, if
    any.  The keys author_primary and publication_places are absent. *)
Definition index_row (data : work) : option row :=
  let title_raw :=
    if truthy (w_title data) then or_empty (w_title data)
    else w_normalized_title data in
  let author_raw :=
    join (u " ") (filter (fun a => nonempty (strip a)) (w_authors data)) in
  let place_raw := or_empty (w_place data) in
  let clean_title := normalize_text U title_raw in
  let clean_author := normalize_text U author_raw in
  let clean_place := normalize_text U place_raw in
  let year := extract_year (str_of (w_year data)) in
  let vd_id := extract_vd_id_from_record data in
  if negb (nonempty vd_id) then None
  else
    let search_text :=
      clean_author ++ u " " ++ clean_title ++ u " " ++ year ++ u " "
      ++ clean_place in
    if len search_text <? 3 then None
    else
      Some {| db_author := Some clean_author; db_title := Some clean_title;
              db_year := Some year; db_place := Some clean_place;
              db_vd_id := Some vd_id |}.

(** The rows of the table after build_index. *)
Definition build_index (works : list work) : list row :=
  flat_map (fun data => match index_row data with
                        | Some r => [r]
                        | None => []
                        end) works.

End IndexBuilder.

(** A store that serves rows of a table. *)
Definition store_over (table : list row) (conn : Store) : Prop :=
  forall q r, In r (fts_ranked conn q) \/ In r (fts_scan conn q) -> In r table.


(** * The evaluation loop (evaluation_unique.py) *)

(** The class [[0-9A-Z]] under IGNORECASE: the ASCII letters and digits,
    and the four characters whose case variants are ASCII letters. *)
Definition is_id_char (c : char) : bool :=
  is_alnum_ascii c || N.eqb c 304 || N.eqb c 305 || N.eqb c 383
  || N.eqb c 8490.

(** [VD18] under IGNORECASE at the head of [t]: the rest of the text. *)
Definition vd18_prefix (t : str) : option str :=
  match t with
  | v :: d :: a :: b :: rest =>
      if (N.eqb v 86 || N.eqb v 118) && (N.eqb d 68 || N.eqb d 100)
         && N.eqb a 49 && N.eqb b 56
      then Some rest else None
  | _ => None
  end.

(** [\s*:?\s*([0-9A-Z]+)] at the head of [t]: the group.  Every step is
    greedy, and giving back a space or the colon leaves the group before a
    character that is not of its class. *)
Definition id_group (t : str) : option str :=
  let t := dropwhile isspace t in
  let t := match t with
           | c :: t' => if N.eqb c 58 then t' else t
           | [] => t
           end in
  let t := dropwhile isspace t in
  match takewhile is_id_char t with
  | [] => None
  | g => Some g
  end.

(** [VD188?\s*:?\s*([0-9A-Z]+)] at the head of [t]: the optional [8] is
    taken first and given back when the rest does not match. *)
Definition gt_match_at (t : str) : option str :=
  match vd18_prefix t with
  | Some rest =>
      match rest with
      | c :: rest' =>
          if N.eqb c 56 then
            match id_group rest' with
            | Some g => Some g
            | None => id_group rest
            end
          else id_group rest
      | [] => id_group rest
      end
  | None => None
  end.

(** [re.search]: the leftmost match. *)
Fixpoint gt_search (t : str) : option str :=
  match gt_match_at t with
  | Some g => Some g
  | None =>
      match t with
      | [] => None
      | _ :: t' => gt_search t'
      end
  end.

Section Evaluation.
Variable U : UCD.
Variable F : Fuzz.
Variable conn : Store.
Variable model : Arbiter.
Variable set_iter : list str -> list str.

Definition extract_vd18_id_from_gt (s : str) : str :=
  match s with
  | [] => []
  | _ =>
      match gt_search s with
      | Some g => u "vd18" ++ lower U g
      | None => lower U (filter is_alnum_ascii s)
      end
  end.

(** A value of a bibliographic item: a list, given by the texts [str(v)] of
    its elements, or a scalar, given by its text. *)
Inductive bval :=
| BList (l : list str)
| BScalar (s : str).

(** The keys of an item that the loop reads; [None] for a key that is
    absent. *)
Record bibl_item := {
  b_author : option bval;
  b_title : option bval;
  b_year : option bval;
  b_place : option bval
}.

Definition get_val (v : option bval) : str :=
  match v with
  | Some (BList l) => join (u " ") l
  | Some (BScalar s) => s
  | None => []
  end.

Definition present (v : option bval) : bool :=
  match v with
  | Some _ => true
  | None => false
  end.

(** The query, the place and the author of an item. *)
Definition build_query_string (bibl : bibl_item) : str * str * str :=
  let parts := [] in
  let place := [] in
  let author := [] in
  let author :=
    if present (b_author bibl) then get_val (b_author bibl) else author in
  let parts :=
    if present (b_author bibl) then parts ++ [author] else parts in
  let parts :=
    if present (b_title bibl) then parts ++ [get_val (b_title bibl)]
    else parts in
  let parts :=
    if present (b_year bibl) then parts ++ [get_val (b_year bibl)]
    else parts in
  let place :=
    if present (b_place bibl) then get_val (b_place bibl) else place in
  (join (u " ") parts, place, author).

(** The target is among the normalized identifiers of the first five
    results. *)
Definition hit (target : str) (final_res : list cand) : bool :=
  existsb (fun r => str_eqb (vd_id_norm r) target) (firstn 5 final_res).

Record stats := { total : Z; found : Z }.

(** The body of the loop on one item and its ground truth, given by the
    text of its identifier. *)
Definition evaluate_item (st : stats) (b : bibl_item) (gt_id : str)
  : result stats :=
  let st := {| total := total st + 1; found := found st |} in
  let '(q, q_place, q_author) := build_query_string b in
  let target := extract_vd18_id_from_gt gt_id in
  if negb (nonempty target) then Ok st
  else
    res <- get_search_results U F conn model set_iter q q_place q_author ;;
    if hit target (fst res)
    then Ok {| total := total st; found := found st + 1 |}
    else Ok st.

Fixpoint evaluate (st : stats) (pairs : list (bibl_item * str))
  : result stats :=
  match pairs with
  | [] => Ok st
  | (b, gt_id) :: pairs' =>
      st' <- evaluate_item st b gt_id ;;
      evaluate st' pairs'
  end.

End Evaluation.


(** * The catalogue download (download_vd_data.py) *)

(** A value of a row of the dataset: None, a float that is NaN, a number
    (an int, a bool or another float) given by its text [str(val)], a
    string, or a list of values. *)
#[warnings="-register-all"] Inductive hval :=
| HNone
| HNaN
| HNum (text : str)
| HStr (s : str)
| HList (l : list hval).

(** A row: the value of each column that it has. *)
Definition hrow := str -> option hval.

(** [s.split(sep)] for a separator of one character. *)
Fixpoint split_on (sep : char) (s : str) : list str :=
  match s with
  | [] => [[]]
  | c :: s' =>
      if N.eqb c sep then [] :: split_on sep s'
      else
        match split_on sep s' with
        | w :: ws => (c :: w) :: ws
        | [] => [[c]]
        end
  end.

Definition endswith (p s : str) : bool := startswith (rev p) (rev s).

Definition parse_list_field (val : hval) : list str :=
  match val with
  | HList l =>
      flat_map (fun v => match v with
                         | HStr s =>
                             if nonempty (strip s) then [strip s] else []
                         | _ => []
                         end) l
  | HStr s =>
      let s := strip s in
      if negb (nonempty s) then []
      else
        let s :=
          if startswith (u "[") s && endswith (u "]") s
          then removelast (tl s) else s in
        let parts := map strip (split_on 44%N s) in
        filter nonempty parts
  | _ => []
  end.

Section Download.
Variable U : UCD.

Definition normalize_title (title : option str) : str :=
  if negb (truthy title) then []
  else join (u " ") (split (lower U (or_empty title))).

Definition is_empty (val : hval) : bool :=
  match val with
  | HNone => true
  | HStr s => negb (nonempty (strip s))
  | HList [] => true
  | _ => false
  end.

Fixpoint scalarize (val : hval) : option str :=
  match val with
  | HNone => None
  | HNaN => None
  | HNum text => Some text
  | HList l =>
      (fix first (l : list hval) : option str :=
         match l with
         | [] => None
         | x :: l' =>
             match scalarize x with
             | Some sx => if nonempty sx then Some sx else first l'
             | None => first l'
             end
         end) l
  | HStr s => let s := strip s in if nonempty s then Some s else None
  end.

Fixpoint get_first_present (row : hrow) (candidates : list str) : hval :=
  match candidates with
  | [] => HNone
  | k :: candidates' =>
      match row k with
      | Some v =>
          if negb (is_empty v) then v
          else get_first_present row candidates'
      | None => get_first_present row candidates'
      end
  end.

Definition clean_pica_like_text (val : hval) : option str :=
  match scalarize val with
  | Some s =>
      if nonempty s then Some (strip (replace (u "$") (u " ") s)) else None
  | None => None
  end.

Definition CANDIDATES : list (str * list str) :=
  [ (u "ppn", [u "0100 Pica-Produktionsnummer"]);
    (u "vd16", [u "2190 VD16-Nummer"]);
    (u "vd17", [u "2191 VD17-Nummer"]);
    (u "vd18", [u "2192 VD18-Nummer"]);
    (u "title",
     [u "245 Titel";
      u "4000 Haupttitel, Titelzusatz, Verantwortlichkeitsangabe"]);
    (u "alt_titles", [u "246 Alternativtitel"]);
    (u "year",
     [u "264 Erscheinungsjahr";
      u "1100 Erscheinungsdatum/Entstehungsdatum"]);
    (u "place", [u "264 Erscheinungsort"; u "4040 Normierter Ort"]);
    (u "authors",
     [u "3000 Person/Familie als 1. geistiger Sch" ++ [246%N] ++ u "pfer"]) ].

(** [CANDIDATES[k]] for a key of the table. *)
Fixpoint candidates_of (d : list (str * list str)) (k : str) : list str :=
  match d with
  | [] => []
  | (k', v) :: d' => if str_eqb k k' then v else candidates_of d' k
  end.

(** A record of vd_works.jsonl. *)
Record vd_record := {
  r_id : option str;
  r_vd16_number : option str;
  r_vd17_number : option str;
  r_vd18_number : option str;
  r_title : option str;
  r_normalized_title : str;
  r_alt_titles : list str;
  r_authors : list str;
  r_year : option str;
  r_place : option str;
  r_source : str
}.

Definition map_row_to_first_schema (row : hrow) : option vd_record :=
  let vd16 :=
    scalarize
      (get_first_present row (candidates_of CANDIDATES (u "vd16"))) in
  let vd17 :=
    scalarize
      (get_first_present row (candidates_of CANDIDATES (u "vd17"))) in
  let vd18 :=
    scalarize
      (get_first_present row (candidates_of CANDIDATES (u "vd18"))) in
  if negb (truthy vd16 || truthy vd17 || truthy vd18) then None
  else
    let ppn :=
      scalarize
        (get_first_present row (candidates_of CANDIDATES (u "ppn"))) in
    let title_raw :=
      get_first_present row (candidates_of CANDIDATES (u "title")) in
    let title := clean_pica_like_text title_raw in
    let norm_title := normalize_title title in
    let alt_raw :=
      get_first_present row (candidates_of CANDIDATES (u "alt_titles")) in
    let alt_titles := parse_list_field alt_raw in
    let auth_raw :=
      get_first_present row (candidates_of CANDIDATES (u "authors")) in
    let authors := parse_list_field auth_raw in
    let year_raw :=
      get_first_present row (candidates_of CANDIDATES (u "year")) in
    let year := scalarize year_raw in
    let place_raw :=
      get_first_present row (candidates_of CANDIDATES (u "place")) in
    let place := clean_pica_like_text place_raw in
    Some {| r_id := ppn; r_vd16_number := vd16; r_vd17_number := vd17;
            r_vd18_number := vd18; r_title := title;
            r_normalized_title := norm_title; r_alt_titles := alt_titles;
            r_authors := authors; r_year := year; r_place := place;
            r_source := u "VD-Metadata" |}.

End Download.

(** The record as the index builder reads it from its line of
    vd_works.jsonl. *)
Definition work_of (rec : vd_record) : work := {|
  w_title := r_title rec;
  w_normalized_title := r_normalized_title rec;
  w_authors := r_authors rec;
  w_year := r_year rec;
  w_place := r_place rec;
  w_vd16_number := r_vd16_number rec;
  w_vd17_number := r_vd17_number rec;
  w_vd18_number := r_vd18_number rec
|}.

(** * Vocabulary of the properties *)

(** Non-increasing keys. *)
Definition desc {A} (key : A -> Z) (a b : A) : Prop := key b <= key a.

(** Decreasing keys. *)
Definition sdesc {A} (key : A -> Z) (a b : A) : Prop := key b < key a.

Definition excluded (exclude_vd17 : bool) (k : str) : bool :=
  exclude_vd17 && startswith (u "vd17") k.

(** [c] is the candidate of key [k] that fusion keeps from [l]: the first
    one, in the order of [l], with the highest score of that key. *)
Definition winner_of (k : str) (l : list cand) (c : cand) : Prop :=
  exists pre post,
    l = pre ++ c :: post /\ vd_id_norm c = k
    /\ (forall r, In r pre -> vd_id_norm r = k -> score r < score c)
    /\ (forall r, In r post -> vd_id_norm r = k -> score r <= score c).

(** The keys of [l] in the order of their first occurrence, those of
    [seen] left out. *)
Fixpoint dedup (seen l : list str) : list str :=
  match l with
  | [] => []
  | k :: l' =>
      if mem k seen then dedup seen l' else k :: dedup (seen ++ [k]) l'
  end.

Definition kept (x : bool) (r : cand) : bool :=
  negb (excluded x (vd_id_norm r)).

Definition scores_in_range (l : list cand) : Prop :=
  Forall (fun c => 0 <= score c <= 100) l.

Definition unique_ids (l : list cand) : Prop := NoDup (map vd_id_norm l).

(** Non-increasing score order. *)
Definition ranked (l : list cand) : Prop := StronglySorted (desc score) l.

Definition ResultSet (l : list cand) : Prop :=
  scores_in_range l /\ unique_ids l /\ ranked l.

(** An accepted candidate: a score between the acceptance threshold and
    100, a non-empty identifier and its normalized form. *)
Definition strategy_cand (U : UCD) (c : cand) : Prop :=
  MIN_ACCEPT_SCORE <= score c <= 100 /\ vd_id c <> []
  /\ vd_id_norm c = normalize_db_vd_id U (vd_id c).

(** [str.lower] on the characters of identifiers. *)
Definition ascii_lower_law (U : UCD) : Prop :=
  forall s, forallb is_alnum_ascii s = true -> lower U s = map ascii_lower s.

(** The earlier-era prefix, on a normalized and on a raw identifier. *)
Definition vd17_norm (c : cand) : bool := startswith (u "vd17") (vd_id_norm c).
Definition vd17_raw (c : cand) : bool :=
  startswith (u "vd17") (map ascii_lower (vd_id c)).

(** The reading of the fusion rule in which the origin tag of a survivor
    names every strategy that reached its score. *)
Definition tie_records_all (x : bool) (l : list cand) : Prop :=
  forall c r,
    In c (fuse x l) -> In r l ->
    vd_id_norm r = vd_id_norm c -> score r = score c ->
    contains (source r) (source c) = true.

(** No two distinct candidates of [l] have the same score. *)
Definition tie_free (l : list cand) : Prop :=
  forall a b, In a l -> In b l -> score a = score b -> a = b.

(** [a] comes before [b] in [l]. *)
Definition precedes {A} (a b : A) (l : list A) : Prop :=
  exists l1 l2 l3, l = l1 ++ a :: l2 ++ b :: l3.

(** The key [k1] is seen in [ks], and before the key [k2] if that one is
    seen at all. *)
Fixpoint seen_before (k1 k2 : str) (ks : list str) : bool :=
  match ks with
  | [] => false
  | k :: ks' =>
      if str_eqb k k1 then true
      else if str_eqb k k2 then false
      else seen_before k1 k2 ks'
  end.

Definition id_score (c : cand) : str * Z := (vd_id_norm c, score c).

(** The conditions of the two bonuses of run 1. *)
Definition author_match (U : UCD) (F : Fuzz) (norm_query_fuzz : str)
  (r : row) : Prop :=
  exists a,
    db_author r = Some a /\ a <> []
    /\ 90 <= partial_ratio F (normalize_for_fuzz U a) norm_query_fuzz.

Definition place_match (U : UCD) (F : Fuzz) (query_place : str) (r : row)
  : Prop :=
  query_place <> []
  /\ exists p,
       db_place r = Some p /\ p <> []
       /\ 85 < partial_ratio F (normalize_for_fuzz U query_place)
                 (normalize_for_fuzz U p).

(** The author bonus read as a comparison with the author of the
    query. *)
Definition author_bonus_by_query_author (U : UCD) (F : Fuzz)
  (query_author : str) (r : row) : Z :=
  if truthy (db_author r)
     && (partial_ratio F (normalize_for_fuzz U (or_empty (db_author r)))
           (normalize_for_fuzz U query_author) >=? 90)
  then AUTHOR_BONUS else 0.

Definition with_year (r : row) (y : option str) : row := {|
  db_author := db_author r; db_title := db_title r; db_year := y;
  db_place := db_place r; db_vd_id := db_vd_id r
|}.

(** No token of the text survives query planning. *)
Definition no_planned_tokens (U : UCD) (norm_query_fts : str) : Prop :=
  forall t,
    In t (split norm_query_fts) ->
    str_isdigit U t = true \/ len t < MIN_FTS_TOKEN_LEN \/ In t STOPWORDS.

(** normalize-for-index in the words of the specification: decompose,
    drop combining marks, lowercase, map the ligatures, replace what is
    not in [a-z0-9] or white space by a space, collapse white space. *)
Definition normalize_for_index_spec (U : UCD) (text : str) : str :=
  match text with
  | [] => []
  | _ =>
      collapse_ws
        (map (fun c => if is_az c || is_09 c || isspace c then c else SP)
           (fold_ligatures
              (lower U
                 (filter (fun c => negb (combining U c)) (nfkd U text)))))
  end.

(** A token: not empty and without white space. *)
Definition is_token (w : str) : Prop :=
  w <> [] /\ Forall (fun c => isspace c = false) w.

(** The tokens [ws] after a first token, each behind a space. *)
Definition sep_join (ws : list str) : str :=
  match ws with
  | [] => []
  | _ => SP :: join [SP] ws
  end.

Definition is_tokenb (w : str) : bool :=
  nonempty w && forallb (fun c => negb (isspace c)) w.

(** What the database says of decimal digits: the ASCII digits are
    decimal digits, and a decimal digit is neither white space, nor an
    underscore, nor a sign. *)
Definition decimal_laws (U : UCD) : Prop :=
  (forall c, is_09 c = true -> is_decimal U c = true)
  /\ (forall c, is_decimal U c = true ->
                isspace c = false /\ c <> 95%N /\ c <> 43%N /\ c <> 45%N).

Definition decimal_text (U : UCD) (y : str) : Prop :=
  Forall (fun c => is_decimal U c = true) y.

(** A year column that is NULL, empty or a number. *)
Definition clean_year (U : UCD) (r : row) : Prop :=
  forall y, db_year r = Some y -> decimal_text U y.

Definition clean_store (U : UCD) (conn : Store) : Prop :=
  forall q r,
    In r (fts_ranked conn q) \/ In r (fts_scan conn q) -> clean_year U r.

(** The year of the query: absent, or a number. *)
Definition year_signal (U : UCD) (query_year : option str) : Prop :=
  forall y, query_year = Some y -> y <> [] /\ decimal_text U y.


(** What the database says of the values of digits. *)
Definition digit_value_laws (U : UCD) : Prop :=
  decimal_laws U
  /\ (forall c, is_09 c = true -> decimal U c = Some (Z.of_N c - 48))
  /\ (forall c v, decimal U c = Some v -> 0 <= v <= 9).


(** A normalized text: words of lowercase letters and digits, with one
    space between two words and none at either end. *)
Definition is_word_az09 (w : str) : Prop :=
  w <> [] /\ Forall (fun c => is_az c || is_09 c = true) w.

Definition is_normal (s : str) : Prop :=
  exists ws, s = join [SP] ws /\ Forall is_word_az09 ws.

(** What the database says of lowercase ASCII letters, digits and the
    space: they are their own decomposition and their own lowercase, and
    are not combining marks. *)
Definition ascii_text_laws (U : UCD) : Prop :=
  forall s,
    Forall (fun c => is_az c || is_09 c || N.eqb c 32 = true) s ->
    nfkd U s = s /\ lower U s = s
    /\ Forall (fun c => combining U c = false) s.


(** The characters of a MATCH expression without FTS5 syntax: ASCII
    letters, digits and the space. *)
Definition safe_expr (s : str) : Prop :=
  Forall (fun c => is_alnum_ascii c || N.eqb c 32 = true) s.

(** The expression that run 4 sends to the index. *)
Definition run_4_query (norm_query_fts : str) : str :=
  join (u " OR ")
    (firstn 3 (sort_desc len (filter rare_token (split norm_query_fts)))).


(** The origin tags of the four runs. *)
Definition RUN_TAGS : list str := [u "RUN_1"; u "RUN_2"; u "RUN_3"; u "RUN_4"].


(** What the database says of the word characters: a decimal digit is
    one, the space is not. *)
Definition word_laws (U : UCD) : Prop :=
  (forall c, is_decimal U c = true -> isalnum U c = true)
  /\ isalnum U 32%N = false.

(** The first year found in a list of texts. *)
Fixpoint first_year (U : UCD) (parts : list str) : option str :=
  match parts with
  | [] => None
  | p :: parts' =>
      match extract_query_year U p with
      | Some y => Some y
      | None => first_year U parts'
      end
  end.

(** The items of a test set that have a target. *)
Definition with_target (U : UCD) (pairs : list (bibl_item * str))
  : list (bibl_item * str) :=
  filter (fun p => nonempty (extract_vd18_id_from_gt U (snd p))) pairs.


(** The text of a number is not empty and has no white space. *)
Fixpoint wf_hval (v : hval) : Prop :=
  match v with
  | HNum text => text <> [] /\ Forall (fun c => isspace c = false) text
  | HList l =>
      (fix all (l : list hval) : Prop :=
         match l with
         | [] => True
         | x :: l' => wf_hval x /\ all l'
         end) l
  | _ => True
  end.

Definition wf_row (row : hrow) : Prop :=
  forall k v, row k = Some v -> wf_hval v.

(** A text that is not empty and has no white space at either end. *)
Definition stripped (s : str) : Prop := s <> [] /\ strip s = s.

(** The identifier of a record of the catalogue for the index. *)
Definition record_id (rec : vd_record) : str :=
  match r_vd18_number rec with
  | Some s => s
  | None =>
      match r_vd17_number rec with
      | Some s => s
      | None => or_empty (r_vd16_number rec)
      end
  end.

(** The candidate is in the output of one of the runs, under the tag of
    that run. *)
Definition produced_by (runs : list (str * list cand)) (c : cand) : Prop :=
  exists tag out, In (tag, out) runs /\ In c out /\ source c = tag.


(** * A small catalogue for the examples *)

(** The iteration order of a set taken as the order of first insertion. *)
Definition insertion_order (l : list str) : list str := dedup [] l.

(** Text of the search column of the index builder. *)
Definition search_text (r : row) : str :=
  or_empty (db_author r) ++ u " " ++ or_empty (db_title r) ++ u " "
  ++ or_empty (db_year r) ++ u " " ++ or_empty (db_place r).

(** A MATCH by containment of the terms, as the trigram tokenizer gives:
    all terms of a conjunction, one term of a disjunction. *)
Definition term_match (q : str) (r : row) : bool :=
  let ts := split q in
  if mem (u "AND") ts
  then forallb (fun t => str_eqb t (u "AND") || contains t (search_text r)) ts
  else existsb (fun t => negb (str_eqb t (u "OR"))
                         && contains t (search_text r)) ts.

Definition store_of (rows : list row) : Store := {|
  fts_ranked := fun q => filter (term_match q) rows;
  fts_scan := fun q => filter (term_match q) rows;
  rows_of_ids :=
    fun ids => filter (fun r => mem (or_empty (db_vd_id r)) ids) rows
|}.

Definition subset (a b : list str) : bool := forallb (fun t => mem t b) a.

(** A similarity oracle for the examples.  It answers 100 where rapidfuzz
    does by definition: for two texts of which the tokens of one are among
    the tokens of the other (token_set_ratio), for a text contained in the
    other (partial_ratio) and for equal texts (WRatio); it answers 0
    against an empty text, as rapidfuzz does, and also on every other
    pair, where rapidfuzz has a value in between. *)
Definition sample_fuzz : Fuzz := {|
  token_set_ratio := fun a b =>
    if nonempty a && nonempty b
       && (subset (split a) (split b) || subset (split b) (split a))
    then 100 else 0;
  partial_ratio := fun a b =>
    if nonempty a && nonempty b && (contains a b || contains b a)
    then 100 else 0;
  WRatio := fun a b => if nonempty a && str_eqb a b then 100 else 0
|}.

Definition mk_row (author title year place id : String.string) : row := {|
  db_author := Some (u author); db_title := Some (u title);
  db_year := Some (u year); db_place := Some (u place);
  db_vd_id := Some (u id)
|}.

Definition sample_rows : list row :=
  [ mk_row "frolich" "de peste" "1680" "jena" "VD17 12:345678A";
    mk_row "frolich" "de peste" "1702" "jena" "VD18 10123456";
    mk_row "frolich" "de peste tractatus" "1702" "halle" "VD18 10123457";
    mk_row "" "leben des frolich" "1703" "jena" "VD18 90000001" ].

Definition sample_store : Store := store_of sample_rows.

(** An arbiter with a fixed reply. *)
Definition replying (reply : llm_reply) : Arbiter := fun _ _ => reply.

Definition sample_query : str := u "Frolich De Peste 1680".
Definition sample_query_1702 : str := u "Frolich De Peste 1702".

Definition sample_vd17 : cand := {|
  vd_id := u "VD17 12:345678A"; vd_id_norm := u "vd1712345678a";
  score := 100; source := u "RUN_1"
|}.

Definition sample_vd18 (src : String.string) : cand := {|
  vd_id := u "VD18 10123456"; vd_id_norm := u "vd1810123456";
  score := 100; source := u src
|}.

Definition tied_run_1 : cand := {|
  vd_id := u "VD18 10123456"; vd_id_norm := u "vd1810123456";
  score := 80; source := u "RUN_1"
|}.

Definition tied_run_3 : cand := {|
  vd_id := u "VD18 10123456"; vd_id_norm := u "vd1810123456";
  score := 80; source := u "RUN_3"
|}.

Definition ranked_a : cand := {|
  vd_id := u "VD18 1"; vd_id_norm := u "vd181"; score := 90;
  source := u "RUN_1"
|}.

Definition ranked_b : cand := {|
  vd_id := u "VD18 1"; vd_id_norm := u "vd181"; score := 80;
  source := u "RUN_3"
|}.

Definition ranked_c : cand := {|
  vd_id := u "VD18 2"; vd_id_norm := u "vd182"; score := 70;
  source := u "RUN_3"
|}.

Definition frolich_1680 : row :=
  mk_row "frolich" "de peste" "1680" "jena" "VD17 12:345678A".

(** A record with a year that is not a number. *)
Definition malformed_row : row :=
  mk_row "" "leben des frolich" "1702/03" "" "VD18 90000002".

(** A record, and a query, made of numbers. *)
Definition numbers_row : row := mk_row "" "12345 67890" "" "" "VD18 7".

Definition numbers_cand : cand := {|
  vd_id := u "VD18 7"; vd_id_norm := u "vd187"; score := 100;
  source := u "RUN_4"
|}.


Definition sample_work : work := {|
  w_title := Some (u "De Peste. Tractatus");
  w_normalized_title := u "de peste. tractatus";
  w_authors := [u "Frolich, Georg"; u " "];
  w_year := Some (u "[Jena] 1702/03");
  w_place := Some (u "Jena");
  w_vd16_number := None;
  w_vd17_number := Some (u " VD17 12:345678A ");
  w_vd18_number := Some (u "VD18 10123456")
|}.


Definition sample_anonymous : cand := {|
  vd_id := u "VD18 90000001"; vd_id_norm := u "vd1890000001";
  score := 100; source := u "RUN_2"
|}.

Definition sample_halle : cand := {|
  vd_id := u "VD18 10123457"; vd_id_norm := u "vd1810123457";
  score := 100; source := u "RUN_1"
|}.


Definition sample_item : bibl_item := {|
  b_author := Some (BList [u "Frolich"]);
  b_title := Some (BScalar (u "De Peste"));
  b_year := Some (BScalar (u "1680"));
  b_place := Some (BScalar (u "Jena"))
|}.


(** A row of the dataset. *)
Definition sample_hrow : hrow := fun k =>
  if str_eqb k (u "2192 VD18-Nummer") then Some (HStr (u " VD18 10123456 "))
  else if str_eqb k (u "2191 VD17-Nummer") then Some HNaN
  else if str_eqb k (u "245 Titel") then Some (HStr (u "De Peste$Tractatus"))
  else if str_eqb k (u "264 Erscheinungsjahr") then Some (HNum (u "1702"))
  else if str_eqb k (u "264 Erscheinungsort") then Some (HList [HStr (u "Jena")])
  else if str_eqb k
            (u "3000 Person/Familie als 1. geistiger Sch" ++ [246%N]
             ++ u "pfer")
       then Some (HStr (u "[Frolich, Georg]"))
  else None.

(** The record that the download writes for it, and its row in the
    index. *)
Definition sample_record : vd_record := {|
  r_id := None;
  r_vd16_number := None;
  r_vd17_number := None;
  r_vd18_number := Some (u "VD18 10123456");
  r_title := Some (u "De Peste Tractatus");
  r_normalized_title := u "de peste tractatus";
  r_alt_titles := [];
  r_authors := [u "Frolich"; u "Georg"];
  r_year := Some (u "1702");
  r_place := Some (u "Jena");
  r_source := u "VD-Metadata"
|}.

(** A record of the catalogue without a year. *)
Definition undated_work : work := {|
  w_title := Some (u "De Peste");
  w_normalized_title := u "de peste";
  w_authors := [u "Frolich"];
  w_year := Some (u "s.a.");
  w_place := Some (u "Jena");
  w_vd16_number := None;
  w_vd17_number := None;
  w_vd18_number := Some (u "VD18 10123458")
|}.

Definition undated_cand : cand := {|
  vd_id := u "VD18 10123458"; vd_id_norm := u "vd1810123458";
  score := 100; source := u "RUN_1"
|}.

(** * Properties *)

(** ** The string functions on examples *)

Example sub_suffix_examples :
  map (sub_suffix basic_latin)
    [u "hauses"; u "johannes bons"; u "wagens"; u "wagenss"; u "hauses1";
     u "1hauses"; u "hauses_"; u "haus"; u "hausns"; u "hauss"]
  = [u "hause"; u "johanne bons"; u "wagen"; u "wagens"; u "hauses1";
     u "1hauses"; u "hauses_"; u "haus"; u "hausn"; u "hauss"].
Proof. reflexivity. Qed.

Example findall_entities_examples :
  map (findall_entities basic_latin None 0)
    [u "Eine neue Entrevue Von Georg"; u "XHaus Haus1 Haus_ Hause,Peste";
     u "FrolichDe Peste"; u "Abc Abcd ABcde"]
  = [[u "Eine"; u "Entrevue"; u "Georg"]; [u "Hause"; u "Peste"];
     [u "Peste"]; [u "Abcd"]].
Proof. reflexivity. Qed.

Example extract_query_year_examples :
  map (extract_query_year basic_latin)
    [u "Anno 1680."; u "x1680 1399 2000 1999a 1999"; u "1680-1702";
     u "16801"; u "_1680 1500"]
  = [Some (u "1680"); Some (u "1999"); Some (u "1680"); None;
     Some (u "1500")].
Proof. reflexivity. Qed.

Example string_examples :
  replace (u ".") [] (u "a..b.c") = u "abc"
  /\ replace [223%N] (u "ss") [97%N; 223%N; 98%N] = u "assb"
  /\ split [32%N; 97%N; 32%N; 9%N; 32%N; 98%N; 10%N] = [u "a"; u "b"]
  /\ collapse_ws [32%N; 97%N; 32%N; 9%N; 32%N; 98%N; 10%N] = u "a b"
  /\ str_of_Z 0 = u "0" /\ str_of_Z (-5) = u "-5"
  /\ str_of_Z 1701 = u "1701".
Proof. repeat split. Qed.

Example py_int_examples :
  map (py_int basic_latin)
    [u "+12"; u "-1_2"; u " 1700 "; u ""; u " "; u "+"; u "1__2"; u "_1";
     u "1_"; u "1702/03"; u "12a"]
  = [Ok 12; Ok (-12); Ok 1700; Raise ValueError; Raise ValueError;
     Raise ValueError; Raise ValueError; Raise ValueError; Raise ValueError;
     Raise ValueError; Raise ValueError].
Proof. reflexivity. Qed.

(** ** Stable sorting *)

Section Sorting.
Context {A : Type} (key : A -> Z).



Lemma insert_desc_perm (x : A) (l : list A) :
  Permutation (insert_desc key x l) (x :: l).
Proof.
  induction l as [|y l IH]; simpl; [reflexivity|].
  destruct (key x <? key y); [|reflexivity].
  rewrite IH. apply perm_swap.
Qed.

Lemma sort_desc_perm (l : list A) : Permutation (sort_desc key l) l.
Proof.
  induction l as [|x l IH]; simpl; [reflexivity|].
  rewrite insert_desc_perm. now constructor.
Qed.

Lemma sort_desc_In (l : list A) (x : A) : In x (sort_desc key l) <-> In x l.
Proof.
  split; apply Permutation_in;
    [apply sort_desc_perm | symmetry; apply sort_desc_perm].
Qed.

Lemma insert_desc_sorted (x : A) (l : list A) :
  StronglySorted (desc key) l -> StronglySorted (desc key) (insert_desc key x l).
Proof.
  induction 1 as [|y l Hl IH Hy]; simpl.
  - repeat constructor.
  - destruct (key x <? key y) eqn:E.
    + apply Z.ltb_lt in E. constructor; [assumption|].
      apply Forall_forall. intros z Hz.
      apply (Permutation_in _ (insert_desc_perm x l)) in Hz.
      destruct Hz as [<-|Hz]; [unfold desc; lia|].
      rewrite Forall_forall in Hy. now apply Hy.
    + apply Z.ltb_ge in E. constructor; [now constructor|].
      constructor; [exact E|].
      eapply Forall_impl; [|exact Hy]. unfold desc. intros; lia.
Qed.

Lemma sort_desc_sorted (l : list A) : StronglySorted (desc key) (sort_desc key l).
Proof.
  induction l; simpl; [constructor | now apply insert_desc_sorted].
Qed.

Lemma insert_desc_head (x : A) (l : list A) :
  Forall (fun y => key y <= key x) l -> insert_desc key x l = x :: l.
Proof.
  destruct l as [|y l]; simpl; [reflexivity|].
  intros H. inversion H; subst.
  destruct (key x <? key y) eqn:E; [apply Z.ltb_lt in E; lia | reflexivity].
Qed.

(** A list already in non-increasing order is left as it is. *)
Lemma sort_desc_sorted_id (l : list A) :
  StronglySorted (desc key) l -> sort_desc key l = l.
Proof.
  induction 1 as [|x l Hl IH Hx]; simpl; [reflexivity|].
  rewrite IH. now apply insert_desc_head.
Qed.

(** Stability: the elements of any one key keep their order. *)
Lemma insert_desc_stable (p : A -> bool) (x : A) (l : list A) :
  (forall y, In y l -> p x = true -> p y = true -> key y = key x) ->
  filter p (insert_desc key x l) = filter p (x :: l).
Proof.
  induction l as [|y l IH]; intros H; simpl; [reflexivity|].
  destruct (key x <? key y) eqn:E; [|reflexivity].
  apply Z.ltb_lt in E. simpl.
  rewrite IH by (intros z Hz; apply H; now right). simpl.
  destruct (p y) eqn:Py, (p x) eqn:Px; try reflexivity.
  specialize (H y (or_introl eq_refl) eq_refl Py). lia.
Qed.

Lemma sort_desc_stable (v : Z) (l : list A) :
  filter (fun a => key a =? v) (sort_desc key l)
  = filter (fun a => key a =? v) l.
Proof.
  induction l as [|x l IH]; simpl; [reflexivity|].
  rewrite insert_desc_stable.
  - simpl. now rewrite IH.
  - intros y _ Hx Hy. apply Z.eqb_eq in Hx, Hy. lia.
Qed.

(** Two lists in decreasing order with the same elements are equal. *)
Lemma sdesc_unique (l1 l2 : list A) :
  StronglySorted (sdesc key) l1 -> StronglySorted (sdesc key) l2 ->
  (forall x, In x l1 <-> In x l2) -> l1 = l2.
Proof.
  intros H1. revert l2.
  induction H1 as [|x l1 Hl1 IH Hx]; intros l2 H2 Hin.
  - destruct l2 as [|y l2]; [reflexivity|].
    exfalso. apply (Hin y). now left.
  - destruct H2 as [|y l2 Hl2 Hy].
    + exfalso. apply (Hin x). now left.
    + rewrite Forall_forall in Hx, Hy.
      assert (x = y) as ->.
      { destruct (proj1 (Hin x) (or_introl eq_refl)) as [E|E]; [easy|].
        destruct (proj2 (Hin y) (or_introl eq_refl)) as [E'|E']; [easy|].
        apply Hy in E. apply Hx in E'. unfold sdesc in *. lia. }
      f_equal. apply IH; [assumption|].
      intros z. split; intros Hz.
      * destruct (proj1 (Hin z) (or_intror Hz)) as [E|E]; [|assumption].
        subst z. apply Hx in Hz. unfold sdesc in Hz. lia.
      * destruct (proj2 (Hin z) (or_intror Hz)) as [E|E]; [|assumption].
        subst z. apply Hy in Hz. unfold sdesc in Hz. lia.
Qed.

End Sorting.

(** ** Ordered dictionaries *)

Lemma str_eqb_eq (a b : str) : str_eqb a b = true <-> a = b.
Proof.
  unfold str_eqb. destruct (str_eq_dec a b); split; congruence.
Qed.

Lemma str_eqb_neq (a b : str) : str_eqb a b = false <-> a <> b.
Proof.
  unfold str_eqb. destruct (str_eq_dec a b); split; congruence.
Qed.

Lemma str_eqb_refl (a : str) : str_eqb a a = true.
Proof. now apply str_eqb_eq. Qed.

Lemma mem_In (x : str) (l : list str) : mem x l = true <-> In x l.
Proof.
  unfold mem. rewrite existsb_exists. split.
  - intros (y & Hy & E). apply str_eqb_eq in E. now subst.
  - intros H. exists x. split; [assumption | apply str_eqb_refl].
Qed.

Lemma odict_get_set_same (k : str) (v : cand) (m : odict) :
  odict_get k (odict_set k v m) = Some v.
Proof.
  induction m as [|[k' v'] m IH]; simpl.
  - now rewrite str_eqb_refl.
  - destruct (str_eqb k k') eqn:E; simpl; rewrite E; [reflexivity | exact IH].
Qed.

Lemma odict_get_set_other (k k' : str) (v : cand) (m : odict) :
  k <> k' -> odict_get k' (odict_set k v m) = odict_get k' m.
Proof.
  intros Hk. induction m as [|[k2 v2] m IH]; simpl.
  - apply not_eq_sym, str_eqb_neq in Hk. now rewrite Hk.
  - destruct (str_eqb k k2) eqn:E; simpl.
    + apply str_eqb_eq in E. subst k2.
      apply not_eq_sym, str_eqb_neq in Hk. now rewrite Hk.
    + now rewrite IH.
Qed.

Lemma odict_get_None (k : str) (m : odict) :
  odict_get k m = None <-> ~ In k (map fst m).
Proof.
  induction m as [|[k' v'] m IH]; simpl; [tauto|].
  destruct (str_eqb k k') eqn:E.
  - apply str_eqb_eq in E. subst k'. split; [discriminate|].
    intros H. exfalso. apply H. now left.
  - apply str_eqb_neq in E. rewrite IH. split; intros H; [|tauto].
    intros [H'|H']; [congruence | tauto].
Qed.

Lemma odict_get_In (k : str) (v : cand) (m : odict) :
  odict_get k m = Some v -> In (k, v) m.
Proof.
  induction m as [|[k' v'] m IH]; simpl; [discriminate|].
  destruct (str_eqb k k') eqn:E.
  - apply str_eqb_eq in E. intros [= ->]. left. now subst.
  - intros H. right. now apply IH.
Qed.

Lemma odict_In_get (k : str) (v : cand) (m : odict) :
  NoDup (map fst m) -> In (k, v) m -> odict_get k m = Some v.
Proof.
  induction m as [|[k' v'] m IH]; simpl; [tauto|].
  intros Hnd [H|H]; inversion Hnd as [|? ? Hk' Hm]; subst.
  - injection H as -> ->. now rewrite str_eqb_refl.
  - destruct (str_eqb k k') eqn:E; [|now apply IH].
    apply str_eqb_eq in E. subst k'. exfalso. apply Hk'.
    now apply (in_map fst) in H.
Qed.

(** Assigning to a key keeps the order of the keys; a new key goes
    last. *)
Lemma odict_set_keys (k : str) (v : cand) (m : odict) :
  map fst (odict_set k v m)
  = if mem k (map fst m) then map fst m else map fst m ++ [k].
Proof.
  induction m as [|[k' v'] m IH]; simpl; [reflexivity|].
  destruct (str_eqb k k') eqn:E; simpl; [reflexivity|].
  rewrite IH. now destruct (mem k (map fst m)).
Qed.

(** ** Fusion *)



Lemma winner_of_In (k : str) (l : list cand) (c : cand) :
  winner_of k l c -> In c l /\ vd_id_norm c = k.
Proof.
  intros (pre & post & -> & Hk & _). split; [|assumption].
  apply in_or_app. right. now left.
Qed.

Lemma winner_of_max (k : str) (l : list cand) (c r : cand) :
  winner_of k l c -> In r l -> vd_id_norm r = k -> score r <= score c.
Proof.
  intros (pre & post & -> & Hk & Hpre & Hpost) Hr Hrk.
  apply in_app_or in Hr. destruct Hr as [Hr|[<-|Hr]].
  - specialize (Hpre r Hr Hrk). lia.
  - lia.
  - now apply Hpost.
Qed.

Lemma winner_of_snoc_other (k : str) (l : list cand) (c r : cand) :
  vd_id_norm r <> k -> winner_of k l c -> winner_of k (l ++ [r]) c.
Proof.
  intros Hr (pre & post & -> & Hk & Hpre & Hpost).
  exists pre, (post ++ [r]). repeat split; try assumption.
  - now rewrite <- app_assoc.
  - intros x Hx Hxk. apply in_app_or in Hx. destruct Hx as [Hx|[<-|[]]].
    + now apply Hpost.
    + contradiction.
Qed.

Lemma winner_of_snoc_keep (k : str) (l : list cand) (c r : cand) :
  score r <= score c -> winner_of k l c -> winner_of k (l ++ [r]) c.
Proof.
  intros Hr (pre & post & -> & Hk & Hpre & Hpost).
  exists pre, (post ++ [r]). repeat split; try assumption.
  - now rewrite <- app_assoc.
  - intros x Hx Hxk. apply in_app_or in Hx. destruct Hx as [Hx|[<-|[]]].
    + now apply Hpost.
    + assumption.
Qed.

Lemma winner_of_snoc_new (l : list cand) (r : cand) :
  (forall x, In x l -> vd_id_norm x = vd_id_norm r -> score x < score r) ->
  winner_of (vd_id_norm r) (l ++ [r]) r.
Proof.
  intros H. exists l, []. repeat split; try assumption.
  intros x [].
Qed.

Lemma fuse_map_snoc (x : bool) (l : list cand) (r : cand) :
  fuse_map x (l ++ [r]) = fuse_step x (fuse_map x l) r.
Proof. unfold fuse_map. now rewrite fold_left_app. Qed.

(** What the dictionary holds for each key after the loop over [l]. *)
Lemma fuse_map_get (x : bool) (l : list cand) (k : str) :
  match odict_get k (fuse_map x l) with
  | Some c => excluded x k = false /\ winner_of k l c
  | None =>
      forall r, In r l -> vd_id_norm r = k -> excluded x k = true
  end.
Proof.
  induction l as [|r l IH] using rev_ind.
  - simpl. intros r [].
  - rewrite fuse_map_snoc. unfold fuse_step.
    fold (excluded x (vd_id_norm r)).
    destruct (excluded x (vd_id_norm r)) eqn:Ex.
    + destruct (odict_get k (fuse_map x l)) as [c|].
      * destruct IH as [Hk Hw]. split; [assumption|].
        apply winner_of_snoc_other; [congruence | assumption].
      * intros y Hy Hyk. apply in_app_or in Hy.
        destruct Hy as [Hy|[<-|[]]]; [now apply (IH y) | congruence].
    + destruct (str_eq_dec (vd_id_norm r) k) as [E|E].
      * subst k.
        destruct (odict_get (vd_id_norm r) (fuse_map x l)) as [old|] eqn:G.
        -- destruct IH as [_ Hw].
           destruct (score r >? score old) eqn:Gt.
           ++ rewrite odict_get_set_same. split; [assumption|].
              apply winner_of_snoc_new. intros y Hy Hyk.
              pose proof (@winner_of_max _ _ _ _ Hw Hy Hyk). lia.
           ++ rewrite G. split; [assumption|].
              apply winner_of_snoc_keep; [lia | assumption].
        -- rewrite odict_get_set_same. split; [assumption|].
           apply winner_of_snoc_new. intros y Hy Hyk.
           specialize (IH y Hy Hyk). congruence.
      * assert (odict_get k
                  (match odict_get (vd_id_norm r) (fuse_map x l) with
                   | Some old =>
                       if score r >? score old
                       then odict_set (vd_id_norm r) r (fuse_map x l)
                       else fuse_map x l
                   | None => odict_set (vd_id_norm r) r (fuse_map x l)
                   end) = odict_get k (fuse_map x l)) as ->.
        { destruct (odict_get (vd_id_norm r) (fuse_map x l)) as [old|];
            [destruct (score r >? score old)|];
            try reflexivity; now apply odict_get_set_other. }
        destruct (odict_get k (fuse_map x l)) as [c|].
        -- destruct IH as [Hk Hw]. split; [assumption|].
           now apply winner_of_snoc_other.
        -- intros y Hy Hyk. apply in_app_or in Hy.
           destruct Hy as [Hy|[<-|[]]]; [now apply (IH y) | congruence].
Qed.


Lemma dedup_not_seen (seen l : list str) (k : str) :
  In k (dedup seen l) -> ~ In k seen /\ In k l.
Proof.
  revert seen. induction l as [|y l IH]; simpl; intros seen; [tauto|].
  destruct (mem y seen) eqn:E.
  - intros H. apply IH in H. tauto.
  - intros [<-|H].
    + split; [|now left]. intros H. apply mem_In in H. congruence.
    + apply IH in H. destruct H as [H1 H2]. split; [|now right].
      intros H. apply H1. apply in_or_app. now left.
Qed.

Lemma dedup_NoDup (seen l : list str) : NoDup (dedup seen l).
Proof.
  revert seen. induction l as [|y l IH]; simpl; intros seen; [constructor|].
  destruct (mem y seen); [apply IH|].
  constructor; [|apply IH].
  intros H. apply dedup_not_seen in H. destruct H as [H _].
  apply H, in_or_app. right. now left.
Qed.


Lemma fuse_step_keys (x : bool) (m : odict) (r : cand) :
  map fst (fuse_step x m r)
  = if kept x r && negb (mem (vd_id_norm r) (map fst m))
    then map fst m ++ [vd_id_norm r] else map fst m.
Proof.
  unfold fuse_step, kept. fold (excluded x (vd_id_norm r)).
  destruct (excluded x (vd_id_norm r)); simpl; [reflexivity|].
  destruct (odict_get (vd_id_norm r) m) as [old|] eqn:G.
  - assert (mem (vd_id_norm r) (map fst m) = true) as E.
    { apply mem_In. apply odict_get_In in G.
      now apply (in_map fst) in G. }
    rewrite E. simpl.
    destruct (score r >? score old); [|reflexivity].
    now rewrite odict_set_keys, E.
  - rewrite odict_set_keys.
    apply odict_get_None in G.
    destruct (mem (vd_id_norm r) (map fst m)) eqn:E; [|reflexivity].
    apply mem_In in E. contradiction.
Qed.

Lemma fuse_keys_from (x : bool) (l : list cand) (m : odict) :
  map fst (fold_left (fuse_step x) l m)
  = map fst m
    ++ dedup (map fst m) (map vd_id_norm (filter (kept x) l)).
Proof.
  revert m. induction l as [|r l IH]; intros m; simpl.
  - now rewrite app_nil_r.
  - rewrite IH, fuse_step_keys.
    destruct (kept x r); simpl; [|reflexivity].
    destruct (mem (vd_id_norm r) (map fst m)); simpl; [reflexivity|].
    now rewrite <- app_assoc.
Qed.

(** The keys of the dictionary are the kept identifiers of [l], each
    once, in the order in which they are first seen. *)
Lemma fuse_map_keys (x : bool) (l : list cand) :
  map fst (fuse_map x l) = dedup [] (map vd_id_norm (filter (kept x) l)).
Proof. unfold fuse_map. now rewrite fuse_keys_from. Qed.

Lemma fuse_map_NoDup (x : bool) (l : list cand) :
  NoDup (map fst (fuse_map x l)).
Proof. rewrite fuse_map_keys. apply dedup_NoDup. Qed.

Lemma fuse_map_entry (x : bool) (l : list cand) (k : str) (c : cand) :
  In (k, c) (fuse_map x l) <-> odict_get k (fuse_map x l) = Some c.
Proof.
  split; [apply odict_In_get, fuse_map_NoDup | apply odict_get_In].
Qed.

Lemma fuse_map_keyed (x : bool) (l : list cand) :
  map vd_id_norm (odict_values (fuse_map x l)) = map fst (fuse_map x l).
Proof.
  unfold odict_values. rewrite map_map. apply map_ext_in.
  intros [k c] H. simpl. apply fuse_map_entry in H.
  pose proof (fuse_map_get x l k) as G. rewrite H in G.
  destruct G as [_ G]. now apply winner_of_In in G.
Qed.

Lemma fuse_In_winner (x : bool) (l : list cand) (c : cand) :
  In c (fuse x l) <->
  excluded x (vd_id_norm c) = false /\ winner_of (vd_id_norm c) l c.
Proof.
  unfold fuse. rewrite sort_desc_In. unfold odict_values.
  rewrite in_map_iff. split.
  - intros ([k c'] & E & H). simpl in E. subst c'.
    apply fuse_map_entry in H.
    pose proof (fuse_map_get x l k) as G. rewrite H in G.
    destruct G as [G1 G2].
    destruct (winner_of_In G2) as [_ <-]. now split.
  - intros [Hx Hw].
    pose proof (fuse_map_get x l (vd_id_norm c)) as G.
    destruct (odict_get (vd_id_norm c) (fuse_map x l)) as [c'|] eqn:E.
    + destruct G as [_ G].
      assert (c' = c) as ->.
      { destruct Hw as (p1 & q1 & E1 & _ & Hp1 & Hq1).
        destruct G as (p2 & q2 & E2 & Hk2 & Hp2 & Hq2).
        destruct (cand_eq_dec c' c) as [|Hne]; [assumption|].
        exfalso.
        assert (In c' l) as Hc'
            by (rewrite E2; apply in_or_app; right; now left).
        assert (In c l) as Hc
            by (rewrite E1; apply in_or_app; right; now left).
        rewrite E1 in Hc'. rewrite E2 in Hc.
        apply in_app_or in Hc', Hc.
        destruct Hc' as [Hc'|[Hc'|Hc']]; [|congruence|];
          destruct Hc as [Hc|[Hc|Hc]]; try congruence.
        * specialize (Hp1 _ Hc' Hk2). specialize (Hp2 _ Hc eq_refl). lia.
        * (* c' before c in the first split, c after c' in the second *)
          specialize (Hp1 _ Hc' Hk2). specialize (Hq2 _ Hc eq_refl). lia.
        * specialize (Hq1 _ Hc' Hk2). specialize (Hp2 _ Hc eq_refl). lia.
        * (* equal scores, each after the other: compare the splits *)
          specialize (Hq1 _ Hc' Hk2). specialize (Hq2 _ Hc eq_refl).
          assert (score c = score c') as Hs by lia.
          clear Hq1 Hq2.
          assert (length p1 < length p2 \/ length p2 < length p1
                  \/ length p1 = length p2)%nat as [L|[L|L]] by lia.
          -- assert (nth_error l (length p1) = Some c) as N1
                 by (rewrite E1, nth_error_app2, Nat.sub_diag by lia;
                     reflexivity).
             rewrite E2, nth_error_app1 in N1 by assumption.
             apply nth_error_In in N1.
             specialize (Hp2 _ N1 eq_refl). lia.
          -- assert (nth_error l (length p2) = Some c') as N2
                 by (rewrite E2, nth_error_app2, Nat.sub_diag by lia;
                     reflexivity).
             rewrite E1, nth_error_app1 in N2 by assumption.
             apply nth_error_In in N2.
             specialize (Hp1 _ N2 Hk2). lia.
          -- assert (nth_error l (length p1) = Some c) as N1
                 by (rewrite E1, nth_error_app2, Nat.sub_diag by lia;
                     reflexivity).
             rewrite E2, L, nth_error_app2, Nat.sub_diag in N1 by lia.
             simpl in N1. congruence. }
      exists (vd_id_norm c, c). split; [reflexivity|].
      now apply odict_get_In.
    + exfalso. destruct (winner_of_In Hw) as [Hc _].
      specialize (G c Hc eq_refl). congruence.
Qed.

(** ** The ResultSet invariant *)


Lemma fuse_perm_values (x : bool) (l : list cand) :
  Permutation (fuse x l) (odict_values (fuse_map x l)).
Proof. apply sort_desc_perm. Qed.

Lemma fuse_unique (x : bool) (l : list cand) : unique_ids (fuse x l).
Proof.
  unfold unique_ids.
  eapply Permutation_NoDup.
  - symmetry. apply Permutation_map, fuse_perm_values.
  - rewrite fuse_map_keyed. apply fuse_map_NoDup.
Qed.

Lemma fuse_ranked (x : bool) (l : list cand) : ranked (fuse x l).
Proof. apply sort_desc_sorted. Qed.

Lemma fuse_incl (x : bool) (l : list cand) (c : cand) :
  In c (fuse x l) -> In c l.
Proof.
  intros H. apply fuse_In_winner in H. destruct H as [_ H].
  now apply winner_of_In in H.
Qed.

Lemma fuse_Forall (P : cand -> Prop) (x : bool) (l : list cand) :
  Forall P l -> Forall P (fuse x l).
Proof.
  rewrite !Forall_forall. intros H c Hc. apply H. eapply fuse_incl, Hc.
Qed.

(** ** The arbiter step *)

Lemma update_winner_None (winner : str) (l : list cand) :
  update_winner winner l = None ->
  forall r, In r l -> vd_id r <> winner.
Proof.
  induction l as [|item l IH]; simpl; [intros _ r []|].
  destruct (str_eqb (vd_id item) winner) eqn:E; [discriminate|].
  destruct (update_winner winner l) as [[it m]|]; [discriminate|].
  intros _ r [<-|Hr]; [now apply str_eqb_neq | now apply IH].
Qed.

Lemma update_winner_Some (winner : str) (l : list cand) (it : cand)
  (m : list cand) :
  update_winner winner l = Some (it, m) ->
  exists pre item post,
    l = pre ++ item :: post /\ vd_id item = winner
    /\ (forall r, In r pre -> vd_id r <> winner)
    /\ it = promoted item /\ m = pre ++ promoted item :: post.
Proof.
  revert it m. induction l as [|item l IH]; simpl; intros it m;
    [discriminate|].
  destruct (str_eqb (vd_id item) winner) eqn:E.
  - intros [= <- <-]. apply str_eqb_eq in E.
    exists [], item, l. repeat split; try assumption. intros r [].
  - destruct (update_winner winner l) as [[it' m']|]; [|discriminate].
    intros [= <- <-].
    destruct (IH _ _ eq_refl) as (pre & it0 & post & -> & Hw & Hpre & -> & ->).
    exists (item :: pre), it0, post. repeat split; try assumption.
    intros r [<-|Hr]; [now apply str_eqb_neq | now apply Hpre].
Qed.

Lemma update_winner_In (winner : str) (l : list cand) :
  In winner (map vd_id l) -> update_winner winner l <> None.
Proof.
  intros H E. apply in_map_iff in H. destruct H as (r & Hr & Hin).
  now apply (@update_winner_None _ _ E r Hin).
Qed.

(** Removing the updated item removes it at its own place: the items
    before it have another identifier. *)
Lemma list_remove_at (pre post : list cand) (x : cand) :
  (forall r, In r pre -> vd_id r <> vd_id x) ->
  list_remove x (pre ++ x :: post) = pre ++ post.
Proof.
  induction pre as [|y pre IH]; simpl; intros H.
  - destruct (cand_eq_dec x x); [reflexivity | contradiction].
  - destruct (cand_eq_dec x y) as [->|_].
    + exfalso. now apply (H y (or_introl eq_refl)).
    + f_equal. apply IH. intros r Hr. apply H. now right.
Qed.

(** The two outcomes of the promotion loop. *)
Lemma promote_cases (winner : str) (l : list cand) :
  (promote winner l = l /\ forall r, In r l -> vd_id r <> winner)
  \/ exists pre item post,
       l = pre ++ item :: post /\ vd_id item = winner
       /\ (forall r, In r pre -> vd_id r <> winner)
       /\ promote winner l = promoted item :: pre ++ post.
Proof.
  unfold promote.
  destruct (update_winner winner l) as [[it m]|] eqn:E.
  - right. apply update_winner_Some in E.
    destruct E as (pre & item & post & -> & Hw & Hpre & -> & ->).
    exists pre, item, post. repeat split; try assumption.
    f_equal. apply list_remove_at. simpl. now rewrite Hw.
  - left. split; [reflexivity|]. now apply update_winner_None.
Qed.

(** What the adapter returns. *)
Lemma execute_llm_judgment_Some (conn : Store) (model : Arbiter)
  (query : str) (top : list cand) (w : str) :
  execute_llm_judgment conn model query top = Some w <->
  model query (rows_of_ids conn (map vd_id top)) = LLMResult (Some w)
  /\ w <> NONE /\ In w (map vd_id top).
Proof.
  unfold execute_llm_judgment.
  assert (forall w', existsb (fun c => str_eqb (vd_id c) w') top = true
                     <-> In w' (map vd_id top)) as Hex.
  { intros w'. rewrite existsb_exists, in_map_iff.
    split; intros (c & H1 & H2); exists c.
    - split; [now apply str_eqb_eq | assumption].
    - split; [assumption | now apply str_eqb_eq]. }
  destruct top as [|c0 top'] eqn:Et.
  - split; [discriminate | intros (_ & _ & [])].
  - rewrite <- Et in *. clear Et.
    destruct (model query (rows_of_ids conn (map vd_id top))) as [|[w'|]].
    + split; [discriminate | intros ([=] & _)].
    + destruct (str_eqb w' NONE) eqn:En; simpl.
      * apply str_eqb_eq in En. subst w'.
        split; [discriminate | intros ([= <-] & H & _); contradiction].
      * apply str_eqb_neq in En.
        destruct (existsb (fun c => str_eqb (vd_id c) w') top) eqn:Ee.
        -- apply Hex in Ee. split.
           ++ intros [= <-]. now repeat split.
           ++ now intros ([= <-] & _).
        -- split; [discriminate|]. intros ([= <-] & _ & H).
           apply Hex in H. congruence.
    + rewrite str_eqb_refl. simpl.
      split; [discriminate | intros ([=] & _)].
Qed.

Lemma firstn_incl_In {A} (n : nat) (l : list A) (a : A) :
  In a (firstn n l) -> In a l.
Proof.
  intros H. rewrite <- (firstn_skipn n l). apply in_or_app. now left.
Qed.

(** The arbiter step either returns the fused list as it is, or moves one
    item, promoted, to the front. *)
Lemma arbiter_step_cases (conn : Store) (model : Arbiter) (query : str)
  (final_list : list cand) :
  arbiter_step conn model query final_list = (final_list, u "-")
  \/ exists w pre item post,
       execute_llm_judgment conn model query (firstn 25 final_list) = Some w
       /\ final_list = pre ++ item :: post /\ vd_id item = w
       /\ (forall r, In r pre -> vd_id r <> w)
       /\ arbiter_step conn model query final_list
          = (promoted item :: pre ++ post, w).
Proof.
  unfold arbiter_step.
  destruct final_list as [|c0 l0] eqn:El; [now left|].
  rewrite <- El. clear El.
  destruct (execute_llm_judgment conn model query (firstn 25 final_list))
    as [w|] eqn:E; [|now left].
  destruct (nonempty w) eqn:Hn; [|now left].
  right.
  destruct (promote_cases w final_list)
    as [[_ H]|(pre & item & post & E1 & E2 & E3 & E4)].
  - exfalso. apply execute_llm_judgment_Some in E.
    destruct E as (_ & _ & E). apply in_map_iff in E.
    destruct E as (r & Hr & Hin). apply firstn_incl_In in Hin.
    now apply (H r Hin).
  - exists w, pre, item, post. rewrite E4. now repeat split.
Qed.

(** ** What the strategies produce *)

Lemma bind_Ok {A B} (r : result A) (k : A -> result B) (b : B) :
  bind r k = Ok b -> exists a, r = Ok a /\ k a = Ok b.
Proof. destruct r as [a|e]; simpl; [eauto | discriminate]. Qed.

Ltac bind_inv H :=
  let a := fresh "a" in
  let Ha := fresh "Ha" in
  apply bind_Ok in H; destruct H as (a & Ha & H).

Lemma truthy_or_empty (v : option str) : truthy v = true -> or_empty v <> [].
Proof. destruct v as [[|c s]|]; simpl; congruence. Qed.

Section StrategyOutput.
Variable U : UCD.
Variable F : Fuzz.
Variable conn : Store.


Lemma accept_inv (t : Z) (id src : str) (sc : Z) (c : cand) :
  MIN_ACCEPT_SCORE <= t -> id <> [] ->
  accept U t id src sc = Some c -> strategy_cand U c.
Proof.
  unfold accept, strategy_cand. intros Ht Hid.
  destruct (sc >=? t) eqn:E; [|discriminate].
  intros [= <-]. simpl. apply Z.geb_le in E.
  unfold MIN_ACCEPT_SCORE in *. repeat split; try assumption; lia.
Qed.

Lemma for_rows_Forall (P : cand -> Prop) (body : row -> result (option cand))
  (rows : list row) (out : list cand) :
  (forall r c, body r = Ok (Some c) -> P c) ->
  for_rows body rows = Ok out -> Forall P out.
Proof.
  intros Hb. revert out. induction rows as [|r rows IH]; simpl; intros out H.
  - injection H as <-. constructor.
  - bind_inv H. bind_inv H. injection H as <-.
    destruct a as [c|]; simpl; [constructor|]; eauto.
Qed.

Lemma collect_Forall (P : cand -> Prop) (body : row -> option cand)
  (rows : list row) :
  (forall r c, body r = Some c -> P c) -> Forall P (collect body rows).
Proof.
  intros Hb. induction rows as [|r rows IH]; simpl; [constructor|].
  destruct (body r) as [c|] eqn:E; simpl; [constructor|]; eauto.
Qed.

Lemma Forall_sort_desc (P : cand -> Prop) (l : list cand) :
  Forall P l -> Forall P (sort_desc score l).
Proof.
  apply Permutation_Forall. symmetry. apply sort_desc_perm.
Qed.

Lemma Forall_filter_keep {A} (P : A -> Prop) (f : A -> bool) (l : list A) :
  Forall P l -> Forall P (filter f l).
Proof.
  rewrite !Forall_forall. intros H x Hx. apply filter_In in Hx.
  now apply H.
Qed.

Lemma process_Forall (query_year : option str)
  (norm_query_fuzz query_place : str) (rows : list row) (strict_mode : bool)
  (out : list cand) :
  process U F query_year norm_query_fuzz query_place rows strict_mode = Ok out
  -> Forall (strategy_cand U) out.
Proof.
  apply for_rows_Forall. intros r c. unfold process_row.
  destruct (truthy (db_vd_id r)) eqn:T; simpl; [|discriminate].
  intros H. bind_inv H. injection H as H.
  destruct a as [sc|]; [|discriminate].
  eapply accept_inv; [| |exact H]; [reflexivity | now apply truthy_or_empty].
Qed.

Lemma execute_run_1_Forall (q_fts strict_q broad_q : str)
  (query_year : option str) (norm_query_fuzz query_place query_author : str)
  (r1 : list cand) :
  execute_run_1 U F conn q_fts strict_q broad_q query_year norm_query_fuzz
    query_place query_author = Ok r1 ->
  Forall (strategy_cand U) r1.
Proof.
  unfold execute_run_1. intros H.
  apply bind_Ok in H as (strict & Hs & H).
  apply bind_Ok in H as (merged & Hm & H). injection H as <-.
  assert (Forall (strategy_cand U) strict) as H1.
  { destruct (nonempty strict_q); [|injection Hs as <-; constructor].
    apply bind_Ok in Hs as (rows & _ & Hs). now apply process_Forall in Hs. }
  apply Forall_sort_desc.
  destruct (best_below (sort_desc score strict) 95 && nonempty broad_q).
  - apply bind_Ok in Hm as (rows & _ & Hm).
    apply bind_Ok in Hm as (broad & Hb & Hm). injection Hm as <-.
    apply Forall_app. split; [now apply Forall_sort_desc|].
    apply Forall_filter_keep. now apply process_Forall in Hb.
  - injection Hm as <-. now apply Forall_sort_desc.
Qed.

Lemma execute_run_2_Forall (broad_q : str) (query_year : option str)
  (norm_query_fuzz query_author : str) (r2 : list cand) :
  execute_run_2 U F conn broad_q query_year norm_query_fuzz query_author
  = Ok r2 ->
  Forall (strategy_cand U) r2.
Proof.
  unfold execute_run_2.
  destruct (negb (nonempty broad_q) || negb (truthy query_year)
            || negb (nonempty query_author));
    [intros [= <-]; constructor|].
  intros H. bind_inv H.
  destruct (len (normalize_for_fuzz U query_author) <? 4);
    [injection H as <-; constructor|].
  revert H. apply for_rows_Forall. intros r c. unfold run_2_row.
  destruct (truthy (db_vd_id r)) eqn:T; simpl; [|discriminate].
  destruct (truthy (db_author r)); [discriminate|].
  destruct (partial_ratio F _ _ >? 90); [|discriminate].
  intros H. bind_inv H. injection H as H.
  eapply accept_inv; [| |exact H]; [reflexivity | now apply truthy_or_empty].
Qed.

Lemma execute_run_3_Forall (broad_q norm_query_fuzz raw_query : str) :
  Forall (strategy_cand U)
    (execute_run_3 U F conn broad_q norm_query_fuzz raw_query).
Proof.
  unfold execute_run_3. destruct (negb (nonempty broad_q)); [constructor|].
  apply Forall_sort_desc, collect_Forall. intros r c. unfold run_3_row.
  destruct (truthy (db_vd_id r)) eqn:T; simpl; [|discriminate].
  apply accept_inv; [reflexivity | now apply truthy_or_empty].
Qed.

Lemma execute_run_4_Forall (norm_query_fts norm_query_fuzz : str) :
  Forall (strategy_cand U) (execute_run_4 U F conn norm_query_fts norm_query_fuzz).
Proof.
  unfold execute_run_4.
  destruct (filter rare_token (split norm_query_fts)); [constructor|].
  apply Forall_sort_desc, collect_Forall. intros r c. unfold run_4_row.
  destruct (truthy (db_vd_id r)) eqn:T; simpl; [|discriminate].
  apply accept_inv; [unfold MIN_ACCEPT_SCORE; lia | now apply truthy_or_empty].
Qed.

Lemma all_results_Forall (set_iter : list str -> list str)
  (query query_place query_author : str) (all_results : list cand) :
  all_results_of U F conn set_iter query query_place query_author
  = Ok all_results ->
  Forall (strategy_cand U) all_results.
Proof.
  unfold all_results_of.
  destruct (build_fts_queries U set_iter (normalize_for_fts U query))
    as [strict_q broad_q].
  intros H. bind_inv H. bind_inv H. injection H as <-.
  apply execute_run_1_Forall in Ha. apply execute_run_2_Forall in Ha0.
  repeat (apply Forall_app; split); try assumption.
  - apply execute_run_3_Forall.
  - apply execute_run_4_Forall.
Qed.

End StrategyOutput.


(** ** The pipeline *)

Lemma StronglySorted_remove {A} (R : A -> A -> Prop) (pre post : list A)
  (x : A) :
  StronglySorted R (pre ++ x :: post) -> StronglySorted R (pre ++ post).
Proof.
  induction pre as [|y pre IH]; simpl; intros H; inversion H; subst.
  - assumption.
  - constructor; [now apply IH|].
    rewrite Forall_app in *. destruct H3 as [H3 H4].
    split; [assumption | now inversion H4].
Qed.

Lemma promoted_ResultSet (pre post : list cand) (item : cand) :
  ResultSet (pre ++ item :: post) ->
  ResultSet (promoted item :: pre ++ post).
Proof.
  intros (Hs & Hu & Hr). unfold scores_in_range in *.
  assert (Forall (fun c => 0 <= score c <= 100) (pre ++ post)) as Hs'.
  { rewrite Forall_app in *. destruct Hs as [H1 H2].
    split; [assumption | now inversion H2]. }
  repeat split.
  - constructor; [simpl; lia | assumption].
  - unfold unique_ids in *. simpl.
    eapply Permutation_NoDup; [|exact Hu].
    rewrite !map_app. simpl. symmetry. apply Permutation_middle.
  - constructor; [now apply StronglySorted_remove in Hr|].
    eapply Forall_impl; [|exact Hs']. unfold desc. simpl. intros; lia.
Qed.

Lemma arbiter_step_ResultSet (conn : Store) (model : Arbiter) (query : str)
  (l : list cand) :
  ResultSet l -> ResultSet (fst (arbiter_step conn model query l)).
Proof.
  intros H.
  destruct (arbiter_step_cases conn model query l)
    as [E|(w & pre & item & post & _ & -> & _ & _ & E)]; rewrite E; simpl.
  - assumption.
  - now apply promoted_ResultSet.
Qed.

Lemma fused_ranking_inv (U : UCD) (F : Fuzz) (conn : Store)
  (set_iter : list str -> list str) (query query_place query_author : str)
  (fused : list cand) :
  fused_ranking U F conn set_iter query query_place query_author = Ok fused ->
  exists all_results x,
    all_results_of U F conn set_iter query query_place query_author
    = Ok all_results
    /\ exclude_vd17_of U (extract_query_year U query) = Ok x
    /\ fused = fuse x all_results
    /\ Forall (strategy_cand U) all_results.
Proof.
  unfold fused_ranking. intros H.
  apply bind_Ok in H as (all_results & Ha & H).
  apply bind_Ok in H as (x & Hx & H). injection H as <-.
  exists all_results, x. repeat split; try assumption.
  eapply all_results_Forall, Ha.
Qed.

Lemma fused_ranking_ResultSet (U : UCD) (F : Fuzz) (conn : Store)
  (set_iter : list str -> list str) (query query_place query_author : str)
  (fused : list cand) :
  fused_ranking U F conn set_iter query query_place query_author = Ok fused ->
  ResultSet fused.
Proof.
  intros H. apply fused_ranking_inv in H.
  destruct H as (all_results & x & _ & _ & -> & Hc).
  repeat split.
  - apply fuse_Forall. eapply Forall_impl; [|exact Hc].
    intros c (Hc1 & _). unfold MIN_ACCEPT_SCORE in Hc1. lia.
  - apply fuse_unique.
  - apply fuse_ranked.
Qed.

Lemma get_search_results_inv (U : UCD) (F : Fuzz) (conn : Store)
  (model : Arbiter) (set_iter : list str -> list str)
  (query query_place query_author : str) (final : list cand) (w : str) :
  get_search_results U F conn model set_iter query query_place query_author
  = Ok (final, w) ->
  exists fused,
    fused_ranking U F conn set_iter query query_place query_author = Ok fused
    /\ arbiter_step conn model query fused = (final, w).
Proof.
  unfold get_search_results. intros H.
  apply bind_Ok in H as (fused & Hf & H). injection H as H.
  now exists fused.
Qed.

(** C1.  Whenever [get_search_results] returns, the list it returns
    satisfies the ResultSet invariant: every score lies in [0,100], no two
    candidates share a normalized identifier, and the scores are in
    non-increasing order; the same holds of the fused ranking before the
    arbiter step. *)
Theorem result_set_invariant (U : UCD) (F : Fuzz) (conn : Store)
  (model : Arbiter) (set_iter : list str -> list str)
  (query query_place query_author : str) (final : list cand) (w : str) :
  get_search_results U F conn model set_iter query query_place query_author
  = Ok (final, w) ->
  ResultSet final
  /\ exists fused,
       fused_ranking U F conn set_iter query query_place query_author
       = Ok fused
       /\ ResultSet fused.
Proof.
  intros H. apply get_search_results_inv in H.
  destruct H as (fused & Hf & Ha).
  pose proof (fused_ranking_ResultSet _ _ _ _ _ _ _ Hf) as Hr.
  split; [|now exists fused].
  change final with (fst (final, w)). rewrite <- Ha.
  now apply arbiter_step_ResultSet.
Qed.

Lemma result_set_invariant_witness :
  ResultSet [sample_vd18 "RUN_3+LLM"; sample_vd17]
  /\ exists fused,
       fused_ranking basic_latin sample_fuzz sample_store insertion_order
         sample_query (u "Jena") (u "Frolich") = Ok fused
       /\ ResultSet fused.
Proof.
  apply (@result_set_invariant basic_latin sample_fuzz sample_store
           (replying (LLMResult (Some (u "VD18 10123456")))) insertion_order
           sample_query (u "Jena") (u "Frolich") _ (u "VD18 10123456")).
  vm_compute. reflexivity.
Defined.

(** C10.  The arbiter step never adds or removes a candidate: the final
    list is the fused list itself, or the fused list with one item moved
    to the front, its score set to 100 and its origin tag extended; the
    other items keep their fields and their relative order. *)
Theorem arbiter_frame (conn : Store) (model : Arbiter) (query : str)
  (fused : list cand) :
  let final := fst (arbiter_step conn model query fused) in
  Permutation (map vd_id final) (map vd_id fused)
  /\ (final = fused
      \/ exists pre item post,
           fused = pre ++ item :: post
           /\ final
              = {| vd_id := vd_id item; vd_id_norm := vd_id_norm item;
                   score := 100; source := source item ++ u "+LLM" |}
                :: pre ++ post).
Proof.
  simpl.
  destruct (arbiter_step_cases conn model query fused)
    as [E|(w & pre & item & post & _ & E0 & _ & _ & E)]; rewrite E; simpl.
  - split; [reflexivity | now left].
  - split.
    + rewrite E0, !map_app. simpl. apply Permutation_middle.
    + right. now exists pre, item, post.
Qed.

Lemma normalize_db_vd_id_inj_ids (U : UCD) (l : list cand) (a b : cand) :
  Forall (strategy_cand U) l -> In a l -> In b l ->
  vd_id a = vd_id b -> vd_id_norm a = vd_id_norm b.
Proof.
  rewrite Forall_forall. intros H Ha Hb E.
  destruct (H a Ha) as (_ & _ & ->). destruct (H b Hb) as (_ & _ & ->).
  now rewrite E.
Qed.

(** In a fused ranking a raw identifier occurs once. *)
Lemma fused_ids_once (U : UCD) (x : bool) (all_results : list cand)
  (pre post : list cand) (item r : cand) :
  Forall (strategy_cand U) all_results ->
  fuse x all_results = pre ++ item :: post ->
  In r (pre ++ post) -> vd_id r <> vd_id item.
Proof.
  intros Hc E Hr Hid.
  pose proof (fuse_unique x all_results) as Hu.
  pose proof (fuse_Forall x Hc) as Hf.
  rewrite E in Hu, Hf. unfold unique_ids in Hu.
  assert (vd_id_norm r = vd_id_norm item) as Hn.
  { eapply normalize_db_vd_id_inj_ids; [exact Hf| | |exact Hid].
    - apply in_app_or in Hr. apply in_or_app.
      destruct Hr; [now left | right; now right].
    - apply in_or_app. right. now left. }
  rewrite map_app in Hu. simpl in Hu.
  apply NoDup_remove_2 in Hu. apply Hu.
  rewrite <- Hn, <- map_app. now apply in_map.
Qed.

Lemma arbiter_step_Some (conn : Store) (model : Arbiter) (query : str)
  (fused : list cand) (w : str) :
  execute_llm_judgment conn model query (firstn 25 fused) = Some w ->
  arbiter_step conn model query fused
  = if nonempty w then (promote w fused, w) else (fused, u "-").
Proof.
  unfold arbiter_step. destruct fused as [|c0 l0]; [discriminate|].
  now intros ->.
Qed.

Lemma arbiter_step_None (conn : Store) (model : Arbiter) (query : str)
  (fused : list cand) :
  execute_llm_judgment conn model query (firstn 25 fused) = None ->
  arbiter_step conn model query fused = (fused, u "-").
Proof.
  unfold arbiter_step. destruct fused as [|c0 l0]; [reflexivity|].
  now intros ->.
Qed.

(** C2.  When the arbiter returns an identifier (not the sentinel) that is
    present among the top 25 fused candidates, the one candidate with that
    identifier gets score 100, its origin tag is suffixed with the arbiter
    tag, and it is the first element of the final list, the others
    following in their fused order.  When the arbiter raises, returns the
    sentinel (or no identifier at all), or returns an identifier absent
    from the top 25, the fused ranking is returned unchanged. *)
Theorem arbiter_promotion (U : UCD) (F : Fuzz) (conn : Store)
  (model : Arbiter) (set_iter : list str -> list str)
  (query query_place query_author : str) (fused : list cand) :
  fused_ranking U F conn set_iter query query_place query_author = Ok fused ->
  let top_ids := map vd_id (firstn 25 fused) in
  let reply := model query (rows_of_ids conn top_ids) in
  (forall w,
      reply = LLMResult (Some w) -> w <> NONE -> In w top_ids ->
      exists pre item post,
        fused = pre ++ item :: post /\ vd_id item = w
        /\ (forall r, In r (pre ++ post) -> vd_id r <> w)
        /\ get_search_results U F conn model set_iter query query_place
             query_author
           = Ok ({| vd_id := vd_id item; vd_id_norm := vd_id_norm item;
                    score := 100; source := source item ++ u "+LLM" |}
                 :: pre ++ post, w))
  /\ (reply = LLMError \/ reply = LLMResult None
      \/ reply = LLMResult (Some NONE)
      \/ (exists w, reply = LLMResult (Some w) /\ ~ In w top_ids) ->
      get_search_results U F conn model set_iter query query_place
        query_author
      = Ok (fused, u "-")).
Proof.
  intros Hf top_ids reply.
  unfold get_search_results. rewrite Hf. simpl.
  destruct (fused_ranking_inv _ _ _ _ _ _ _ Hf)
    as (all_results & x & _ & _ & Efused & Hc).
  split.
  - intros w Hr Hw Hin.
    assert (execute_llm_judgment conn model query (firstn 25 fused) = Some w)
      as Ej by (apply execute_llm_judgment_Some; now repeat split).
    assert (nonempty w = true) as Hne.
    { apply in_map_iff in Hin. destruct Hin as (c & <- & Hc').
      apply firstn_incl_In in Hc'.
      assert (In c all_results) as Hca
          by (eapply fuse_incl; rewrite <- Efused; exact Hc').
      rewrite Forall_forall in Hc. destruct (Hc c Hca) as (_ & Hid & _).
      now destruct (vd_id c). }
    rewrite (arbiter_step_Some _ _ _ _ Ej), Hne.
    destruct (promote_cases w fused)
      as [[_ H]|(pre & item & post & E0 & E1 & E2 & E3)].
    + exfalso. apply in_map_iff in Hin. destruct Hin as (c & Hcw & Hc').
      apply firstn_incl_In in Hc'. now apply (H c Hc').
    + exists pre, item, post. repeat split; try assumption.
      * intros r Hr'. rewrite <- E1.
        eapply fused_ids_once; [exact Hc | rewrite <- Efused; exact E0
                               | exact Hr'].
      * rewrite E3. reflexivity.
  - intros Hr.
    assert (execute_llm_judgment conn model query (firstn 25 fused) = None)
      as Ej.
    { destruct (execute_llm_judgment conn model query (firstn 25 fused))
        as [w|] eqn:Ej; [|reflexivity].
      apply execute_llm_judgment_Some in Ej. fold top_ids reply in Ej.
      destruct Ej as (E1 & E2 & E3).
      destruct Hr as [Hr|[Hr|[Hr|(w' & Hr & Hn)]]];
        rewrite Hr in E1; try discriminate; injection E1 as E1;
        subst; contradiction. }
    now rewrite (arbiter_step_None _ _ _ _ Ej).
Qed.

Lemma arbiter_promotion_witness :
  fused_ranking basic_latin sample_fuzz sample_store insertion_order
    sample_query (u "Jena") (u "Frolich")
  = Ok [sample_vd17; sample_vd18 "RUN_3"]
  /\ get_search_results basic_latin sample_fuzz sample_store
       (replying (LLMResult (Some (u "NOWHERE")))) insertion_order
       sample_query (u "Jena") (u "Frolich")
     = Ok ([sample_vd17; sample_vd18 "RUN_3"], u "-").
Proof.
  assert (fused_ranking basic_latin sample_fuzz sample_store insertion_order
            sample_query (u "Jena") (u "Frolich")
          = Ok [sample_vd17; sample_vd18 "RUN_3"]) as H
      by (vm_compute; reflexivity).
  split; [exact H|].
  apply (proj2 (@arbiter_promotion basic_latin sample_fuzz sample_store
                  (replying (LLMResult (Some (u "NOWHERE"))))
                  insertion_order sample_query (u "Jena") (u "Frolich")
                  _ H)).
  right. right. right. exists (u "NOWHERE").
  split; [reflexivity|]. vm_compute. intuition discriminate.
Defined.

(** The promotion on the sample catalogue. *)
Example promotion_example :
  get_search_results basic_latin sample_fuzz sample_store
    (replying (LLMResult (Some (u "VD18 10123456")))) insertion_order
    sample_query (u "Jena") (u "Frolich")
  = Ok ([sample_vd18 "RUN_3+LLM"; sample_vd17], u "VD18 10123456").
Proof. vm_compute. reflexivity. Qed.

(** ** The era filter *)

Lemma alnum_lower_inv (a : char) :
  is_alnum_ascii (ascii_lower a) = true -> is_alnum_ascii a = true.
Proof.
  unfold is_alnum_ascii at 2. unfold ascii_lower.
  destruct (is_AZ a) eqn:E; [intros _; now rewrite orb_true_r|].
  intros H. unfold is_alnum_ascii in H. now rewrite E in H.
Qed.

Lemma startswith_lower_filter (p id : str) :
  forallb is_alnum_ascii p = true ->
  startswith p (map ascii_lower id) = true ->
  startswith p (map ascii_lower (filter is_alnum_ascii id)) = true.
Proof.
  revert id. induction p as [|x p IH]; intros id Hp; [reflexivity|].
  simpl in Hp. apply andb_prop in Hp. destruct Hp as [Hx Hp].
  destruct id as [|a id]; simpl; [discriminate|].
  intros H. apply andb_prop in H. destruct H as [H1 H2].
  apply N.eqb_eq in H1. subst x. apply alnum_lower_inv in Hx.
  rewrite Hx. simpl. rewrite N.eqb_refl. simpl. now apply IH.
Qed.

Lemma forallb_filter_same {A} (f : A -> bool) (l : list A) :
  forallb f (filter f l) = true.
Proof.
  apply forallb_forall. intros x Hx. now apply filter_In in Hx.
Qed.

(** A raw identifier that starts with the era prefix, in either case,
    has a normalized identifier that starts with it. *)
Lemma vd17_raw_norm (U : UCD) (c : cand) :
  ascii_lower_law U ->
  vd_id c <> [] -> vd_id_norm c = normalize_db_vd_id U (vd_id c) ->
  vd17_raw c = true -> vd17_norm c = true.
Proof.
  intros HU Hid Hn. unfold vd17_raw, vd17_norm. rewrite Hn.
  unfold normalize_db_vd_id. destruct (vd_id c) as [|a id] eqn:E;
    [contradiction|].
  rewrite HU by apply forallb_filter_same.
  now apply startswith_lower_filter.
Qed.

Lemma fuse_not_excluded (l : list cand) :
  Forall (fun c => vd17_norm c = false) (fuse true l).
Proof.
  apply Forall_forall. intros c Hc. apply fuse_In_winner in Hc.
  destruct Hc as [Hc _]. exact Hc.
Qed.

Lemma exclude_vd17_of_true (U : UCD) (y : str) (n : Z) :
  str_isdigit U y = true -> py_int U y = Ok n -> 1700 < n ->
  exclude_vd17_of U (Some y) = Ok true.
Proof.
  intros Hd Hi Hn. unfold exclude_vd17_of. simpl or_empty.
  rewrite Hd. destruct y as [|c y]; [discriminate|]. simpl truthy. simpl.
  rewrite Hi. simpl. f_equal. now apply Z.gtb_lt.
Qed.

(** The items of the final list are those of the fused list, up to the
    score and the tag of the promoted one. *)
Lemma arbiter_step_ids (conn : Store) (model : Arbiter) (query : str)
  (fused : list cand) (c : cand) :
  In c (fst (arbiter_step conn model query fused)) ->
  exists c', In c' fused /\ vd_id c = vd_id c'
             /\ vd_id_norm c = vd_id_norm c'.
Proof.
  destruct (arbiter_step_cases conn model query fused)
    as [E|(w & pre & item & post & _ & E0 & _ & _ & E)]; rewrite E; simpl.
  - intros H. now exists c.
  - intros [<-|H].
    + exists item. repeat split. rewrite E0. apply in_or_app.
      right. now left.
    + exists c. repeat split. rewrite E0. apply in_app_or in H.
      apply in_or_app. destruct H; [now left | right; now right].
Qed.

(** C3.  When the year extracted from the query is numeric and greater
    than 1700, no candidate of the final list has a normalized identifier
    with the prefix vd17; nor, [str.lower] being what it is on ASCII
    letters and digits, a raw identifier that starts with VD17 in either
    case. *)
Theorem post_1700_excludes_vd17 (U : UCD) (F : Fuzz) (conn : Store)
  (model : Arbiter) (set_iter : list str -> list str)
  (query query_place query_author : str) (y : str) (n : Z)
  (final : list cand) (w : str) :
  extract_query_year U query = Some y ->
  str_isdigit U y = true -> py_int U y = Ok n -> 1700 < n ->
  get_search_results U F conn model set_iter query query_place query_author
  = Ok (final, w) ->
  Forall (fun c => vd17_norm c = false
                   /\ (ascii_lower_law U -> vd17_raw c = false)) final.
Proof.
  intros Hy Hd Hi Hn H. apply get_search_results_inv in H.
  destruct H as (fused & Hf & Ha).
  destruct (fused_ranking_inv _ _ _ _ _ _ _ Hf)
    as (all_results & x & _ & Hx & -> & Hc).
  rewrite Hy, (exclude_vd17_of_true _ _ Hd Hi Hn) in Hx.
  injection Hx as <-.
  apply Forall_forall. intros c Hin.
  change final with (fst (final, w)) in Hin. rewrite <- Ha in Hin.
  apply arbiter_step_ids in Hin. destruct Hin as (c' & Hin & E1 & E2).
  assert (vd17_norm c = false) as Hv.
  { unfold vd17_norm. rewrite E2.
    pose proof (fuse_not_excluded all_results) as Hex.
    rewrite Forall_forall in Hex. now apply Hex. }
  split; [assumption|].
  intros HU. destruct (vd17_raw c) eqn:Er; [|reflexivity].
  rewrite <- Hv. symmetry.
  apply fuse_incl in Hin. rewrite Forall_forall in Hc.
  destruct (Hc c' Hin) as (H1 & H2 & H3).
  apply (@vd17_raw_norm U c HU); [now rewrite E1 | now rewrite E1, E2|assumption].
Qed.

Lemma post_1700_excludes_vd17_witness :
  Forall (fun c => vd17_norm c = false
                   /\ (ascii_lower_law basic_latin -> vd17_raw c = false))
    [sample_vd18 "RUN_1"].
Proof.
  apply (@post_1700_excludes_vd17 basic_latin sample_fuzz sample_store
           (replying LLMError) insertion_order sample_query_1702
           (u "Jena") (u "Frolich") (u "1702") 1702 _ (u "-"));
    vm_compute; reflexivity.
Defined.

(** ** What fusion keeps *)

Lemma fuse_In_best (x : bool) (l : list cand) (c : cand) :
  In c (fuse x l) ->
  In c l /\ excluded x (vd_id_norm c) = false
  /\ forall r, In r l -> vd_id_norm r = vd_id_norm c -> score r <= score c.
Proof.
  intros H. apply fuse_In_winner in H. destruct H as [Hx Hw].
  destruct (winner_of_In Hw) as [Hin _]. repeat split; try assumption.
  intros r Hr Hk. eapply winner_of_max; eassumption.
Qed.

Lemma fuse_has_best (x : bool) (l : list cand) (r : cand) :
  In r l -> excluded x (vd_id_norm r) = false ->
  exists c,
    In c (fuse x l) /\ vd_id_norm c = vd_id_norm r /\ score r <= score c.
Proof.
  intros Hr Hx.
  pose proof (fuse_map_get x l (vd_id_norm r)) as G.
  destruct (odict_get (vd_id_norm r) (fuse_map x l)) as [c|].
  - destruct G as [_ Hw]. destruct (winner_of_In Hw) as [_ Hk].
    exists c. repeat split; [|assumption|].
    + apply fuse_In_winner. rewrite Hk. now split.
    + eapply winner_of_max; [exact Hw | exact Hr | reflexivity].
  - specialize (G r Hr eq_refl). congruence.
Qed.

(** C4, as amended.  For every identifier that is not excluded, fusion
    keeps one candidate, with the highest score seen for that identifier,
    so that no score decreases; the survivor is the first candidate of
    the input, in the order of the runs, that reaches this score, and its
    origin tag is the tag of that one candidate. *)
Theorem fusion_keeps_first_best (x : bool) (all_results : list cand) :
  (forall r,
      In r all_results -> excluded x (vd_id_norm r) = false ->
      exists c,
        In c (fuse x all_results) /\ vd_id_norm c = vd_id_norm r
        /\ score r <= score c)
  /\ (forall c,
        In c (fuse x all_results) ->
        exists pre post,
          all_results = pre ++ c :: post
          /\ (forall r, In r pre -> vd_id_norm r = vd_id_norm c ->
                        score r < score c)
          /\ (forall r, In r post -> vd_id_norm r = vd_id_norm c ->
                        score r <= score c)).
Proof.
  split.
  - intros r. apply fuse_has_best.
  - intros c Hc. apply fuse_In_winner in Hc.
    destruct Hc as [_ (pre & post & E & _ & H1 & H2)].
    now exists pre, post.
Qed.

(** C4, as stated, fails: two runs that give the same identifier the same
    score leave the tag of the first run only. *)
Lemma tie_keeps_first_tag :
  fuse false [tied_run_1; tied_run_3] = [tied_run_1]
  /\ ~ tie_records_all false [tied_run_1; tied_run_3].
Proof.
  split; [reflexivity|].
  intros H.
  specialize (H tied_run_1 tied_run_3).
  assert (contains (source tied_run_3) (source tied_run_1) = true) as E.
  { apply H; [now left | right; now left | reflexivity | reflexivity]. }
  vm_compute in E. discriminate.
Qed.

(** ** Fusion and the order of its input *)

Lemma fuse_NoDup (x : bool) (l : list cand) : NoDup (fuse x l).
Proof. eapply NoDup_map_inv, fuse_unique. Qed.

Lemma tie_free_perm (l l' : list cand) :
  Permutation l l' -> tie_free l -> tie_free l'.
Proof.
  intros P H a b Ha Hb. apply H; eapply Permutation_in; try eassumption;
    now symmetry.
Qed.

Lemma fuse_In_tie_free (x : bool) (l : list cand) (c : cand) :
  tie_free l ->
  (In c (fuse x l) <->
   In c l /\ excluded x (vd_id_norm c) = false
   /\ forall r, In r l -> vd_id_norm r = vd_id_norm c -> score r <= score c).
Proof.
  intros Ht. split; [apply fuse_In_best|].
  intros (Hc & Hx & Hmax).
  destruct (fuse_has_best x l c Hc Hx) as (c' & Hc' & Hk & Hs).
  destruct (fuse_In_best _ _ _ Hc') as (Hin' & _ & _).
  specialize (Hmax c' Hin' Hk).
  assert (c' = c) as <- by (apply Ht; [assumption | assumption | lia]).
  assumption.
Qed.

Lemma ranked_strict (l : list cand) :
  ranked l -> NoDup l ->
  (forall a b, In a l -> In b l -> score a = score b -> a = b) ->
  StronglySorted (sdesc score) l.
Proof.
  induction 1 as [|c l Hl IH Hc]; intros Hnd Ht; constructor.
  - apply IH; [now inversion Hnd|].
    intros a b Ha Hb. apply Ht; now right.
  - inversion Hnd as [|? ? Hn _]; subst.
    rewrite Forall_forall in *. intros r Hr.
    specialize (Hc r Hr). unfold desc, sdesc in *.
    destruct (Z.eq_dec (score r) (score c)) as [E|E]; [|lia].
    exfalso. apply Hn.
    rewrite <- (Ht r c (or_intror Hr) (or_introl eq_refl) E). assumption.
Qed.

Lemma fuse_tie_free_strict (x : bool) (l : list cand) :
  tie_free l -> StronglySorted (sdesc score) (fuse x l).
Proof.
  intros Ht. apply ranked_strict.
  - apply fuse_ranked.
  - apply fuse_NoDup.
  - intros a b Ha Hb. apply Ht; eapply fuse_incl; eassumption.
Qed.

(** Without ties the fused ranking does not depend on the order of the
    input. *)
Lemma fuse_perm_tie_free (x : bool) (l l' : list cand) :
  Permutation l l' -> tie_free l -> fuse x l = fuse x l'.
Proof.
  intros P Ht. pose proof (tie_free_perm P Ht) as Ht'.
  apply sdesc_unique with (key := score);
    try now apply fuse_tie_free_strict.
  intros c. rewrite !fuse_In_tie_free by assumption.
  split; intros (Hc & Hx & Hmax); repeat split; try assumption.
  - eapply Permutation_in; eassumption.
  - intros r Hr. apply Hmax. eapply Permutation_in; [symmetry|]; eassumption.
  - eapply Permutation_in; [symmetry|]; eassumption.
  - intros r Hr. apply Hmax. eapply Permutation_in; eassumption.
Qed.

Lemma fuse_id_score_In (x : bool) (l : list cand) (k : str) (s : Z) :
  In (k, s) (map id_score (fuse x l)) <->
  excluded x k = false
  /\ (exists r, In r l /\ vd_id_norm r = k /\ score r = s)
  /\ forall r, In r l -> vd_id_norm r = k -> score r <= s.
Proof.
  rewrite in_map_iff. split.
  - intros (c & E & Hc). injection E as <- <-.
    apply fuse_In_best in Hc. destruct Hc as (Hin & Hx & Hmax).
    repeat split; try assumption. now exists c.
  - intros (Hx & (r & Hr & <- & <-) & Hmax).
    destruct (fuse_has_best x l r Hr Hx) as (c & Hc & Hk & Hs).
    exists c. split; [|assumption].
    destruct (fuse_In_best _ _ _ Hc) as (Hin & _ & _).
    specialize (Hmax c Hin Hk). unfold id_score. f_equal; [assumption | lia].
Qed.

Lemma fuse_id_score_NoDup (x : bool) (l : list cand) :
  NoDup (map id_score (fuse x l)).
Proof.
  apply (NoDup_map_inv fst). rewrite map_map. apply fuse_unique.
Qed.

(** The identifiers kept and their scores do not depend on the order of
    the input. *)
Lemma fuse_perm_id_score (x : bool) (l l' : list cand) :
  Permutation l l' ->
  Permutation (map id_score (fuse x l)) (map id_score (fuse x l')).
Proof.
  intros P. apply NoDup_Permutation; try apply fuse_id_score_NoDup.
  intros [k s]. rewrite !fuse_id_score_In.
  split; intros (Hx & (r & Hr & Hk & Hs) & Hmax); repeat split;
    try assumption.
  - exists r. repeat split; try assumption. eapply Permutation_in; eassumption.
  - intros r' Hr'. apply Hmax.
    eapply Permutation_in; [symmetry|]; eassumption.
  - exists r. repeat split; try assumption.
    eapply Permutation_in; [symmetry|]; eassumption.
  - intros r' Hr'. apply Hmax. eapply Permutation_in; eassumption.
Qed.

Lemma sorted_perm_eq (l1 l2 : list Z) :
  StronglySorted Z.ge l1 -> StronglySorted Z.ge l2 ->
  Permutation l1 l2 -> l1 = l2.
Proof.
  intros H1. revert l2. induction H1 as [|a l1 Hl1 IH Ha]; intros l2 H2 P.
  - apply Permutation_nil in P. now subst.
  - destruct H2 as [|b l2 Hl2 Hb].
    + symmetry in P. apply Permutation_nil in P. discriminate.
    + rewrite Forall_forall in Ha, Hb.
      assert (a = b) as <-.
      { assert (In a (b :: l2)) as Hab
            by (eapply Permutation_in; [exact P | now left]).
        assert (In b (a :: l1)) as Hba
            by (eapply Permutation_in; [symmetry; exact P | now left]).
        destruct Hab as [->|Hab]; [reflexivity|].
        destruct Hba as [->|Hba]; [reflexivity|].
        apply Hb in Hab. apply Ha in Hba. lia. }
      f_equal. apply IH; [assumption|]. eapply Permutation_cons_inv, P.
Qed.

Lemma ranked_scores (l : list cand) :
  ranked l -> StronglySorted Z.ge (map score l).
Proof.
  induction 1 as [|c l Hl IH Hc]; simpl; constructor; [assumption|].
  rewrite Forall_forall in *. intros s Hs. apply in_map_iff in Hs.
  destruct Hs as (r & <- & Hr). specialize (Hc r Hr). unfold desc in Hc. lia.
Qed.

(** The sequence of scores does not depend on the order of the input. *)
Lemma fuse_perm_scores (x : bool) (l l' : list cand) :
  Permutation l l' -> map score (fuse x l) = map score (fuse x l').
Proof.
  intros P. apply sorted_perm_eq.
  - apply ranked_scores, fuse_ranked.
  - apply ranked_scores, fuse_ranked.
  - pose proof (fuse_perm_id_score x P) as Q.
    apply (Permutation_map snd) in Q. now rewrite !map_map in Q.
Qed.

(** *** Ties *)

Lemma precedes_cons {A} (a b c : A) (l : list A) :
  precedes a b l -> precedes a b (c :: l).
Proof.
  intros (l1 & l2 & l3 & ->). now exists (c :: l1), l2, l3.
Qed.

Lemma precedes_head {A} (a b : A) (l : list A) :
  In b l -> precedes a b (a :: l).
Proof.
  intros H. apply in_split in H. destruct H as (l2 & l3 & ->).
  now exists [], l2, l3.
Qed.

Lemma precedes_inv {A} (a b c : A) (l : list A) :
  precedes a b (c :: l) -> (c = a /\ In b l) \/ precedes a b l.
Proof.
  intros (l1 & l2 & l3 & E). destruct l1 as [|d l1]; simpl in E.
  - injection E as -> ->. left. split; [reflexivity|].
    apply in_or_app. right. now left.
  - injection E as -> ->. right. now exists l1, l2, l3.
Qed.

Lemma precedes_In {A} (a b : A) (l : list A) :
  precedes a b l -> In a l /\ In b l.
Proof.
  intros (l1 & l2 & l3 & ->). split.
  - apply in_or_app. right. now left.
  - apply in_or_app. right. right. apply in_or_app. right. now left.
Qed.

Lemma precedes_filter {A} (p : A -> bool) (a b : A) (l : list A) :
  precedes a b l -> p a = true -> p b = true -> precedes a b (filter p l).
Proof.
  intros (l1 & l2 & l3 & ->) Ha Hb.
  exists (filter p l1), (filter p l2), (filter p l3).
  rewrite filter_app. simpl. rewrite Ha, filter_app. simpl. now rewrite Hb.
Qed.

Lemma precedes_filter_inv {A} (p : A -> bool) (a b : A) (l : list A) :
  precedes a b (filter p l) -> precedes a b l.
Proof.
  induction l as [|c l IH]; simpl.
  - intros (l1 & l2 & l3 & E). now destruct l1.
  - destruct (p c).
    + intros H. apply precedes_inv in H. destruct H as [[-> H]|H].
      * apply precedes_head. now apply filter_In in H.
      * now apply precedes_cons, IH.
    + intros H. now apply precedes_cons, IH.
Qed.

Lemma precedes_map {A B} (f : A -> B) (a b : A) (l : list A) :
  precedes a b l -> precedes (f a) (f b) (map f l).
Proof.
  intros (l1 & l2 & l3 & ->). exists (map f l1), (map f l2), (map f l3).
  now rewrite map_app, map_cons, map_app, map_cons.
Qed.

Lemma dedup_precedes (seen ks : list str) (k1 k2 : str) :
  precedes k1 k2 (dedup seen ks) -> seen_before k1 k2 ks = true.
Proof.
  revert seen. induction ks as [|k ks IH]; simpl; intros seen H.
  - destruct H as (l1 & l2 & l3 & E). now destruct l1.
  - destruct (str_eqb k k1) eqn:E1; [reflexivity|].
    destruct (mem k seen) eqn:Em.
    + destruct (str_eqb k k2) eqn:E2; [|now apply IH in H].
      apply str_eqb_eq in E2. subst k2. apply precedes_In in H.
      destruct H as [_ H]. apply dedup_not_seen in H.
      apply mem_In in Em. tauto.
    + apply precedes_inv in H. destruct H as [[-> _]|H].
      * now rewrite str_eqb_refl in E1.
      * destruct (str_eqb k k2) eqn:E2; [|now apply IH in H].
        apply str_eqb_eq in E2. subst k2. apply precedes_In in H.
        destruct H as [_ H]. apply dedup_not_seen in H.
        exfalso. apply (proj1 H), in_or_app. right. now left.
Qed.

Lemma seen_before_kept (x : bool) (l : list cand) (k1 k2 : str) :
  excluded x k1 = false -> excluded x k2 = false ->
  seen_before k1 k2 (map vd_id_norm (filter (kept x) l)) = true ->
  seen_before k1 k2 (map vd_id_norm l) = true.
Proof.
  intros H1 H2. induction l as [|r l IH]; simpl; [easy|].
  unfold kept at 1. destruct (excluded x (vd_id_norm r)) eqn:E; simpl.
  - intros H. apply IH in H.
    destruct (str_eqb (vd_id_norm r) k1) eqn:E1; [reflexivity|].
    destruct (str_eqb (vd_id_norm r) k2) eqn:E2; [|assumption].
    apply str_eqb_eq in E2. congruence.
  - destruct (str_eqb (vd_id_norm r) k1); [reflexivity|].
    destruct (str_eqb (vd_id_norm r) k2); [easy | exact IH].
Qed.

(** Candidates with equal scores stand in the fused ranking in the order
    in which their identifiers are first seen in the input. *)
Lemma fuse_ties_first_seen (x : bool) (l : list cand) (a b : cand) :
  precedes a b (fuse x l) -> score a = score b ->
  seen_before (vd_id_norm a) (vd_id_norm b) (map vd_id_norm l) = true.
Proof.
  intros H Hs.
  destruct (precedes_In H) as [Ha Hb].
  apply fuse_In_best in Ha, Hb.
  destruct Ha as (_ & Hxa & _). destruct Hb as (_ & Hxb & _).
  apply seen_before_kept with (x := x); try assumption.
  apply dedup_precedes with (seen := []).
  rewrite <- fuse_map_keys, <- fuse_map_keyed.
  apply precedes_map.
  apply (precedes_filter (fun c => score c =? score a)) in H;
    [|apply Z.eqb_refl | apply Z.eqb_eq; now symmetry].
  unfold fuse in H. rewrite sort_desc_stable in H.
  now apply precedes_filter_inv in H.
Qed.

(** C7.  Fusion is order-independent up to ties, as far as identifiers and
    scores go.  For two inputs with the same candidates in different
    orders: the sequences of scores are equal, the same normalized
    identifiers are kept with the same scores, and candidates with equal
    scores are ranked in the order in which their identifiers are first
    seen in the input; when no two distinct candidates of the input have
    the same score, the fused rankings are equal as wholes.  Which of two
    candidates with the same identifier and the same score survives, and
    so the origin tag, depends on the order. *)
Theorem fusion_order_independent (x : bool) (l l' : list cand) :
  Permutation l l' ->
  (tie_free l -> fuse x l = fuse x l')
  /\ map score (fuse x l) = map score (fuse x l')
  /\ Permutation (map id_score (fuse x l)) (map id_score (fuse x l'))
  /\ (forall a b,
        precedes a b (fuse x l) -> score a = score b ->
        seen_before (vd_id_norm a) (vd_id_norm b) (map vd_id_norm l) = true).
Proof.
  intros P. repeat split.
  - now apply fuse_perm_tie_free.
  - now apply fuse_perm_scores.
  - now apply fuse_perm_id_score.
  - apply fuse_ties_first_seen.
Qed.

Lemma fusion_order_independent_witness :
  Permutation [ranked_a; ranked_b; ranked_c] [ranked_b; ranked_c; ranked_a]
  /\ fuse false [ranked_a; ranked_b; ranked_c] = [ranked_a; ranked_c]
  /\ fuse false [ranked_b; ranked_c; ranked_a] = [ranked_a; ranked_c].
Proof.
  assert (Permutation [ranked_a; ranked_b; ranked_c]
            [ranked_b; ranked_c; ranked_a]) as P.
  { apply Permutation_cons_app with (l1 := [ranked_b; ranked_c]) (l2 := []).
    reflexivity. }
  split; [exact P|]. split; [reflexivity|].
  rewrite <- (proj1 (fusion_order_independent false P)); [reflexivity|].
  intros a b Ha Hb.
  simpl in Ha, Hb.
  destruct Ha as [<-|[<-|[<-|[]]]], Hb as [<-|[<-|[<-|[]]]];
    simpl; intros E; (reflexivity || discriminate E).
Defined.

(** C7, as stated, fails: the same two candidates in the two orders give
    two different final sequences, each of a single item, so that no tie
    is left to break in the ranking: the item carries the tag of the run
    that came first. *)
Example fuse_tie_order :
  Permutation [tied_run_1; tied_run_3] [tied_run_3; tied_run_1]
  /\ fuse false [tied_run_1; tied_run_3] = [tied_run_1]
  /\ fuse false [tied_run_3; tied_run_1] = [tied_run_3]
  /\ fuse false [tied_run_1; tied_run_3] <> fuse false [tied_run_3; tied_run_1].
Proof.
  split; [apply perm_swap|]. split; [reflexivity|]. split; [reflexivity|].
  vm_compute. discriminate.
Qed.

(** ** The bonuses of run 1 *)

Lemma author_bonus_cases (U : UCD) (F : Fuzz) (norm_query_fuzz : str)
  (r : row) :
  (author_bonus U F norm_query_fuzz r = 15
   /\ author_match U F norm_query_fuzz r)
  \/ (author_bonus U F norm_query_fuzz r = 0
      /\ ~ author_match U F norm_query_fuzz r).
Proof.
  unfold author_bonus, author_match.
  destruct (db_author r) as [[|c a]|] eqn:Ea; cbn [truthy or_empty andb].
  - right. split; [reflexivity|]. intros (a & [= <-] & H & _). now apply H.
  - destruct (partial_ratio F _ _ >=? 90) eqn:E.
    + left. split; [reflexivity|]. exists (c :: a).
      repeat split; [discriminate|]. now apply Z.geb_le in E.
    + right. split; [reflexivity|]. intros (a' & [= <-] & _ & H).
      apply Z.geb_le in H. rewrite H in E. discriminate.
  - right. split; [reflexivity|]. intros (a & [=] & _).
Qed.

Lemma place_bonus_cases (U : UCD) (F : Fuzz) (query_place : str) (r : row) :
  (place_bonus U F query_place r = 10 /\ place_match U F query_place r)
  \/ (place_bonus U F query_place r = 0
      /\ ~ place_match U F query_place r).
Proof.
  unfold place_bonus, place_match.
  destruct query_place as [|q0 q] eqn:Eq; simpl nonempty.
  - right. split; [reflexivity|]. intros (H & _). now apply H.
  - rewrite <- Eq.
    destruct (db_place r) as [[|c p]|] eqn:Ep; cbn [truthy or_empty andb].
    + right. split; [reflexivity|].
      intros (_ & p & [= <-] & H & _). now apply H.
    + destruct (partial_ratio F _ _ >? 85) eqn:E.
      * left. split; [reflexivity|]. split; [now rewrite Eq|].
        exists (c :: p). repeat split; [discriminate|].
        now apply Z.gtb_lt in E.
      * right. split; [reflexivity|].
        intros (_ & p' & [= <-] & _ & H). apply Z.gtb_lt in H.
        rewrite H in E. discriminate.
    + right. split; [reflexivity|]. intros (_ & p & [=] & _).
Qed.

(** C5, as amended.  For every hit that run 1 accepts, the score is the
    score after the year rules, plus exactly 15 when the author of the hit
    is not empty and its normalized form has a partial similarity of at
    least 90 to the normalized text of the whole query, plus exactly 10
    when the place of the query and the place of the hit are not empty and
    the partial similarity of their normalized forms exceeds 85, clamped
    to 100; nothing else depends on the author or the place. *)
Theorem run_1_bonuses (U : UCD) (F : Fuzz) (query_year : option str)
  (norm_query_fuzz query_place : str) (strict_mode : bool) (r : row)
  (c : cand) :
  process_row U F query_year norm_query_fuzz query_place strict_mode r
  = Ok (Some c) ->
  exists base a p,
    year_adjust U query_year strict_mode r
      (token_set_ratio F norm_query_fuzz (normalize_for_fuzz U (full_label r)))
    = Ok (Some base)
    /\ (a = 15 /\ author_match U F norm_query_fuzz r
        \/ a = 0 /\ ~ author_match U F norm_query_fuzz r)
    /\ (p = 10 /\ place_match U F query_place r
        \/ p = 0 /\ ~ place_match U F query_place r)
    /\ MIN_ACCEPT_SCORE <= base + a + p
    /\ score c = Z.min (base + a + p) 100.
Proof.
  unfold process_row, run_1_score.
  destruct (truthy (db_vd_id r)); simpl; [|discriminate].
  intros H. apply bind_Ok in H as (o & Ho & H).
  apply bind_Ok in Ho as (base' & Hb & Ho).
  injection Ho as <-. injection H as H.
  destruct base' as [base|]; simpl in H; [|discriminate].
  unfold accept in H.
  destruct (_ >=? MIN_ACCEPT_SCORE) eqn:E; [|discriminate].
  injection H as <-. apply Z.geb_le in E.
  exists base, (author_bonus U F norm_query_fuzz r),
    (place_bonus U F query_place r).
  split; [exact Hb|]. repeat split; try assumption.
  - destruct (author_bonus_cases U F norm_query_fuzz r) as [[-> H]|[-> H]];
      [left | right]; now split.
  - destruct (place_bonus_cases U F query_place r) as [[-> H]|[-> H]];
      [left | right]; now split.
Qed.

Lemma run_1_bonuses_witness :
  exists base a p,
    year_adjust basic_latin (Some (u "1680")) true frolich_1680
      (token_set_ratio sample_fuzz (u "frolich de peste 1680")
         (normalize_for_fuzz basic_latin (full_label frolich_1680)))
    = Ok (Some base)
    /\ (a = 15
        /\ author_match basic_latin sample_fuzz (u "frolich de peste 1680")
             frolich_1680
        \/ a = 0
           /\ ~ author_match basic_latin sample_fuzz
                 (u "frolich de peste 1680") frolich_1680)
    /\ (p = 10 /\ place_match basic_latin sample_fuzz (u "Jena") frolich_1680
        \/ p = 0
           /\ ~ place_match basic_latin sample_fuzz (u "Jena") frolich_1680)
    /\ MIN_ACCEPT_SCORE <= base + a + p
    /\ score sample_vd17 = Z.min (base + a + p) 100.
Proof.
  apply (@run_1_bonuses basic_latin sample_fuzz (Some (u "1680"))
           (u "frolich de peste 1680") (u "Jena") true frolich_1680
           sample_vd17).
  vm_compute. reflexivity.
Defined.

(** C5, as stated, fails: a query without an author still earns the
    author bonus when the name of the author of the hit stands in its
    title. *)
Lemma author_bonus_ignores_query_author :
  run_1_score basic_latin sample_fuzz (Some (u "1680"))
    (normalize_for_fuzz basic_latin (u "Frolich De Peste 1680")) (u "") true
    frolich_1680
  = Ok (Some 130)
  /\ year_adjust basic_latin (Some (u "1680")) true frolich_1680 100
     = Ok (Some 115)
  /\ 130 <> 115
            + author_bonus_by_query_author basic_latin sample_fuzz (u "")
                frolich_1680
            + place_bonus basic_latin sample_fuzz (u "") frolich_1680.
Proof. vm_compute. repeat split. discriminate. Qed.

(** ** Records with a malformed year *)

(** Run 1 skips the year rules on a year that is not a number: the score
    is the textual score with the author and place bonuses. *)
Lemma run_1_malformed_year (U : UCD) (F : Fuzz) (query_year : option str)
  (norm_query_fuzz query_place : str) (strict_mode : bool) (r : row) :
  str_isdigit U (str_of (db_year r)) = false ->
  run_1_score U F query_year norm_query_fuzz query_place strict_mode r
  = Ok (Some (token_set_ratio F norm_query_fuzz
                (normalize_for_fuzz U (full_label r))
              + author_bonus U F norm_query_fuzz r
              + place_bonus U F query_place r)).
Proof.
  intros H. unfold run_1_score, year_adjust. rewrite H.
  now rewrite !andb_false_r.
Qed.

(** Runs 3 and 4 do not read the year. *)
Lemma run_3_4_ignore_year (U : UCD) (F : Fuzz) (norm_query_fuzz : str)
  (entities : list str) (r : row) (y : option str) :
  run_3_row U F norm_query_fuzz entities (with_year r y)
  = run_3_row U F norm_query_fuzz entities r
  /\ run_4_row U F norm_query_fuzz (with_year r y)
     = run_4_row U F norm_query_fuzz r.
Proof. split; reflexivity. Qed.

(** Run 2 converts the year of every hit it scores without a test.  On a
    table that holds the text 1702/03 as a year, which build_index never
    writes (see [index_row_cases]), the text comparison of the year window
    lets the row through and the conversion raises [ValueError]. *)
Example run_2_raises_on_malformed_year :
  str_isdigit basic_latin (u "1702/03") = false
  /\ build_fts_queries basic_latin insertion_order
       (normalize_for_fts basic_latin (u "Frolich Leben 1702"))
     = (u "frolich AND leben", u "frolich OR leben")
  /\ execute_run_2 basic_latin sample_fuzz (store_of [malformed_row])
       (u "frolich OR leben") (Some (u "1702")) (u "frolich leben 1702")
       (u "Frolich")
     = Raise ValueError
  /\ get_search_results basic_latin sample_fuzz (store_of [malformed_row])
       (replying LLMError) insertion_order (u "Frolich Leben 1702") (u "")
       (u "Frolich")
     = Raise ValueError.
Proof. vm_compute. repeat split. Qed.

(** The same for every similarity function that finds the author of the
    query in the title of the record. *)
Lemma run_2_row_raises_for_any_fuzz (F : Fuzz) (norm_query_fuzz : str) :
  90 < partial_ratio F (u "frolich") (u "leben des frolich") ->
  run_2_row basic_latin F 1702 norm_query_fuzz (u "frolich") malformed_row
  = Raise ValueError.
Proof.
  intros H. apply Z.gtb_lt in H. unfold run_2_row.
  change (truthy (db_vd_id malformed_row)) with true.
  change (truthy (db_author malformed_row)) with false.
  cbn [negb].
  replace (normalize_for_fuzz basic_latin
             (strip (or_empty (db_title malformed_row))))
    with (u "leben des frolich") by (vm_compute; reflexivity).
  rewrite H. reflexivity.
Qed.

(** ** Queries without tokens *)

Lemma dedup_In (seen l : list str) (k : str) :
  In k (dedup seen l) <-> In k l /\ ~ In k seen.
Proof.
  split; [intros H; apply dedup_not_seen in H; tauto|].
  revert seen. induction l as [|y l IH]; simpl; intros seen [H1 H2];
    [contradiction|].
  destruct (mem y seen) eqn:E.
  - apply IH. split; [|assumption]. destruct H1 as [->|H1]; [|assumption].
    apply mem_In in E. contradiction.
  - destruct (str_eq_dec y k) as [->|Hne]; [now left|].
    right. apply IH. split; [destruct H1; [contradiction | assumption]|].
    intros H. apply in_app_or in H. destruct H as [H|[H|[]]]; congruence.
Qed.

Lemma insertion_order_ok : set_iter_ok insertion_order.
Proof.
  intros l. split; [apply dedup_NoDup|].
  intros x. unfold insertion_order. rewrite dedup_In. simpl. tauto.
Qed.

Lemma no_planned_tokens_filter (U : UCD) (norm_query_fts : str) :
  no_planned_tokens U norm_query_fts ->
  filter (planned_token U) (split norm_query_fts) = [].
Proof.
  intros H. destruct (filter _ _) as [|t l] eqn:E; [reflexivity|].
  assert (In t (filter (planned_token U) (split norm_query_fts))) as Ht
      by (rewrite E; now left).
  apply filter_In in Ht. destruct Ht as [Ht Hp]. unfold planned_token in Hp.
  apply negb_true_iff in Hp. apply orb_false_iff in Hp.
  destruct Hp as [Hp H3]. apply orb_false_iff in Hp. destruct Hp as [H1 H2].
  destruct (H t Ht) as [Hd|[Hl|Hs]].
  - congruence.
  - apply Z.ltb_lt in Hl. congruence.
  - apply mem_In in Hs. congruence.
Qed.

Lemma execute_run_1_no_query (U : UCD) (F : Fuzz) (conn : Store)
  (q_fts : str) (query_year : option str)
  (norm_query_fuzz query_place query_author : str) :
  execute_run_1 U F conn q_fts [] [] query_year norm_query_fuzz query_place
    query_author
  = Ok [].
Proof. reflexivity. Qed.

(** C9, as amended.  When every token of the normalized query is a number,
    shorter than 3 characters or a stop word, the strict and the broad
    expression are empty and runs 1, 2 and 3 return the empty list without
    raising; run 4, which selects its own tokens (at least 5 characters,
    no stop word), returns the empty list when none of the numbers has 5
    characters or more. *)
Theorem no_tokens_no_candidates (U : UCD) (F : Fuzz) (conn : Store)
  (set_iter : list str -> list str) (norm_query_fts : str)
  (query_year : option str)
  (norm_query_fuzz query_place query_author raw_query : str) :
  set_iter_ok set_iter ->
  no_planned_tokens U norm_query_fts ->
  build_fts_queries U set_iter norm_query_fts = ([], [])
  /\ execute_run_1 U F conn norm_query_fts [] [] query_year norm_query_fuzz
       query_place query_author
     = Ok []
  /\ execute_run_2 U F conn [] query_year norm_query_fuzz query_author
     = Ok []
  /\ execute_run_3 U F conn [] norm_query_fuzz raw_query = []
  /\ ((forall t, In t (split norm_query_fts) ->
                 str_isdigit U t = true -> len t < 5) ->
      execute_run_4 U F conn norm_query_fts norm_query_fuzz = []).
Proof.
  intros Hs Hn. repeat split.
  - unfold build_fts_queries. rewrite (no_planned_tokens_filter Hn).
    destruct (set_iter []) as [|t l] eqn:E; [reflexivity|].
    exfalso. apply (proj2 (Hs []) t). rewrite E. now left.
  - intros Hd. unfold execute_run_4.
    destruct (filter rare_token (split norm_query_fts)) as [|t l] eqn:E;
      [reflexivity|].
    exfalso.
    assert (In t (filter rare_token (split norm_query_fts))) as Ht
        by (rewrite E; now left).
    apply filter_In in Ht. destruct Ht as [Ht Hr]. unfold rare_token in Hr.
    apply andb_prop in Hr. destruct Hr as [H5 Hst].
    apply Z.geb_le in H5. apply negb_true_iff in Hst.
    destruct (Hn t Ht) as [H|[H|H]].
    + specialize (Hd t Ht H). lia.
    + unfold MIN_FTS_TOKEN_LEN in H. lia.
    + apply mem_In in H. congruence.
Qed.

Lemma no_tokens_no_candidates_witness :
  build_fts_queries basic_latin insertion_order (u "der 1702 ab") = ([], [])
  /\ execute_run_1 basic_latin sample_fuzz sample_store (u "der 1702 ab")
       [] [] (Some (u "1702")) (u "der 1702 ab") (u "Jena") (u "")
     = Ok []
  /\ execute_run_2 basic_latin sample_fuzz sample_store [] (Some (u "1702"))
       (u "der 1702 ab") (u "")
     = Ok []
  /\ execute_run_3 basic_latin sample_fuzz sample_store [] (u "der 1702 ab")
       (u "Der 1702 ab")
     = []
  /\ ((forall t, In t (split (u "der 1702 ab")) ->
                 str_isdigit basic_latin t = true -> len t < 5) ->
      execute_run_4 basic_latin sample_fuzz sample_store (u "der 1702 ab")
        (u "der 1702 ab")
      = []).
Proof.
  apply no_tokens_no_candidates.
  - exact insertion_order_ok.
  - intros t Ht. vm_compute in Ht.
    destruct Ht as [<-|[<-|[<-|[]]]].
    + right. right. apply mem_In. reflexivity.
    + left. reflexivity.
    + right. left. reflexivity.
Defined.

(** C9, as stated, fails for run 4: a query made of numbers has no planned
    token and empty expressions, and still run 4 searches for its numbers
    and returns a candidate. *)
Lemma numbers_reach_run_4 :
  no_planned_tokens basic_latin (u "12345 67890")
  /\ normalize_for_fts basic_latin (u "12345 67890") = u "12345 67890"
  /\ build_fts_queries basic_latin insertion_order (u "12345 67890")
     = ([], [])
  /\ execute_run_4 basic_latin sample_fuzz (store_of [numbers_row])
       (u "12345 67890") (u "12345 67890")
     = [numbers_cand]
  /\ get_search_results basic_latin sample_fuzz (store_of [numbers_row])
       (replying LLMError) insertion_order (u "12345 67890") (u "") (u "")
     = Ok ([numbers_cand], u "-").
Proof.
  split.
  - intros t Ht. vm_compute in Ht.
    destruct Ht as [<-|[<-|[]]]; left; reflexivity.
  - vm_compute. repeat split.
Qed.

(** ** The normalizer *)

Lemma u_space : u " " = [SP].
Proof. reflexivity. Qed.

Lemma dropwhile_snoc (p : char -> bool) (l : str) (c : char) :
  dropwhile p (l ++ [c])
  = match dropwhile p l with
    | [] => if p c then [] else [c]
    | l' => l' ++ [c]
    end.
Proof.
  induction l as [|x l IH]; simpl; [reflexivity|].
  destruct (p x); [exact IH | reflexivity].
Qed.

Lemma rstrip_cons (c : char) (s : str) :
  rstrip (c :: s)
  = match rstrip s with
    | [] => if isspace c then [] else [c]
    | _ => c :: rstrip s
    end.
Proof.
  unfold rstrip. simpl rev. rewrite dropwhile_snoc.
  destruct (dropwhile isspace (rev s)) as [|x l]; simpl.
  - now destruct (isspace c).
  - rewrite rev_app_distr. simpl.
    destruct (rev l ++ [x]) eqn:E; [now destruct (rev l)|reflexivity].
Qed.

Lemma rstrip_cons_nonspace (c : char) (s : str) :
  isspace c = false -> rstrip (c :: s) = c :: rstrip s.
Proof.
  intros H. rewrite rstrip_cons, H. now destruct (rstrip s).
Qed.

Lemma sub_ws_lstrip (t : str) :
  lstrip (sub_ws_go false t) = sub_ws_go true t
  /\ lstrip (sub_ws_go true t) = sub_ws_go true t.
Proof.
  unfold lstrip. induction t as [|c t [IH1 IH2]]; simpl; [now split|].
  destruct (isspace c) eqn:E; simpl.
  - change (isspace SP) with true. cbv iota. now split.
  - rewrite E. now split.
Qed.

Lemma join_cons (w : str) (ws : list str) :
  join [SP] (w :: ws) = w ++ sep_join ws.
Proof. destruct ws; simpl; [now rewrite app_nil_r | reflexivity]. Qed.

Lemma split_aux_tokens (t : str) :
  Forall (fun c => isspace c = false) (fst (split_aux t))
  /\ Forall is_token (snd (split_aux t)).
Proof.
  induction t as [|c t [IH1 IH2]]; simpl; [now split|].
  destruct (split_aux t) as [w ws]. simpl in *.
  destruct (isspace c) eqn:E; simpl.
  - split; [constructor|].
    destruct w as [|x w]; simpl; [assumption|].
    constructor; [|assumption]. split; [discriminate | assumption].
  - split; [now constructor | assumption].
Qed.

Lemma split_tokens (t : str) : Forall is_token (split t).
Proof.
  unfold split. pose proof (split_aux_tokens t) as [H1 H2].
  destruct (split_aux t) as [w ws]. simpl in *.
  destruct w as [|x w]; simpl; [assumption|].
  constructor; [|assumption]. split; [discriminate | assumption].
Qed.

Lemma join_tokens_nil (ws : list str) :
  Forall is_token ws -> join [SP] ws = [] -> ws = [].
Proof.
  destruct ws as [|w ws]; [reflexivity|].
  intros H. inversion H as [|? ? [Hw _] _]; subst.
  rewrite join_cons. destruct w; [contradiction | discriminate].
Qed.

(** White-space collapse and strip, in terms of the tokens. *)
Lemma rstrip_sub_ws (t : str) :
  rstrip (sub_ws_go false t)
  = fst (split_aux t) ++ sep_join (snd (split_aux t))
  /\ rstrip (sub_ws_go true t) = join [SP] (split t).
Proof.
  unfold split. induction t as [|c t [IH1 IH2]]; simpl; [now split|].
  pose proof (split_aux_tokens t) as [T1 T2].
  destruct (split_aux t) as [w ws]. simpl in *.
  assert (Forall is_token (cons_token w ws)) as T.
  { destruct w as [|x w]; simpl; [assumption|].
    constructor; [|assumption]. split; [discriminate | assumption]. }
  destruct (isspace c) eqn:E; simpl.
  - split; [|exact IH2].
    rewrite rstrip_cons, IH2. change (isspace SP) with true.
    destruct (join [SP] (cons_token w ws)) eqn:Ej.
    + apply join_tokens_nil in Ej; [|assumption]. now rewrite Ej.
    + unfold sep_join. destruct (cons_token w ws); [discriminate|].
      now rewrite Ej.
  - rewrite (@rstrip_cons_nonspace c _ E), IH1. split; [reflexivity|].
    destruct ws; simpl; [now rewrite app_nil_r | reflexivity].
Qed.

Lemma collapse_ws_split (t : str) : collapse_ws t = join [SP] (split t).
Proof.
  unfold collapse_ws, strip, sub_ws.
  rewrite (proj1 (sub_ws_lstrip t)). apply rstrip_sub_ws.
Qed.

Lemma split_aux_app (w s : str) :
  Forall (fun c => isspace c = false) w ->
  split_aux (w ++ s)
  = (w ++ fst (split_aux s), snd (split_aux s)).
Proof.
  induction 1 as [|c w Hc Hw IH]; simpl.
  - now destruct (split_aux s).
  - rewrite IH, Hc. reflexivity.
Qed.

Lemma split_join (ws : list str) :
  Forall is_token ws -> split (join [SP] ws) = ws.
Proof.
  induction 1 as [|w ws [Hw1 Hw2] Hws IH]; [reflexivity|].
  rewrite join_cons. unfold split.
  rewrite (@split_aux_app w _ Hw2). unfold sep_join.
  destruct ws as [|w2 ws'].
  - simpl. rewrite app_nil_r. now destruct w.
  - remember (w2 :: ws') as l. simpl.
    unfold split in IH. destruct (split_aux (join [SP] l)) as [w0 ws0].
    change (isspace SP) with true. cbv iota. simpl.
    rewrite app_nil_r, IH. now destruct w.
Qed.

Lemma collapse_ws_join (ws : list str) :
  Forall is_token ws -> collapse_ws (join [SP] ws) = join [SP] ws.
Proof.
  intros H. now rewrite collapse_ws_split, split_join.
Qed.

Lemma split_aux_incl (t : str) (c : char) :
  In c (fst (split_aux t))
  \/ (exists w, In w (snd (split_aux t)) /\ In c w) ->
  In c t.
Proof.
  induction t as [|x t IH]; simpl.
  - intros [[]|(w & [] & _)].
  - destruct (split_aux t) as [w0 ws]. simpl in *.
    destruct (isspace x); simpl.
    + intros [[]|(w & Hw & Hc)]. right. apply IH.
      destruct w0 as [|y w0]; simpl in Hw.
      * right. now exists w.
      * destruct Hw as [<-|Hw]; [now left | right; now exists w].
    + intros [[<-|Hc]|H]; [now left | right; apply IH; now left|].
      right. apply IH. now right.
Qed.

Lemma split_incl (t w : str) (c : char) :
  In w (split t) -> In c w -> In c t.
Proof.
  unfold split. intros Hw Hc. apply split_aux_incl.
  destruct (split_aux t) as [w0 ws]. simpl.
  destruct w0 as [|y w0]; simpl in Hw.
  - right. now exists w.
  - destruct Hw as [<-|Hw]; [now left | right; now exists w].
Qed.

Lemma replace_absent (x : char) (new w : str) :
  ~ In x w -> replace [x] new w = w.
Proof.
  unfold replace. induction w as [|c w IH]; simpl; [reflexivity|].
  intros H. destruct (N.eqb x c) eqn:E.
  - apply N.eqb_eq in E. subst. exfalso. apply H. now left.
  - simpl. f_equal. apply IH. intros Hx. apply H. now right.
Qed.

Lemma is_tokenb_ok (w : str) : is_tokenb w = true -> is_token w.
Proof.
  unfold is_tokenb, is_token. intros H. apply andb_prop in H.
  destruct H as [H1 H2]. split; [now destruct w|].
  apply Forall_forall. intros c Hc.
  rewrite forallb_forall in H2. specialize (H2 c Hc).
  now apply negb_true_iff in H2.
Qed.

Lemma dict_get_token (d : list (str * str)) (k t : str) :
  forallb is_tokenb (map snd d) = true -> is_token t ->
  is_token (dict_get d k t).
Proof.
  intros Hd Ht. induction d as [|[k' v] d IH]; simpl; [assumption|].
  simpl in Hd. apply andb_prop in Hd. destruct Hd as [Hv Hd].
  destruct (str_eqb k k'); [now apply is_tokenb_ok | now apply IH].
Qed.

Lemma dict_get_miss (d : list (str * str)) (k t : str) :
  ~ In k (map fst d) -> dict_get d k t = t.
Proof.
  induction d as [|[k' v] d IH]; simpl; [reflexivity|].
  intros H. destruct (str_eqb k k') eqn:E.
  - apply str_eqb_eq in E. subst. exfalso. apply H. now left.
  - apply IH. intros Hk. apply H. now right.
Qed.

(** The tokens of a normalized text are made of letters and digits. *)
Lemma _basic_normalize_tokens (U : UCD) (text : str) :
  exists ws,
    _basic_normalize U text = join [SP] ws
    /\ Forall is_token ws
    /\ forall w c, In w ws -> In c w -> is_az c || is_09 c = true.
Proof.
  unfold _basic_normalize. destruct text as [|c0 text0]; [exists []|].
  - repeat split; [constructor | intros w c []].
  - remember (c0 :: text0) as text. clear Heqtext.
    match goal with
    | |- context [collapse_ws ?t] => remember t as t0 eqn:Et
    end.
    exists (split t0). rewrite collapse_ws_split.
    repeat split; [apply split_tokens|].
    intros w c Hw Hc.
    pose proof (split_tokens t0) as Ht. rewrite Forall_forall in Ht.
    destruct (Ht w Hw) as [_ Hs]. rewrite Forall_forall in Hs.
    specialize (Hs c Hc).
    pose proof (split_incl _ _ _ Hw Hc) as Hin. rewrite Et in Hin.
    apply in_map_iff in Hin. destruct Hin as (x & Hx & _).
    destruct (is_az x || is_09 x || isspace x) eqn:E.
    + subst x. rewrite Hs, orb_false_r in E. exact E.
    + subst c. discriminate.
Qed.

Lemma expand_abbreviations_tokens (ws : list str) :
  Forall is_token ws ->
  (forall w c, In w ws -> In c w -> is_az c || is_09 c = true) ->
  expand_abbreviations (join [SP] ws)
  = join [SP] (map (fun t => dict_get ABBREVIATIONS t t) ws).
Proof.
  intros Ht Hc. unfold expand_abbreviations.
  rewrite u_space, split_join by assumption. f_equal.
  apply map_ext_in. intros t Hin. change (u ".") with [46%N].
  rewrite replace_absent; [reflexivity|].
  intros H. specialize (Hc t _ Hin H). discriminate.
Qed.

(** C6, as amended.  normalize_for_fts performs every step of
    normalize_for_fuzz, the collapse of punctuation and the stripping of
    the suffix included, and then replaces each token that is an
    abbreviation by its expansion; the two functions differ by this
    expansion only, and agree on a text none of whose normalized tokens is
    an abbreviation. *)
Theorem normalize_for_fts_expands_fuzz (U : UCD) (text : str) :
  normalize_for_fts U text
  = join (u " ")
      (map (fun t => dict_get ABBREVIATIONS t t)
         (split (normalize_for_fuzz U text)))
  /\ ((forall t, In t (split (normalize_for_fuzz U text)) ->
                 ~ In t (map fst ABBREVIATIONS)) ->
      normalize_for_fts U text = normalize_for_fuzz U text).
Proof.
  unfold normalize_for_fts, normalize_for_fuzz.
  destruct (_basic_normalize_tokens U text) as (ws & -> & Ht & Hc).
  rewrite expand_abbreviations_tokens, u_space, split_join by assumption.
  assert (Forall is_token (map (fun t => dict_get ABBREVIATIONS t t) ws))
    as Ht'.
  { rewrite Forall_forall in *. intros t Hin. apply in_map_iff in Hin.
    destruct Hin as (t0 & <- & Hin).
    apply dict_get_token; [reflexivity | now apply Ht]. }
  rewrite collapse_ws_join by assumption.
  split; [reflexivity|].
  intros H. f_equal. rewrite <- (map_id ws) at 2.
  apply map_ext_in. intros t Hin. now apply dict_get_miss, H.
Qed.

Lemma normalize_for_fts_expands_fuzz_witness :
  (forall t, In t (split (normalize_for_fuzz basic_latin (u "Der Hauses"))) ->
             ~ In t (map fst ABBREVIATIONS))
  /\ normalize_for_fts basic_latin (u "Der Hauses")
     = normalize_for_fuzz basic_latin (u "Der Hauses").
Proof.
  assert (forall t,
             In t (split (normalize_for_fuzz basic_latin (u "Der Hauses"))) ->
             ~ In t (map fst ABBREVIATIONS)) as H.
  { intros t Ht Hk. apply mem_In in Hk. vm_compute in Ht.
    destruct Ht as [<-|[<-|[]]]; vm_compute in Hk; discriminate Hk. }
  split; [exact H|].
  exact (proj2 (normalize_for_fts_expands_fuzz basic_latin (u "Der Hauses"))
           H).
Defined.

(** The specification's normalize-for-index is the normalize_text of the
    index builder. *)
Lemma normalize_for_index_spec_builder (U : UCD) (text : str) :
  normalize_for_index_spec U text = normalize_text U text.
Proof. reflexivity. Qed.

(** C6, as stated, fails: normalize_for_fts strips the suffix and
    collapses punctuation as normalize_for_fuzz does, and expands
    abbreviations. *)
Lemma normalize_for_fts_strips_suffix :
  normalize_for_fts basic_latin (u "Hauses")
  <> normalize_for_index_spec basic_latin (u "Hauses")
  /\ normalize_for_fts basic_latin (u "Hauses") = u "hause"
  /\ normalize_for_index_spec basic_latin (u "Hauses") = u "hauses"
  /\ normalize_for_fuzz basic_latin (u "Hauses") = u "hause"
  /\ normalize_for_fts basic_latin (u "Hist. Nachricht")
     = u "historie nachricht".
Proof. vm_compute. repeat split. discriminate. Qed.

(** ** When the search returns *)

Lemma strip_nospace (y : str) :
  Forall (fun c => isspace c = false) y -> strip y = y.
Proof.
  intros H. unfold strip, lstrip, rstrip.
  assert (dropwhile isspace y = y) as ->.
  { destruct H as [|c y Hc _]; simpl; [reflexivity | now rewrite Hc]. }
  assert (dropwhile isspace (rev y) = rev y) as ->.
  { destruct (rev y) as [|c l] eqn:E; simpl; [reflexivity|].
    rewrite Forall_forall in H. rewrite (H c); [reflexivity|].
    apply in_rev. rewrite E. now left. }
  apply rev_involutive.
Qed.

Section Returns.
Variable U : UCD.
Hypothesis HU : decimal_laws U.

Lemma int_digits_decimal (y : str) (acc : Z) :
  decimal_text U y -> exists n, int_digits U acc y = Some n.
Proof.
  intros H. revert acc. induction H as [|c y Hc Hy IH]; intros acc; simpl.
  - now exists acc.
  - destruct (proj2 HU c Hc) as (_ & H95 & _).
    apply N.eqb_neq in H95. rewrite H95.
    unfold is_decimal in Hc. destruct (decimal U c) as [v|]; [|discriminate].
    apply IH.
Qed.

Lemma py_int_decimal (y : str) :
  y <> [] -> decimal_text U y -> exists n, py_int U y = Ok n.
Proof.
  intros Hne H. unfold py_int.
  rewrite strip_nospace.
  - destruct y as [|c y]; [contradiction|].
    pose proof (Forall_inv H) as Hc. simpl in Hc.
    destruct (proj2 HU c Hc) as (_ & _ & H43 & H45).
    apply N.eqb_neq in H43, H45. rewrite H43, H45.
    unfold int_body. rewrite Hc.
    destruct (int_digits_decimal 0 H) as (n & ->). now exists n.
  - eapply Forall_impl; [|exact H]. intros c Hc. now apply (proj2 HU c).
Qed.

Lemma year_search_cons (prev : option char) (c : char) (q : str) :
  year_search U prev (c :: q)
  = match year_at U prev (c :: q) with
    | Some y => Some y
    | None => year_search U (Some c) q
    end.
Proof. reflexivity. Qed.

Lemma year_search_decimal (q : str) (prev : option char) (y : str) :
  year_search U prev q = Some y -> y <> [] /\ decimal_text U y.
Proof.
  revert prev. induction q as [|c q IH]; intros prev.
  - discriminate.
  - rewrite year_search_cons.
    destruct (year_at U prev (c :: q)) as [y'|] eqn:E; [|apply IH].
    intros [= <-]. unfold year_at in E.
    destruct q as [|b [|c2 [|d rest]]]; try discriminate.
    destruct (boundary U prev (Some c) && N.eqb c 49 && in_range 52 57 b
              && is_decimal U c2 && is_decimal U d
              && boundary U (Some d) (hd_error rest)) eqn:G; [|discriminate].
    injection E as <-.
    repeat (apply andb_prop in G; destruct G as [G ?]).
    split; [discriminate|].
    repeat constructor; try assumption.
    + apply (proj1 HU). apply N.eqb_eq in H3. now subst.
    + apply (proj1 HU). unfold in_range, is_09 in *.
      apply andb_prop in H2. destruct H2 as [A B].
      apply N.leb_le in A, B. apply andb_true_intro.
      split; apply N.leb_le; lia.
Qed.

Lemma extract_query_year_decimal (q y : str) :
  extract_query_year U q = Some y -> y <> [] /\ decimal_text U y.
Proof. apply year_search_decimal. Qed.

Lemma for_rows_returns (body : row -> result (option cand))
  (rows : list row) :
  (forall r, In r rows -> exists o, body r = Ok o) ->
  exists out, for_rows body rows = Ok out.
Proof.
  induction rows as [|r rows IH]; simpl; intros H; [now exists []|].
  destruct (H r (or_introl eq_refl)) as (o & ->).
  destruct IH as (out & ->); [intros r' Hr'; apply H; now right|].
  simpl. now exists (opt_cons o out).
Qed.

Lemma py_int_year_signal (query_year : option str) :
  year_signal U query_year -> truthy query_year = true ->
  exists n, py_int U (or_empty query_year) = Ok n.
Proof.
  intros H T. destruct query_year as [y|]; [|discriminate].
  destruct (H y eq_refl). now apply py_int_decimal.
Qed.

Lemma py_int_clean_year (r : row) :
  clean_year U r -> truthy (db_year r) = true ->
  exists n, py_int_opt U (db_year r) = Ok n.
Proof.
  intros H T. destruct (db_year r) as [y|] eqn:E; [|discriminate].
  simpl. apply py_int_decimal; [now destruct y | now apply H].
Qed.

Lemma year_adjust_returns (query_year : option str) (strict_mode : bool)
  (r : row) (score : Z) :
  year_signal U query_year -> clean_year U r ->
  exists o, year_adjust U query_year strict_mode r score = Ok o.
Proof.
  intros Hq Hr. unfold year_adjust.
  destruct (truthy query_year) eqn:Tq; simpl; [|eauto].
  destruct (truthy (db_year r)) eqn:Tr; simpl; [|eauto].
  destruct (str_isdigit U (str_of (db_year r))); [|eauto].
  destruct (py_int_year_signal Hq Tq) as (qy & ->).
  destruct (py_int_clean_year Hr Tr) as (ry & ->). simpl.
  destruct (strict_mode && (Z.abs (qy - ry) >? 1)); eauto.
Qed.

Lemma process_returns (F : Fuzz) (query_year : option str)
  (norm_query_fuzz query_place : str) (rows : list row)
  (strict_mode : bool) :
  year_signal U query_year -> Forall (clean_year U) rows ->
  exists out,
    process U F query_year norm_query_fuzz query_place rows strict_mode
    = Ok out.
Proof.
  intros Hq Hr. apply for_rows_returns. intros r Hin.
  rewrite Forall_forall in Hr. unfold process_row, run_1_score.
  destruct (negb (truthy (db_vd_id r))); [eauto|].
  destruct (year_adjust_returns strict_mode
              (token_set_ratio F norm_query_fuzz
                 (normalize_for_fuzz U (full_label r))) Hq (Hr r Hin))
    as (o & ->).
  simpl. eauto.
Qed.

Lemma sql_search_returns (conn : Store) (fts_query : str)
  (year : option str) :
  year_signal U year -> clean_store U conn ->
  exists rows,
    sql_search U conn fts_query year = Ok rows
    /\ Forall (clean_year U) rows.
Proof.
  intros Hy Hc. unfold sql_search.
  assert (forall l, (forall r, In r l -> In r (fts_ranked conn fts_query)) ->
                    Forall (clean_year U) (firstn 500 l)) as Hl.
  { intros l Hl. apply Forall_forall. intros r Hr.
    apply firstn_incl_In in Hr. apply (Hc fts_query). left. now apply Hl. }
  destruct (truthy year) eqn:T; simpl.
  - destruct (str_isdigit U (or_empty year)).
    + destruct (py_int_year_signal Hy T) as (n & ->). simpl.
      eexists. split; [reflexivity|]. apply Hl.
      intros r Hr. now apply sort_desc_In in Hr.
    + eexists. split; [reflexivity|]. now apply Hl.
  - eexists. split; [reflexivity|]. now apply Hl.
Qed.

Lemma execute_run_1_returns (F : Fuzz) (conn : Store)
  (q_fts strict_q broad_q : str) (query_year : option str)
  (norm_query_fuzz query_place query_author : str) :
  year_signal U query_year -> clean_store U conn ->
  exists r1,
    execute_run_1 U F conn q_fts strict_q broad_q query_year norm_query_fuzz
      query_place query_author
    = Ok r1.
Proof.
  intros Hq Hc. unfold execute_run_1.
  assert (exists strict,
             (if nonempty strict_q
              then rows <- sql_search U conn strict_q query_year ;;
                   process U F query_year norm_query_fuzz query_place rows
                     true
              else Ok []) = Ok strict) as (strict & ->).
  { destruct (nonempty strict_q); [|eauto].
    destruct (sql_search_returns strict_q Hq Hc) as (rows & -> & Hr).
    cbn [bind]. now apply process_returns. }
  cbn [bind].
  destruct (best_below (sort_desc score strict) 95 && nonempty broad_q);
    cbn [bind]; [|eauto].
  assert (year_signal U None) as Hn by (intros y [=]).
  destruct (sql_search_returns broad_q Hn Hc) as (rows & -> & Hr).
  cbn [bind].
  destruct (process_returns F norm_query_fuzz query_place false Hq Hr)
    as (out & ->).
  cbn [bind]. eauto.
Qed.

Lemma str_of_Z_nonempty (z : Z) : str_of_Z z <> [].
Proof.
  unfold str_of_Z, u.
  assert (forall d, d <> Decimal.Nil -> NilEmpty.string_of_uint d <> ""%string)
    as Hd by (intros [] H; simpl; congruence).
  assert (NilEmpty.string_of_int (Z.to_int z) <> ""%string) as H.
  { destruct z; simpl; try discriminate.
    apply Hd, DecimalPos.Unsigned.to_uint_nonnil. }
  destruct (NilEmpty.string_of_int (Z.to_int z)); [contradiction|].
  discriminate.
Qed.

Lemma execute_run_2_returns (F : Fuzz) (conn : Store) (broad_q : str)
  (query_year : option str) (norm_query_fuzz query_author : str) :
  year_signal U query_year -> clean_store U conn ->
  exists r2,
    execute_run_2 U F conn broad_q query_year norm_query_fuzz query_author
    = Ok r2.
Proof.
  intros Hq Hc. unfold execute_run_2.
  destruct (nonempty broad_q); cbn [negb orb]; [|eauto].
  destruct (truthy query_year) eqn:T; cbn [negb orb]; [|eauto].
  destruct (nonempty query_author); cbn [negb]; [|eauto].
  destruct (py_int_year_signal Hq T) as (y & ->). cbn [bind].
  destruct (len (normalize_for_fuzz U query_author) <? 4); [eauto|].
  apply for_rows_returns. intros r Hin.
  apply firstn_incl_In in Hin. apply filter_In in Hin.
  destruct Hin as [Hin Hw]. unfold run_2_row.
  destruct (negb (truthy (db_vd_id r))); [eauto|].
  destruct (truthy (db_author r)); [eauto|].
  destruct (partial_ratio F _ _ >? 90); [|eauto].
  assert (truthy (db_year r) = true) as Tr.
  { unfold year_between in Hw. destruct (db_year r) as [[|c y']|];
      try discriminate; [|reflexivity].
    apply andb_prop in Hw. destruct Hw as [Hw _].
    pose proof (str_of_Z_nonempty (y - 3)) as Hne.
    destruct (str_of_Z (y - 3)); [contradiction | discriminate]. }
  assert (clean_year U r) as Hr by (apply (Hc broad_q); now right).
  destruct (py_int_clean_year Hr Tr) as (ry & ->). cbn [bind]. eauto.
Qed.

(** On an index whose years are empty or numbers the search returns. *)
Lemma get_search_results_returns (F : Fuzz) (conn : Store) (model : Arbiter)
  (set_iter : list str -> list str) (query query_place query_author : str) :
  clean_store U conn ->
  exists final w,
    get_search_results U F conn model set_iter query query_place
      query_author
    = Ok (final, w).
Proof.
  intros Hc.
  assert (year_signal U (extract_query_year U query)) as Hq
      by (intros y; apply extract_query_year_decimal).
  unfold get_search_results, fused_ranking, all_results_of.
  destruct (build_fts_queries U set_iter (normalize_for_fts U query))
    as [strict_q broad_q].
  destruct (execute_run_1_returns F (normalize_for_fts U query) strict_q
              broad_q (normalize_for_fuzz U query) query_place query_author
              Hq Hc) as (r1 & ->).
  destruct (execute_run_2_returns F broad_q (normalize_for_fuzz U query)
              query_author Hq Hc) as (r2 & ->).
  cbn [bind].
  assert (exists x, exclude_vd17_of U (extract_query_year U query) = Ok x)
    as (x & ->).
  { unfold exclude_vd17_of.
    destruct (truthy (extract_query_year U query)) eqn:T; cbn [andb];
      [|eauto].
    destruct (str_isdigit U _); [|eauto].
    destruct (py_int_year_signal Hq T) as (n & ->). cbn [bind]. eauto. }
  cbn [bind].
  destruct (arbiter_step conn model query
              (fuse x (r1 ++ r2
                         ++ execute_run_3 U F conn broad_q
                              (normalize_for_fuzz U query) query
                         ++ execute_run_4 U F conn
                              (normalize_for_fts U query)
                              (normalize_for_fuzz U query))))
    as [final w].
  now exists final, w.
Qed.

End Returns.

Lemma basic_latin_decimal_laws : decimal_laws basic_latin.
Proof.
  split.
  - intros c H. unfold is_decimal. simpl. now rewrite H.
  - intros c H. unfold is_decimal in H. simpl in H.
    destruct (is_09 c) eqn:E; [|discriminate].
    unfold is_09, in_range in E. apply andb_prop in E. destruct E as [A B].
    apply N.leb_le in A, B.
    repeat split; try (intros ->; lia).
    unfold isspace, in_range.
    repeat match goal with
           | |- context [N.leb ?a ?b] =>
               destruct (N.leb_spec a b); try lia
           | |- context [N.eqb ?a ?b] =>
               destruct (N.eqb_spec a b); try lia
           end; reflexivity.
Qed.

(** * Further properties *)

(** ** The year signal *)

Lemma year_at_shape (U : UCD) (prev : option char) (t y : str) :
  year_at U prev t = Some y ->
  exists b c d,
    y = [49%N; b; c; d] /\ in_range 52 57 b = true
    /\ is_decimal U c = true /\ is_decimal U d = true.
Proof.
  unfold year_at. destruct t as [|a [|b [|c [|d rest]]]]; try discriminate.
  destruct (boundary U prev (Some a) && N.eqb a 49 && in_range 52 57 b
            && is_decimal U c && is_decimal U d
            && boundary U (Some d) (hd_error rest)) eqn:G; [|discriminate].
  intros [= <-].
  repeat (apply andb_prop in G; destruct G as [G ?]).
  apply N.eqb_eq in H3. subst a. now exists b, c, d.
Qed.

Lemma year_search_shape (U : UCD) (t : str) (prev : option char) (y : str) :
  year_search U prev t = Some y ->
  exists b c d,
    y = [49%N; b; c; d] /\ in_range 52 57 b = true
    /\ is_decimal U c = true /\ is_decimal U d = true.
Proof.
  revert prev. induction t as [|a t IH]; intros prev.
  - discriminate.
  - rewrite year_search_cons.
    destruct (year_at U prev (a :: t)) as [y'|] eqn:E; [|apply IH].
    intros [= <-]. eapply year_at_shape, E.
Qed.

(** X1.  A year extracted from a query has four characters and is a
    number between 1400 and 1999: converting it never fails. *)
Theorem extract_query_year_range (U : UCD) (query y : str) :
  digit_value_laws U ->
  extract_query_year U query = Some y ->
  length y = 4%nat /\ exists n, py_int U y = Ok n /\ 1400 <= n <= 1999.
Proof.
  intros (HU & Hval & Hrng) H. apply year_search_shape in H.
  destruct H as (b & c & d & -> & Hb & Hc & Hd).
  split; [reflexivity|].
  assert (is_09 b = true) as Hb9.
  { unfold in_range, is_09 in *. apply andb_prop in Hb. destruct Hb as [A B].
    apply N.leb_le in A, B. apply andb_true_intro.
    split; apply N.leb_le; lia. }
  assert (52 <= Z.of_N b <= 57) as Hbz.
  { unfold in_range in Hb. apply andb_prop in Hb. destruct Hb as [A B].
    apply N.leb_le in A, B. lia. }
  pose proof (Hval 49%N eq_refl) as H1. pose proof (Hval b Hb9) as H2.
  assert (is_decimal U 49%N = true) as D1 by (apply (proj1 HU); reflexivity).
  assert (is_decimal U b = true) as D2 by now apply (proj1 HU).
  unfold py_int. rewrite strip_nospace.
  - cbn [N.eqb Pos.eqb]. unfold int_body. rewrite D1.
    cbn [int_digits N.eqb Pos.eqb]. rewrite H1.
    destruct (proj2 HU b D2) as (_ & B95 & _).
    destruct (proj2 HU c Hc) as (_ & C95 & _).
    destruct (proj2 HU d Hd) as (_ & D95 & _).
    apply N.eqb_neq in B95, C95, D95. rewrite B95, H2, C95.
    unfold is_decimal in Hc, Hd.
    destruct (decimal U c) as [vc|] eqn:Ec; [|discriminate].
    destruct (decimal U d) as [vd|] eqn:Ed; [|discriminate].
    rewrite D95. pose proof (Hrng c vc Ec). pose proof (Hrng d vd Ed).
    eexists. split; [reflexivity|]. lia.
  - repeat constructor; now apply (proj2 HU).
Qed.

Lemma basic_latin_digit_value_laws : digit_value_laws basic_latin.
Proof.
  split; [apply basic_latin_decimal_laws|]. split.
  - intros c H. simpl. now rewrite H.
  - intros c v. simpl. destruct (is_09 c) eqn:E; [|discriminate].
    intros [= <-]. unfold is_09, in_range in E. apply andb_prop in E.
    destruct E as [A B]. apply N.leb_le in A, B. lia.
Qed.

Lemma extract_query_year_range_witness :
  length (u "1702") = 4%nat
  /\ exists n, py_int basic_latin (u "1702") = Ok n /\ 1400 <= n <= 1999.
Proof.
  apply (@extract_query_year_range basic_latin (u "Frolich De Peste 1702")).
  - exact basic_latin_digit_value_laws.
  - reflexivity.
Defined.

(** ** The index builder *)

Lemma findall_years_head (U : UCD) (t : str) (prev : option char) :
  hd_error (findall_years U prev 0 t) = year_search U prev t.
Proof.
  revert prev. induction t as [|c t IH]; intros prev; [reflexivity|].
  rewrite year_search_cons. cbn [findall_years].
  destruct (year_at U prev (c :: t)); [reflexivity | apply IH].
Qed.

(** X2.  The year that the index builder stores for a raw year text is
    the year signal that the search extracts from the same text, and the
    empty text when there is none: it is empty, or has four characters,
    the digit 1, a digit from 4 to 9 and two decimal digits. *)
Theorem extract_year_is_year_signal (U : UCD) (year_str : str) :
  extract_year U year_str
  = match extract_query_year U year_str with
    | Some y => y
    | None => []
    end
  /\ (extract_year U year_str = []
      \/ exists b c d,
           extract_year U year_str = [49%N; b; c; d]
           /\ in_range 52 57 b = true
           /\ is_decimal U c = true /\ is_decimal U d = true).
Proof.
  assert (extract_year U year_str
          = match extract_query_year U year_str with
            | Some y => y
            | None => []
            end) as H.
  { unfold extract_year, extract_query_year.
    rewrite <- findall_years_head.
    now destruct (findall_years U None 0 year_str). }
  split; [exact H|]. rewrite H. unfold extract_query_year.
  destruct (year_search U None year_str) as [y|] eqn:E; [|now left].
  right. apply year_search_shape in E.
  destruct E as (b & c & d & -> & Hb & Hc & Hd). now exists b, c, d.
Qed.

Lemma extract_year_decimal (U : UCD) (year_str : str) :
  decimal_laws U -> decimal_text U (extract_year U year_str).
Proof.
  intros HU. unfold extract_year.
  pose proof (findall_years_head U year_str None) as H.
  destruct (findall_years U None 0 year_str) as [|y l]; [constructor|].
  simpl in H. symmetry in H.
  now apply (year_search_decimal HU) in H.
Qed.

Lemma index_row_inv (U : UCD) (data : work) (r : row) :
  index_row U data = Some r ->
  extract_vd_id_from_record data <> []
  /\ db_vd_id r = Some (extract_vd_id_from_record data)
  /\ db_year r = Some (extract_year U (str_of (w_year data))).
Proof.
  unfold index_row.
  destruct (extract_vd_id_from_record data) as [|c id] eqn:E; [discriminate|].
  cbn [nonempty negb].
  destruct (len _ <? 3); [discriminate|].
  intros [= <-]. repeat split. discriminate.
Qed.

Lemma build_index_In (U : UCD) (works : list work) (r : row) :
  In r (build_index U works) ->
  exists data, In data works /\ index_row U data = Some r.
Proof.
  unfold build_index. rewrite in_flat_map. intros (data & Hd & Hr).
  exists data. split; [assumption|].
  destruct (index_row U data) as [r'|]; [|destruct Hr].
  destruct Hr as [<-|[]]. reflexivity.
Qed.

(** X3.  build_index skips exactly the lines without an identifier: the
    test on the length of the search text never rejects a line.  The row
    of any other line carries the stripped VD18 number if there is one,
    else the VD17 number, else the VD16 number, and a year that is empty
    or has four characters. *)
Theorem index_row_cases (U : UCD) (data : work) :
  (index_row U data = None <-> extract_vd_id_from_record data = [])
  /\ (forall r,
        index_row U data = Some r ->
        db_vd_id r = Some (extract_vd_id_from_record data)
        /\ (_first_scalar (jval_of (w_vd18_number data)) <> [] ->
            db_vd_id r = Some (_first_scalar (jval_of (w_vd18_number data))))
        /\ exists y,
             db_year r = Some y /\ (y = [] \/ length y = 4%nat)).
Proof.
  split.
  - unfold index_row.
    destruct (extract_vd_id_from_record data) as [|c id]; cbn [nonempty negb].
    + tauto.
    + destruct (len _ <? 3) eqn:E.
      * exfalso. apply Z.ltb_lt in E. unfold len in E.
        rewrite !length_app in E. simpl in E. lia.
      * split; discriminate.
  - intros r H. apply index_row_inv in H. destruct H as (Hne & Hid & Hy).
    split; [assumption|]. split.
    + intros H18. rewrite Hid. f_equal. unfold extract_vd_id_from_record.
      cbv zeta.
      destruct (_first_scalar (jval_of (w_vd18_number data)));
        [contradiction | reflexivity].
    + exists (extract_year U (str_of (w_year data))). split; [assumption|].
      unfold extract_year.
      pose proof (findall_years_head U (str_of (w_year data)) None) as H.
      destruct (findall_years U None 0 (str_of (w_year data))) as [|y l];
        [now left|].
      simpl in H. symmetry in H. apply year_search_shape in H.
      destruct H as (b & c & d & -> & _). now right.
Qed.

(** X4.  On an index made by build_index the search never raises,
    whatever the raw years of the catalogue: every year it stores is empty
    or a number. *)
Theorem search_returns_on_built_index (U : UCD) (F : Fuzz) (conn : Store)
  (model : Arbiter) (set_iter : list str -> list str) (works : list work)
  (query query_place query_author : str) :
  decimal_laws U ->
  store_over (build_index U works) conn ->
  exists final w,
    get_search_results U F conn model set_iter query query_place
      query_author
    = Ok (final, w).
Proof.
  intros HU Hs. apply get_search_results_returns; [assumption|].
  intros q r Hr y Hy. apply Hs in Hr. apply build_index_In in Hr.
  destruct Hr as (data & _ & Hr). apply index_row_inv in Hr.
  destruct Hr as (_ & _ & Hr). rewrite Hr in Hy. injection Hy as <-.
  now apply extract_year_decimal.
Qed.

Lemma store_of_over (rows : list row) : store_over rows (store_of rows).
Proof.
  intros q r [H|H]; simpl in H; now apply filter_In in H.
Qed.

Lemma search_returns_on_built_index_witness :
  exists final w,
    get_search_results basic_latin sample_fuzz
      (store_of (build_index basic_latin [sample_work])) (replying LLMError)
      insertion_order (u "Frolich De Peste 1702") (u "Jena") (u "Frolich")
    = Ok (final, w).
Proof.
  apply (@search_returns_on_built_index basic_latin sample_fuzz
           (store_of (build_index basic_latin [sample_work]))
           (replying LLMError) insertion_order [sample_work]).
  - exact basic_latin_decimal_laws.
  - apply store_of_over.
Defined.

Example build_index_example :
  build_index basic_latin [sample_work]
  = [ {| db_author := Some (u "frolich georg");
         db_title := Some (u "de peste tractatus");
         db_year := Some (u "1702"); db_place := Some (u "jena");
         db_vd_id := Some (u "VD18 10123456") |} ].
Proof. reflexivity. Qed.

(** ** The shape of normalized texts *)

Lemma word_is_token (w : str) : is_word_az09 w -> is_token w.
Proof.
  intros [H1 H2]. split; [assumption|].
  eapply Forall_impl; [|exact H2]. intros c Hc. unfold isspace, in_range.
  unfold is_az, is_09, in_range in Hc.
  apply orb_prop in Hc.
  destruct Hc as [Hc|Hc]; apply andb_prop in Hc; destruct Hc as [A B];
    apply N.leb_le in A, B;
    repeat match goal with
           | |- context [N.leb ?a ?b] =>
               destruct (N.leb_spec a b); try lia
           | |- context [N.eqb ?a ?b] =>
               destruct (N.eqb_spec a b); try lia
           end; reflexivity.
Qed.

(** The last two steps of the normalizers. *)
Lemma collapse_class_normal (t : str) :
  is_normal
    (collapse_ws
       (map (fun c => if is_az c || is_09 c || isspace c then c else SP) t)).
Proof.
  remember (map _ t) as t0 eqn:Et.
  exists (split t0). split; [apply collapse_ws_split|].
  apply Forall_forall. intros w Hw.
  pose proof (split_tokens t0) as Ht. rewrite Forall_forall in Ht.
  destruct (Ht w Hw) as [Hne Hs]. split; [assumption|].
  apply Forall_forall. intros c Hc. rewrite Forall_forall in Hs.
  specialize (Hs c Hc).
  pose proof (split_incl _ _ _ Hw Hc) as Hin. rewrite Et in Hin.
  apply in_map_iff in Hin. destruct Hin as (x & Hx & _).
  destruct (is_az x || is_09 x || isspace x) eqn:E.
  - subst x. rewrite Hs, orb_false_r in E. exact E.
  - subst c. discriminate.
Qed.

Lemma is_normal_nil : is_normal [].
Proof. exists []. split; [reflexivity | constructor]. Qed.

Lemma abbreviations_words :
  forallb (fun v => nonempty v && forallb (fun c => is_az c || is_09 c) v)
    (map snd ABBREVIATIONS) = true.
Proof. reflexivity. Qed.

Lemma dict_get_word (k t : str) :
  is_word_az09 t -> is_word_az09 (dict_get ABBREVIATIONS k t).
Proof.
  intros Ht. pose proof abbreviations_words as Hd.
  induction ABBREVIATIONS as [|[k' v] d IH]; simpl; [assumption|].
  simpl in Hd. apply andb_prop in Hd. destruct Hd as [Hv Hd].
  destruct (str_eqb k k'); [|now apply IH].
  apply andb_prop in Hv. destruct Hv as [H1 H2].
  split; [now destruct v|]. apply Forall_forall. intros c Hc.
  rewrite forallb_forall in H2. now apply H2.
Qed.

Lemma normalize_text_normal (U : UCD) (text : str) :
  is_normal (normalize_text U text).
Proof.
  unfold normalize_text. destruct text; [apply is_normal_nil|].
  apply collapse_class_normal.
Qed.

(** X5.  Whatever the input, the three normalizers return a normalized
    text: words of the characters a-z and 0-9 separated by single spaces,
    without a space at either end. *)
Theorem normalizers_return_normal_text (U : UCD) (text : str) :
  is_normal (normalize_for_fuzz U text)
  /\ is_normal (normalize_for_fts U text)
  /\ is_normal (normalize_text U text).
Proof.
  assert (is_normal (_basic_normalize U text)) as Hb.
  { unfold _basic_normalize. destruct text; [apply is_normal_nil|].
    apply collapse_class_normal. }
  split; [exact Hb|]. split.
  - unfold normalize_for_fts. destruct Hb as (ws & -> & Hw).
    assert (Forall is_token ws) as Ht
        by (eapply Forall_impl; [|exact Hw]; apply word_is_token).
    rewrite expand_abbreviations_tokens; [|assumption|].
    + assert (Forall is_word_az09
                (map (fun t => dict_get ABBREVIATIONS t t) ws)) as Hw'.
      { rewrite Forall_forall in *. intros t Hin. apply in_map_iff in Hin.
        destruct Hin as (t0 & <- & Hin). apply dict_get_word. now apply Hw. }
      rewrite collapse_ws_join.
      * now exists (map (fun t => dict_get ABBREVIATIONS t t) ws).
      * eapply Forall_impl; [|exact Hw']. apply word_is_token.
    + intros w c Hin Hc. rewrite Forall_forall in Hw.
      destruct (Hw w Hin) as [_ H]. rewrite Forall_forall in H. now apply H.
  - apply normalize_text_normal.
Qed.

Lemma join_Forall (P : char -> Prop) (sep : str) (ws : list str) :
  Forall P sep -> Forall (Forall P) ws -> Forall P (join sep ws).
Proof.
  intros Hs Hw. induction Hw as [|w ws Hw Hws IH]; simpl; [constructor|].
  destruct ws; [assumption|].
  apply Forall_app. split; [assumption|]. apply Forall_app. now split.
Qed.

Lemma is_normal_chars (s : str) :
  is_normal s -> Forall (fun c => is_az c || is_09 c || N.eqb c 32 = true) s.
Proof.
  intros (ws & -> & Hw). apply join_Forall.
  - repeat constructor.
  - eapply Forall_impl; [|exact Hw]. intros w [_ H].
    eapply Forall_impl; [|exact H]. intros c Hc. cbv beta in *.
    now rewrite Hc.
Qed.

Lemma filter_all {A} (f : A -> bool) (l : list A) :
  Forall (fun x => f x = true) l -> filter f l = l.
Proof.
  induction 1 as [|x l Hx Hl IH]; simpl; [reflexivity|].
  now rewrite Hx, IH.
Qed.

Lemma map_fixed {A} (f : A -> A) (l : list A) :
  Forall (fun x => f x = x) l -> map f l = l.
Proof.
  induction 1 as [|x l Hx Hl IH]; simpl; [reflexivity|].
  now rewrite Hx, IH.
Qed.

Lemma fold_ligatures_ascii (s : str) :
  Forall (fun c => is_az c || is_09 c || N.eqb c 32 = true) s ->
  fold_ligatures s = s.
Proof.
  intros H. unfold fold_ligatures.
  assert (forall x, (x = 383 \/ x = 223 \/ x = 230 \/ x = 339)%N ->
                    ~ In x s) as Hx.
  { intros x Hx Hin. rewrite Forall_forall in H. specialize (H x Hin).
    unfold is_az, is_09, in_range in H.
    destruct Hx as [ -> | [ -> | [ -> | -> ] ] ]; discriminate H. }
  assert (replace [383%N] (u "s") s = s) as ->
      by (apply replace_absent, Hx; tauto).
  assert (replace [223%N] (u "ss") s = s) as ->
      by (apply replace_absent, Hx; tauto).
  assert (replace [230%N] (u "ae") s = s) as ->
      by (apply replace_absent, Hx; tauto).
  apply replace_absent, Hx. tauto.
Qed.

(** X6.  normalize_text, the normalizer of the index builder, leaves a
    text that it has normalized as it is. *)
Theorem normalize_text_idempotent (U : UCD) (text : str) :
  ascii_text_laws U ->
  normalize_text U (normalize_text U text) = normalize_text U text.
Proof.
  intros HU.
  destruct (normalize_text_normal U text) as (ws & E & Hw).
  rewrite E.
  assert (Forall (fun c => is_az c || is_09 c || N.eqb c 32 = true)
            (join [SP] ws)) as Hc
      by (apply is_normal_chars; now exists ws).
  destruct (HU _ Hc) as (Hn & Hl & Hcomb).
  unfold normalize_text. destruct (join [SP] ws) as [|c0 s0] eqn:Ej;
    [reflexivity|].
  rewrite <- Ej in *. rewrite Hn.
  rewrite filter_all
    by (eapply Forall_impl; [|exact Hcomb]; intros c H; now rewrite H).
  rewrite Hl, fold_ligatures_ascii by assumption.
  rewrite map_fixed.
  - apply collapse_ws_join.
    eapply Forall_impl; [|exact Hw]. apply word_is_token.
  - eapply Forall_impl; [|exact Hc]. intros c H. cbv beta in *.
    destruct (is_az c || is_09 c) eqn:E1; [reflexivity|].
    simpl in H. apply N.eqb_eq in H. now subst c.
Qed.

Lemma basic_latin_ascii_text_laws : ascii_text_laws basic_latin.
Proof.
  intros s H. repeat split.
  - simpl. apply map_fixed. eapply Forall_impl; [|exact H].
    intros c Hc. cbv beta in Hc. unfold ascii_lower.
    destruct (is_AZ c) eqn:E; [|reflexivity]. exfalso.
    unfold is_az, is_09, is_AZ, in_range in *.
    apply andb_prop in E. destruct E as [A B]. apply N.leb_le in A, B.
    repeat (apply orb_prop in Hc; destruct Hc as [Hc|Hc]);
      try (apply andb_prop in Hc; destruct Hc as [C D];
           apply N.leb_le in C, D; lia).
    apply N.eqb_eq in Hc. lia.
  - apply Forall_forall. reflexivity.
Qed.

Lemma normalize_text_idempotent_witness :
  normalize_text basic_latin (normalize_text basic_latin (u "De Peste."))
  = normalize_text basic_latin (u "De Peste.").
Proof.
  apply normalize_text_idempotent. exact basic_latin_ascii_text_laws.
Defined.

(** ** Normalized identifiers *)

Lemma basic_latin_ascii_lower_law : ascii_lower_law basic_latin.
Proof. intros s _. reflexivity. Qed.

Lemma ascii_lower_alnum (c : char) :
  is_alnum_ascii c = true ->
  is_az (ascii_lower c) || is_09 (ascii_lower c) = true
  /\ is_AZ (ascii_lower c) = false.
Proof.
  unfold is_alnum_ascii, ascii_lower, is_az, is_AZ, is_09, in_range.
  intros H.
  destruct ((65 <=? c)%N && (c <=? 90)%N) eqn:E.
  - apply andb_prop in E. destruct E as [A B]. apply N.leb_le in A, B.
    split.
    + apply orb_true_intro. left. apply andb_true_intro.
      split; apply N.leb_le; lia.
    + apply andb_false_intro2. apply N.leb_gt. lia.
  - split; [|exact E].
    apply orb_prop in H. destruct H as [H|H]; [|now rewrite H, orb_true_r].
    apply orb_prop in H. destruct H as [H|H]; [now rewrite H|].
    discriminate H.
Qed.

Lemma normalize_db_vd_id_lower (U : UCD) (vd_id : str) :
  ascii_lower_law U ->
  normalize_db_vd_id U vd_id = map ascii_lower (filter is_alnum_ascii vd_id).
Proof.
  intros HU. unfold normalize_db_vd_id. destruct vd_id; [reflexivity|].
  apply HU, forallb_filter_same.
Qed.

(** X7.  A normalized identifier is made of the characters a-z and 0-9;
    normalizing is idempotent, goes through concatenation, and erases
    every character that is not an ASCII letter or digit: identifiers
    that differ in case, spaces or punctuation have the same normalized
    form. *)
Theorem normalize_db_vd_id_canonical (U : UCD) :
  ascii_lower_law U ->
  (forall vd_id,
      Forall (fun c => is_az c || is_09 c = true)
        (normalize_db_vd_id U vd_id))
  /\ (forall vd_id,
         normalize_db_vd_id U (normalize_db_vd_id U vd_id)
         = normalize_db_vd_id U vd_id)
  /\ (forall a b,
         normalize_db_vd_id U (a ++ b)
         = normalize_db_vd_id U a ++ normalize_db_vd_id U b)
  /\ (forall c, is_alnum_ascii c = false -> normalize_db_vd_id U [c] = [])
  /\ (forall c,
         is_alnum_ascii c = true ->
         normalize_db_vd_id U [c] = [ascii_lower c]
         /\ normalize_db_vd_id U [ascii_lower c] = [ascii_lower c]).
Proof.
  intros HU.
  assert (forall vd_id,
             Forall (fun c => is_az c || is_09 c = true)
               (normalize_db_vd_id U vd_id)) as Halpha.
  { intros vd_id. rewrite (normalize_db_vd_id_lower _ HU).
    apply Forall_forall. intros c Hc. apply in_map_iff in Hc.
    destruct Hc as (x & <- & Hx). apply filter_In in Hx.
    now apply ascii_lower_alnum. }
  assert (forall c, is_az c || is_09 c = true ->
                    is_alnum_ascii c = true /\ ascii_lower c = c) as Hfix.
  { intros c Hc. unfold is_alnum_ascii, ascii_lower.
    apply orb_prop in Hc.
    assert (is_AZ c = false) as ->.
    { unfold is_az, is_09, is_AZ, in_range in *.
      apply andb_false_iff.
      destruct Hc as [Hc|Hc]; apply andb_prop in Hc; destruct Hc as [A B];
        apply N.leb_le in A, B; [right | left]; apply N.leb_gt; lia. }
    split; [|reflexivity].
    destruct Hc as [-> | ->]; [reflexivity | now rewrite orb_true_r]. }
  repeat split.
  - apply Halpha.
  - intros vd_id. rewrite (normalize_db_vd_id_lower _ HU).
    specialize (Halpha vd_id).
    rewrite filter_all, map_fixed; try reflexivity.
    + eapply Forall_impl; [|exact Halpha]. intros c Hc. now apply Hfix.
    + eapply Forall_impl; [|exact Halpha]. intros c Hc. now apply Hfix.
  - intros a b. rewrite !(normalize_db_vd_id_lower _ HU).
    now rewrite filter_app, map_app.
  - intros c Hc. rewrite (normalize_db_vd_id_lower _ HU). simpl.
    now rewrite Hc.
  - rewrite (normalize_db_vd_id_lower _ HU). simpl. now rewrite H.
  - destruct (ascii_lower_alnum c H) as [H1 _].
    destruct (Hfix _ H1) as [Ha Hl].
    rewrite (normalize_db_vd_id_lower _ HU). cbn [filter]. rewrite Ha.
    cbn [map]. now rewrite Hl.
Qed.

Lemma normalize_db_vd_id_canonical_witness :
  normalize_db_vd_id basic_latin (u "VD18 1012-3456")
  = normalize_db_vd_id basic_latin (u "VD18 1012")
    ++ normalize_db_vd_id basic_latin (u "-3456").
Proof.
  exact (proj1 (proj2 (proj2 (normalize_db_vd_id_canonical
                                basic_latin_ascii_lower_law)))
           (u "VD18 1012") (u "-3456")).
Defined.

(** ** The planned expressions *)

Lemma no_planned_tokens_iff (U : UCD) (norm_query_fts : str) :
  no_planned_tokens U norm_query_fts
  <-> filter (planned_token U) (split norm_query_fts) = [].
Proof.
  split; [apply no_planned_tokens_filter|].
  intros H t Ht.
  destruct (planned_token U t) eqn:E.
  - exfalso. assert (In t (filter (planned_token U) (split norm_query_fts)))
      as Hin by (apply filter_In; now split).
    rewrite H in Hin. destruct Hin.
  - unfold planned_token in E. apply negb_false_iff in E.
    apply orb_prop in E. destruct E as [E|E].
    + apply orb_prop in E. destruct E as [E|E]; [|now left].
      right. right. now apply mem_In.
    + right. left. now apply Z.ltb_lt.
Qed.

Lemma planned_terms_In (U : UCD) (set_iter : list str -> list str)
  (norm_query_fts t : str) :
  set_iter_ok set_iter ->
  (In t (sort_desc len
           (set_iter (filter (planned_token U) (split norm_query_fts))))
   <-> In t (split norm_query_fts) /\ planned_token U t = true).
Proof.
  intros Hs. rewrite sort_desc_In, (proj2 (Hs _)). apply filter_In.
Qed.

(** X8.  The strict expression joins with AND the first 4, and the broad
    expression joins with OR the first 8, of one list of terms: the
    tokens of the normalized query that are no stop word, no number and
    at least 3 characters long, each once, the longer ones first. *)
Theorem fts_queries_terms (U : UCD) (set_iter : list str -> list str)
  (norm_query_fts : str) :
  set_iter_ok set_iter ->
  exists terms,
    build_fts_queries U set_iter norm_query_fts
    = (join (u " AND ") (firstn 4 terms), join (u " OR ") (firstn 8 terms))
    /\ NoDup terms
    /\ (forall t,
          In t terms <->
          In t (split norm_query_fts)
          /\ ~ In t STOPWORDS /\ str_isdigit U t = false /\ 3 <= len t)
    /\ StronglySorted (fun a b => len b <= len a) terms.
Proof.
  intros Hs.
  exists (sort_desc len
            (set_iter (filter (planned_token U) (split norm_query_fts)))).
  split; [reflexivity|]. split; [|split].
  - eapply Permutation_NoDup; [symmetry; apply sort_desc_perm|].
    apply Hs.
  - intros t. rewrite (planned_terms_In U norm_query_fts t Hs).
    unfold planned_token. rewrite negb_true_iff, !orb_false_iff.
    unfold MIN_FTS_TOKEN_LEN. rewrite Z.ltb_ge.
    split.
    + intros (H & (H1 & H2) & H3). repeat split; try assumption.
      intros Hin. apply mem_In in Hin. congruence.
    + intros (H & H1 & H2 & H3). repeat split; try assumption.
      destruct (mem t STOPWORDS) eqn:E; [|reflexivity].
      apply mem_In in E. contradiction.
  - apply (sort_desc_sorted len).
Qed.

Lemma fts_queries_terms_witness :
  exists terms,
    build_fts_queries basic_latin insertion_order
      (u "der hauses 1702 ab wunder wunder erzehlung")
    = (join (u " AND ") (firstn 4 terms), join (u " OR ") (firstn 8 terms))
    /\ NoDup terms
    /\ (forall t,
          In t terms <->
          In t (split (u "der hauses 1702 ab wunder wunder erzehlung"))
          /\ ~ In t STOPWORDS /\ str_isdigit basic_latin t = false
          /\ 3 <= len t)
    /\ StronglySorted (fun a b => len b <= len a) terms.
Proof. apply fts_queries_terms. exact insertion_order_ok. Defined.

Lemma join_nonempty (sep w : str) (ws : list str) :
  w <> [] -> join sep (w :: ws) <> [].
Proof.
  intros Hw. simpl. destruct ws; [assumption|].
  destruct w; [contradiction | discriminate].
Qed.

(** X9.  The strict and the broad expression are empty together, and
    exactly when no token of the normalized query survives planning. *)
Theorem fts_queries_empty_iff (U : UCD) (set_iter : list str -> list str)
  (norm_query_fts : str) :
  set_iter_ok set_iter ->
  (fst (build_fts_queries U set_iter norm_query_fts) = []
   <-> no_planned_tokens U norm_query_fts)
  /\ (snd (build_fts_queries U set_iter norm_query_fts) = []
      <-> no_planned_tokens U norm_query_fts).
Proof.
  intros Hs. rewrite no_planned_tokens_iff. unfold build_fts_queries.
  cbn [fst snd].
  remember (filter (planned_token U) (split norm_query_fts)) as toks eqn:Et.
  assert (forall t, In t (sort_desc len (set_iter toks)) -> t <> []) as Hne.
  { intros t Ht. rewrite sort_desc_In, (proj2 (Hs _)) in Ht.
    rewrite Et in Ht. apply filter_In in Ht. destruct Ht as [Ht _].
    pose proof (split_tokens norm_query_fts) as Hk.
    rewrite Forall_forall in Hk. now destruct (Hk t Ht). }
  assert (sort_desc len (set_iter toks) = [] <-> toks = []) as Hnil.
  { split; intros H.
    - destruct toks as [|t l]; [reflexivity|]. exfalso.
      assert (In t (sort_desc len (set_iter (t :: l)))) as Hin
          by (rewrite sort_desc_In; apply (proj2 (Hs _)); now left).
      rewrite H in Hin. destruct Hin.
    - rewrite H. destruct (set_iter []) as [|t l] eqn:E; [reflexivity|].
      exfalso. apply (proj2 (Hs []) t). rewrite E. now left. }
  rewrite <- Hnil.
  destruct (sort_desc len (set_iter toks)) as [|t l]; [now split|].
  assert (t <> []) as Ht by (apply Hne; now left).
  split; (split; [|discriminate]); intros H; exfalso;
    cbn [firstn STRICT_MAX_TOKENS BROAD_MAX_TOKENS] in H;
    now apply join_nonempty in H.
Qed.

Lemma fts_queries_empty_iff_witness :
  (fst (build_fts_queries basic_latin insertion_order (u "der 1702 ab")) = []
   <-> no_planned_tokens basic_latin (u "der 1702 ab"))
  /\ (snd (build_fts_queries basic_latin insertion_order (u "der 1702 ab"))
      = []
      <-> no_planned_tokens basic_latin (u "der 1702 ab")).
Proof. apply fts_queries_empty_iff. exact insertion_order_ok. Defined.

Lemma normalize_for_fts_words (U : UCD) (query : str) :
  Forall is_word_az09 (split (normalize_for_fts U query)).
Proof.
  assert (is_normal (normalize_for_fts U query)) as (ws & -> & Hw).
  { unfold normalize_for_fts.
    destruct (_basic_normalize_tokens U query) as (ws & -> & Ht & Hc).
    rewrite expand_abbreviations_tokens by assumption.
    assert (Forall is_word_az09
              (map (fun t => dict_get ABBREVIATIONS t t) ws)) as Hw'.
    { rewrite Forall_forall in *. intros t Hin. apply in_map_iff in Hin.
      destruct Hin as (t0 & <- & Hin). apply dict_get_word.
      split; [now destruct (Ht t0 Hin)|].
      apply Forall_forall. intros c Hc'. now apply (Hc t0 c). }
    rewrite collapse_ws_join.
    - now exists (map (fun t => dict_get ABBREVIATIONS t t) ws).
    - eapply Forall_impl; [|exact Hw']. apply word_is_token. }
  rewrite split_join; [assumption|].
  eapply Forall_impl; [|exact Hw]. apply word_is_token.
Qed.

Lemma safe_join (sep : str) (ws : list str) :
  safe_expr sep -> Forall is_word_az09 ws -> safe_expr (join sep ws).
Proof.
  intros Hs Hw. apply join_Forall; [assumption|].
  eapply Forall_impl; [|exact Hw]. intros w [_ H].
  eapply Forall_impl; [|exact H]. intros c Hc. cbv beta in *.
  unfold is_alnum_ascii. apply orb_prop in Hc.
  destruct Hc as [-> | ->]; [reflexivity|].
  now rewrite !orb_true_r.
Qed.

Lemma Forall_firstn_keep {A} (P : A -> Prop) (n : nat) (l : list A) :
  Forall P l -> Forall P (firstn n l).
Proof.
  rewrite !Forall_forall. intros H x Hx. apply H.
  eapply firstn_incl_In, Hx.
Qed.

(** X10.  The three expressions that a search sends to the index, the
    strict, the broad and the one of run 4, are made of ASCII letters,
    digits and spaces only: whatever the query, no quote, bracket or
    other FTS5 syntax reaches the index. *)
Theorem match_expressions_are_safe (U : UCD)
  (set_iter : list str -> list str) (query : str) :
  set_iter_ok set_iter ->
  safe_expr (fst (build_fts_queries U set_iter (normalize_for_fts U query)))
  /\ safe_expr
       (snd (build_fts_queries U set_iter (normalize_for_fts U query)))
  /\ safe_expr (run_4_query (normalize_for_fts U query))
  /\ forall F conn norm_query_fuzz,
       execute_run_4 U F conn (normalize_for_fts U query) norm_query_fuzz
       = match filter rare_token (split (normalize_for_fts U query)) with
         | [] => []
         | _ =>
             sort_desc score
               (collect (run_4_row U F norm_query_fuzz)
                  (firstn 100
                     (fts_scan conn
                        (run_4_query (normalize_for_fts U query)))))
         end.
Proof.
  intros Hs. pose proof (normalize_for_fts_words U query) as Hw.
  assert (Forall is_word_az09
            (sort_desc len
               (set_iter (filter (planned_token U)
                            (split (normalize_for_fts U query)))))) as Ht.
  { rewrite Forall_forall in *. intros t Hin.
    apply (planned_terms_In U _ t Hs) in Hin. now apply Hw. }
  unfold build_fts_queries. cbn [fst snd]. repeat split.
  - apply safe_join; [repeat constructor | now apply Forall_firstn_keep].
  - apply safe_join; [repeat constructor | now apply Forall_firstn_keep].
  - unfold run_4_query.
    apply safe_join; [repeat constructor|]. apply Forall_firstn_keep.
    rewrite Forall_forall in *. intros t Hin. apply sort_desc_In in Hin.
    apply filter_In in Hin. now apply Hw.
Qed.

Lemma match_expressions_are_safe_witness :
  safe_expr
    (fst (build_fts_queries basic_latin insertion_order
            (normalize_for_fts basic_latin (u "O'Brien (1702) [x] * NEAR:"))))
  /\ safe_expr
       (snd (build_fts_queries basic_latin insertion_order
               (normalize_for_fts basic_latin
                  (u "O'Brien (1702) [x] * NEAR:")))).
Proof.
  pose proof (@match_expressions_are_safe basic_latin insertion_order
                (u "O'Brien (1702) [x] * NEAR:") insertion_order_ok)
    as (H1 & H2 & _).
  now split.
Defined.

(** ** What the runs return *)

Lemma accept_Some (U : UCD) (t : Z) (id src : str) (sc : Z) (c : cand) :
  accept U t id src sc = Some c ->
  t <= sc /\ vd_id c = id /\ vd_id_norm c = normalize_db_vd_id U id
  /\ score c = Z.min sc 100 /\ source c = src.
Proof.
  unfold accept. destruct (sc >=? t) eqn:E; [|discriminate].
  intros [= <-]. apply Z.geb_le in E. now repeat split.
Qed.

Lemma collect_In (body : row -> option cand) (rows : list row) (c : cand) :
  In c (collect body rows) <-> exists r, In r rows /\ body r = Some c.
Proof.
  induction rows as [|r rows IH]; simpl.
  - split; [intros [] | intros (r & [] & _)].
  - destruct (body r) as [c'|] eqn:E; simpl; rewrite IH; split.
    + intros [<-|(r' & H1 & H2)]; [exists r | exists r']; tauto.
    + intros (r' & [<-|H1] & H2); [left; congruence | right; now exists r'].
    + intros (r' & H1 & H2). exists r'. tauto.
    + intros (r' & [<-|H1] & H2); [congruence | now exists r'].
Qed.

Lemma for_rows_In (body : row -> result (option cand)) (rows : list row)
  (out : list cand) (c : cand) :
  for_rows body rows = Ok out ->
  (In c out <-> exists r, In r rows /\ body r = Ok (Some c)).
Proof.
  revert out. induction rows as [|r rows IH]; simpl; intros out H.
  - injection H as <-. split; [intros [] | intros (r & [] & _)].
  - apply bind_Ok in H as (o & Ho & H).
    apply bind_Ok in H as (out' & Hout & H). injection H as <-.
    specialize (IH out' Hout). destruct o as [c'|]; simpl; rewrite IH; split.
    + intros [<-|(r' & H1 & H2)]; [exists r | exists r']; tauto.
    + intros (r' & [<-|H1] & H2); [left; congruence | right; now exists r'].
    + intros (r' & H1 & H2). exists r'. tauto.
    + intros (r' & [<-|H1] & H2); [congruence | now exists r'].
Qed.

Lemma truthy_Some (v : option str) :
  truthy v = true -> v = Some (or_empty v) /\ or_empty v <> [].
Proof. destruct v as [[|c s]|]; simpl; try discriminate. now split. Qed.

(** X11.  Run 4 returns its candidates best first.  Each of them is a row
    that the index returned for the rare-term expression, with a non-empty
    identifier, the tag RUN_4, and as score the token-set similarity of the
    query and the label of the row, which is at least 65, clamped to
    100. *)
Theorem run_4_candidates (U : UCD) (F : Fuzz) (conn : Store)
  (norm_query_fts norm_query_fuzz : str) :
  ranked (execute_run_4 U F conn norm_query_fts norm_query_fuzz)
  /\ forall c,
       In c (execute_run_4 U F conn norm_query_fts norm_query_fuzz) ->
       exists r,
         In r (fts_scan conn (run_4_query norm_query_fts))
         /\ db_vd_id r = Some (vd_id c) /\ vd_id c <> []
         /\ vd_id_norm c = normalize_db_vd_id U (vd_id c)
         /\ source c = u "RUN_4"
         /\ 65 <= token_set_ratio F norm_query_fuzz
                    (normalize_for_fuzz U (full_label r))
         /\ score c
            = Z.min (token_set_ratio F norm_query_fuzz
                       (normalize_for_fuzz U (full_label r))) 100.
Proof.
  unfold execute_run_4, run_4_query.
  destruct (filter rare_token (split norm_query_fts)) as [|t0 l0] eqn:E.
  - split; [constructor | intros c []].
  - split; [apply (sort_desc_sorted score)|].
    intros c Hc. apply sort_desc_In, collect_In in Hc.
    destruct Hc as (r & Hr & Hb). apply firstn_incl_In in Hr.
    exists r. unfold run_4_row in Hb.
    destruct (truthy (db_vd_id r)) eqn:T; simpl in Hb; [|discriminate].
    apply truthy_Some in T. destruct T as [T1 T2].
    apply accept_Some in Hb. destruct Hb as (H1 & H2 & H3 & H4 & H5).
    rewrite H2. repeat split; assumption.
Qed.

Lemma entity_hits_bounds (U : UCD) (entities : list str) (label : str) :
  0 <= entity_hits U entities label <= Z.of_nat (length entities).
Proof.
  unfold entity_hits. split; [lia|]. apply inj_le.
  induction entities as [|e l IH]; simpl; [lia|].
  destruct (contains _ _); simpl; lia.
Qed.

(** X12.  Run 3 returns its candidates best first.  Each of them is a row
    that the index returned for the broad expression, with the tag RUN_3
    and a score, clamped to 100, that is the token-set similarity plus 5
    for each entity of the query found in the label and 5 for a VD18
    identifier: the bonuses never lower a score, and add at most 5 per
    entity of the query and 5.  Without a broad expression the run returns
    nothing. *)
Theorem run_3_candidates (U : UCD) (F : Fuzz) (conn : Store)
  (broad_q norm_query_fuzz raw_query : str) :
  ranked (execute_run_3 U F conn broad_q norm_query_fuzz raw_query)
  /\ (broad_q = [] ->
      execute_run_3 U F conn broad_q norm_query_fuzz raw_query = [])
  /\ forall c,
       In c (execute_run_3 U F conn broad_q norm_query_fuzz raw_query) ->
       exists r sc,
         In r (fts_scan conn broad_q)
         /\ db_vd_id r = Some (vd_id c) /\ vd_id c <> []
         /\ source c = u "RUN_3"
         /\ sc = run_3_score U F norm_query_fuzz (entities_of U raw_query) r
         /\ MIN_ACCEPT_SCORE <= sc /\ score c = Z.min sc 100
         /\ token_set_ratio F norm_query_fuzz
              (normalize_for_fuzz U (full_label r)) <= sc
            <= token_set_ratio F norm_query_fuzz
                 (normalize_for_fuzz U (full_label r))
               + 5 * Z.of_nat (length (entities_of U raw_query)) + 5.
Proof.
  unfold execute_run_3. destruct broad_q as [|b0 bq] eqn:Eb; cbn [nonempty negb].
  - repeat split; [constructor | intros c []].
  - rewrite <- Eb. split; [apply (sort_desc_sorted score)|].
    split; [rewrite Eb; discriminate|].
    intros c Hc. apply sort_desc_In, collect_In in Hc.
    destruct Hc as (r & Hr & Hb). apply firstn_incl_In in Hr.
    unfold run_3_row in Hb.
    destruct (truthy (db_vd_id r)) eqn:T; simpl in Hb; [|discriminate].
    apply truthy_Some in T. destruct T as [T1 T2].
    apply accept_Some in Hb. destruct Hb as (H1 & H2 & H3 & H4 & H5).
    exists r, (run_3_score U F norm_query_fuzz (entities_of U raw_query) r).
    rewrite H2. repeat split; try assumption.
    + unfold run_3_score.
      pose proof (entity_hits_bounds U (entities_of U raw_query)
                    (normalize_for_fuzz U (full_label r))).
      unfold ENTITY_BONUS, VD18_PREF_BONUS.
      destruct (startswith _ _); lia.
    + unfold run_3_score.
      pose proof (entity_hits_bounds U (entities_of U raw_query)
                    (normalize_for_fuzz U (full_label r))).
      unfold ENTITY_BONUS, VD18_PREF_BONUS.
      destruct (startswith _ _); lia.
Qed.

(** X13.  Run 2 returns a candidate only when there are a broad
    expression, a year and an author whose normalized form has at least 4
    characters.  The candidate is then a row of the index without author,
    whose year lies, compared as text, in the window of 3 years around the
    year of the query, and in whose title the author of the query is found
    with a partial similarity above 90; its score is the similarity of
    query and title plus 30 less the distance of the years, at least 50
    and clamped to 100, and its tag is RUN_2. *)
Theorem run_2_candidates (U : UCD) (F : Fuzz) (conn : Store)
  (broad_q : str) (query_year : option str)
  (norm_query_fuzz query_author : str) (r2 : list cand) (c : cand) :
  execute_run_2 U F conn broad_q query_year norm_query_fuzz query_author
  = Ok r2 ->
  In c r2 ->
  broad_q <> [] /\ query_author <> []
  /\ 4 <= len (normalize_for_fuzz U query_author)
  /\ exists y r ry,
       truthy query_year = true /\ py_int U (or_empty query_year) = Ok y
       /\ In r (fts_scan conn broad_q)
       /\ year_between (str_of_Z (y - 3)) (str_of_Z (y + 3)) r = true
       /\ truthy (db_author r) = false
       /\ db_vd_id r = Some (vd_id c) /\ vd_id c <> []
       /\ py_int_opt U (db_year r) = Ok ry
       /\ 90 < partial_ratio F (normalize_for_fuzz U query_author)
                 (normalize_for_fuzz U (strip (or_empty (db_title r))))
       /\ MIN_ACCEPT_SCORE
          <= WRatio F norm_query_fuzz
               (normalize_for_fuzz U (strip (or_empty (db_title r))))
             + 30 - Z.abs (y - ry)
       /\ score c
          = Z.min (WRatio F norm_query_fuzz
                     (normalize_for_fuzz U (strip (or_empty (db_title r))))
                   + 30 - Z.abs (y - ry)) 100
       /\ source c = u "RUN_2".
Proof.
  unfold execute_run_2. intros H Hc.
  destruct (nonempty broad_q) eqn:Eb; cbn [negb orb] in H;
    [|injection H as <-; destruct Hc].
  destruct (truthy query_year) eqn:Ey; cbn [negb orb] in H;
    [|injection H as <-; destruct Hc].
  destruct (nonempty query_author) eqn:Ea; cbn [negb orb] in H;
    [|injection H as <-; destruct Hc].
  apply bind_Ok in H as (y & Hy & H).
  destruct (len (normalize_for_fuzz U query_author) <? 4) eqn:El;
    [injection H as <-; destruct Hc|].
  apply Z.ltb_ge in El.
  apply (proj1 (for_rows_In _ _ c H)) in Hc.
  destruct Hc as (r & Hr & Hb).
  apply firstn_incl_In in Hr. apply filter_In in Hr. destruct Hr as [Hr Hw].
  unfold run_2_row in Hb.
  destruct (truthy (db_vd_id r)) eqn:T; cbn [negb] in Hb; [|discriminate].
  destruct (truthy (db_author r)) eqn:Ta; [discriminate|].
  destruct (partial_ratio F (normalize_for_fuzz U query_author)
              (normalize_for_fuzz U (strip (or_empty (db_title r)))) >? 90)
    eqn:Ep; [|discriminate].
  apply bind_Ok in Hb as (ry & Hry & Hb). injection Hb as Hb.
  apply accept_Some in Hb. destruct Hb as (H1 & H2 & H3 & H4 & H5).
  apply truthy_Some in T. destruct T as [T1 T2].
  assert (forall s : Z,
             (if Z.abs (y - ry) >? 0 then s - Z.abs (y - ry) else s)
             = s - Z.abs (y - ry)) as Hdy.
  { intros s. destruct (Z.gtb_spec (Z.abs (y - ry)) 0); lia. }
  rewrite Hdy in H1, H4.
  split; [intros ->; discriminate|].
  split; [intros ->; discriminate|].
  split; [exact El|].
  exists y, r, ry. rewrite H2.
  repeat split; try assumption.
  now apply Z.gtb_lt in Ep.
Qed.

Lemma run_2_candidates_witness :
  u "frolich OR leben" <> [] /\ u "Frolich" <> []
  /\ 4 <= len (normalize_for_fuzz basic_latin (u "Frolich"))
  /\ exists y r ry,
       truthy (Some (u "1702")) = true
       /\ py_int basic_latin (or_empty (Some (u "1702"))) = Ok y
       /\ In r (fts_scan sample_store (u "frolich OR leben"))
       /\ year_between (str_of_Z (y - 3)) (str_of_Z (y + 3)) r = true
       /\ truthy (db_author r) = false
       /\ db_vd_id r = Some (vd_id sample_anonymous)
       /\ vd_id sample_anonymous <> []
       /\ py_int_opt basic_latin (db_year r) = Ok ry
       /\ 90 < partial_ratio sample_fuzz
                 (normalize_for_fuzz basic_latin (u "Frolich"))
                 (normalize_for_fuzz basic_latin
                    (strip (or_empty (db_title r))))
       /\ MIN_ACCEPT_SCORE
          <= WRatio sample_fuzz (u "leben des frolich")
               (normalize_for_fuzz basic_latin
                  (strip (or_empty (db_title r))))
             + 30 - Z.abs (y - ry)
       /\ score sample_anonymous
          = Z.min (WRatio sample_fuzz (u "leben des frolich")
                     (normalize_for_fuzz basic_latin
                        (strip (or_empty (db_title r))))
                   + 30 - Z.abs (y - ry)) 100
       /\ source sample_anonymous = u "RUN_2".
Proof.
  apply (@run_2_candidates basic_latin sample_fuzz sample_store
           (u "frolich OR leben") (Some (u "1702")) (u "leben des frolich")
           (u "Frolich") [sample_anonymous] sample_anonymous).
  - vm_compute. reflexivity.
  - left. reflexivity.
Defined.

Lemma ranked_head_bound (l : list cand) (bound : Z) :
  best_below (sort_desc score l) bound = true ->
  forall c, In c l -> score c < bound.
Proof.
  intros H c Hc. apply (sort_desc_In score) in Hc.
  pose proof (sort_desc_sorted score l) as Hs.
  destruct (sort_desc score l) as [|h t]; [destruct Hc|].
  simpl in H. apply Z.ltb_lt in H.
  destruct Hc as [<-|Hc]; [assumption|].
  apply StronglySorted_inv in Hs. destruct Hs as [_ Hs].
  rewrite Forall_forall in Hs. specialize (Hs c Hc). unfold desc in Hs. lia.
Qed.

(** X14.  Run 1 makes a strict pass and, at times, a broad pass, and
    returns the candidates of both best first.  The strict pass is made
    when there is a strict expression.  A candidate of the broad pass is
    returned only when there is a broad expression, no candidate of the
    strict pass has a score of 95 or more, and its normalized identifier
    is not among those of the strict pass: a record found by both passes
    is returned once, as the strict pass scored it.  The broad pass does
    not order its hits by the year of the query. *)
Theorem run_1_two_passes (U : UCD) (F : Fuzz) (conn : Store)
  (q_fts strict_q broad_q : str) (query_year : option str)
  (norm_query_fuzz query_place query_author : str) (r1 : list cand) :
  execute_run_1 U F conn q_fts strict_q broad_q query_year norm_query_fuzz
    query_place query_author = Ok r1 ->
  ranked r1
  /\ exists strict broad,
       Permutation (strict ++ broad) r1
       /\ (strict_q = [] -> strict = [])
       /\ (strict_q <> [] ->
           exists rows,
             sql_search U conn strict_q query_year = Ok rows
             /\ process U F query_year norm_query_fuzz query_place rows true
                = Ok strict)
       /\ forall b, In b broad ->
            broad_q <> []
            /\ (forall c, In c strict -> score c < 95)
            /\ ~ In (vd_id_norm b) (map vd_id_norm strict)
            /\ exists rows found,
                 sql_search U conn broad_q None = Ok rows
                 /\ process U F query_year norm_query_fuzz query_place rows
                      false = Ok found
                 /\ In b found.
Proof.
  unfold execute_run_1. intros H.
  apply bind_Ok in H as (strict & Hs & H).
  apply bind_Ok in H as (merged & Hm & H). injection H as <-.
  split; [apply (sort_desc_sorted score)|].
  assert ((strict_q = [] -> strict = [])
          /\ (strict_q <> [] ->
              exists rows,
                sql_search U conn strict_q query_year = Ok rows
                /\ process U F query_year norm_query_fuzz query_place rows
                     true = Ok strict)) as [Hs1 Hs2].
  { destruct strict_q as [|s0 sq]; cbn [nonempty] in Hs.
    - injection Hs as <-. split; [reflexivity | intros E; now destruct E].
    - split; [discriminate|]. intros _.
      apply bind_Ok in Hs as (rows & Hr & Hs). now exists rows. }
  destruct (best_below (sort_desc score strict) 95) eqn:Eb;
    cbn [andb] in Hm;
    [destruct (nonempty broad_q) eqn:En|].
  - apply bind_Ok in Hm as (rows & Hr & Hm).
    apply bind_Ok in Hm as (found & Hf & Hm). injection Hm as <-.
    exists strict,
      (filter (fun c => negb (mem (vd_id_norm c)
                                (map vd_id_norm (sort_desc score strict))))
         found).
    split.
    { symmetry. etransitivity; [apply sort_desc_perm|].
      apply Permutation_app_tail, sort_desc_perm. }
    split; [exact Hs1|]. split; [exact Hs2|].
    intros b Hb. apply filter_In in Hb. destruct Hb as [Hb Hn].
    split; [intros ->; discriminate|].
    split; [now apply ranked_head_bound|].
    split.
    + intros Hin. apply negb_true_iff in Hn.
      assert (mem (vd_id_norm b) (map vd_id_norm (sort_desc score strict))
              = true) as Hm; [|rewrite Hm in Hn; discriminate].
      apply mem_In. apply in_map_iff in Hin. destruct Hin as (c & E & Hc).
      apply in_map_iff. exists c. split; [exact E|].
      now apply (sort_desc_In score).
    + now exists rows, found.
  - injection Hm as <-. exists strict, [].
    split; [rewrite app_nil_r; symmetry;
            etransitivity; apply sort_desc_perm|].
    split; [exact Hs1|]. split; [exact Hs2|]. intros b [].
  - injection Hm as <-. exists strict, [].
    split; [rewrite app_nil_r; symmetry;
            etransitivity; apply sort_desc_perm|].
    split; [exact Hs1|]. split; [exact Hs2|]. intros b [].
Qed.

Lemma run_1_two_passes_witness :
  ranked [sample_vd17; sample_vd18 "RUN_1"; sample_halle]
  /\ exists strict broad,
       Permutation (strict ++ broad)
         [sample_vd17; sample_vd18 "RUN_1"; sample_halle]
       /\ (u "frolich AND zzzz" = [] -> strict = [])
       /\ (u "frolich AND zzzz" <> [] ->
           exists rows,
             sql_search basic_latin sample_store (u "frolich AND zzzz")
               (Some (u "1702")) = Ok rows
             /\ process basic_latin sample_fuzz (Some (u "1702"))
                  (u "frolich de peste") (u "Jena") rows true = Ok strict)
       /\ forall b, In b broad ->
            u "frolich OR peste" <> []
            /\ (forall c, In c strict -> score c < 95)
            /\ ~ In (vd_id_norm b) (map vd_id_norm strict)
            /\ exists rows found,
                 sql_search basic_latin sample_store (u "frolich OR peste")
                   None = Ok rows
                 /\ process basic_latin sample_fuzz (Some (u "1702"))
                      (u "frolich de peste") (u "Jena") rows false = Ok found
                 /\ In b found.
Proof.
  apply (@run_1_two_passes basic_latin sample_fuzz sample_store
           (u "frolich de peste") (u "frolich AND zzzz")
           (u "frolich OR peste") (Some (u "1702")) (u "frolich de peste")
           (u "Jena") (u "Frolich")
           [sample_vd17; sample_vd18 "RUN_1"; sample_halle]).
  vm_compute. reflexivity.
Defined.

(** ** The origin tags *)

Lemma process_tag (U : UCD) (F : Fuzz) (query_year : option str)
  (norm_query_fuzz query_place : str) (rows : list row) (strict_mode : bool)
  (out : list cand) :
  process U F query_year norm_query_fuzz query_place rows strict_mode = Ok out
  -> Forall (fun c => source c = u "RUN_1") out.
Proof.
  unfold process. apply for_rows_Forall. intros r c. unfold process_row.
  destruct (truthy (db_vd_id r)); cbn [negb]; [|discriminate].
  intros H. apply bind_Ok in H as (o & _ & H). injection H as H.
  destruct o as [sc|]; [|discriminate].
  now apply accept_Some in H.
Qed.

Lemma execute_run_1_tag (U : UCD) (F : Fuzz) (conn : Store)
  (q_fts strict_q broad_q : str) (query_year : option str)
  (norm_query_fuzz query_place query_author : str) (r1 : list cand) :
  execute_run_1 U F conn q_fts strict_q broad_q query_year norm_query_fuzz
    query_place query_author = Ok r1 ->
  Forall (fun c => source c = u "RUN_1") r1.
Proof.
  unfold execute_run_1. intros H.
  apply bind_Ok in H as (strict & Hs & H).
  apply bind_Ok in H as (merged & Hm & H). injection H as <-.
  assert (Forall (fun c => source c = u "RUN_1") strict) as H1.
  { destruct (nonempty strict_q); [|injection Hs as <-; constructor].
    apply bind_Ok in Hs as (rows & _ & Hs). now apply process_tag in Hs. }
  apply Forall_sort_desc.
  destruct (best_below (sort_desc score strict) 95 && nonempty broad_q).
  - apply bind_Ok in Hm as (rows & _ & Hm).
    apply bind_Ok in Hm as (found & Hb & Hm). injection Hm as <-.
    apply Forall_app. split; [now apply Forall_sort_desc|].
    apply Forall_filter_keep. now apply process_tag in Hb.
  - injection Hm as <-. now apply Forall_sort_desc.
Qed.

Lemma execute_run_2_tag (U : UCD) (F : Fuzz) (conn : Store)
  (broad_q : str) (query_year : option str)
  (norm_query_fuzz query_author : str) (r2 : list cand) :
  execute_run_2 U F conn broad_q query_year norm_query_fuzz query_author
  = Ok r2 ->
  Forall (fun c => source c = u "RUN_2") r2.
Proof.
  unfold execute_run_2.
  destruct (negb (nonempty broad_q) || negb (truthy query_year)
            || negb (nonempty query_author));
    [intros [= <-]; constructor|].
  intros H. apply bind_Ok in H as (y & _ & H).
  destruct (len (normalize_for_fuzz U query_author) <? 4);
    [injection H as <-; constructor|].
  revert H. apply for_rows_Forall. intros r c. unfold run_2_row.
  destruct (truthy (db_vd_id r)); cbn [negb]; [|discriminate].
  destruct (truthy (db_author r)); [discriminate|].
  destruct (partial_ratio F _ _ >? 90); [|discriminate].
  intros H. apply bind_Ok in H as (ry & _ & H). injection H as H.
  now apply accept_Some in H.
Qed.

Lemma execute_run_3_tag (U : UCD) (F : Fuzz) (conn : Store)
  (broad_q norm_query_fuzz raw_query : str) :
  Forall (fun c => source c = u "RUN_3")
    (execute_run_3 U F conn broad_q norm_query_fuzz raw_query).
Proof.
  unfold execute_run_3. destruct (negb (nonempty broad_q)); [constructor|].
  apply Forall_sort_desc, collect_Forall. intros r c. unfold run_3_row.
  destruct (truthy (db_vd_id r)); cbn [negb]; [|discriminate].
  intros H. now apply accept_Some in H.
Qed.

Lemma execute_run_4_tag (U : UCD) (F : Fuzz) (conn : Store)
  (norm_query_fts norm_query_fuzz : str) :
  Forall (fun c => source c = u "RUN_4")
    (execute_run_4 U F conn norm_query_fts norm_query_fuzz).
Proof.
  unfold execute_run_4.
  destruct (filter rare_token (split norm_query_fts)); [constructor|].
  apply Forall_sort_desc, collect_Forall. intros r c. unfold run_4_row.
  destruct (truthy (db_vd_id r)); cbn [negb]; [|discriminate].
  intros H. now apply accept_Some in H.
Qed.

Lemma all_results_tags (U : UCD) (F : Fuzz) (conn : Store)
  (set_iter : list str -> list str) (query query_place query_author : str)
  (all_results : list cand) :
  all_results_of U F conn set_iter query query_place query_author
  = Ok all_results ->
  Forall (fun c => In (source c) RUN_TAGS) all_results.
Proof.
  unfold all_results_of.
  destruct (build_fts_queries U set_iter (normalize_for_fts U query))
    as [strict_q broad_q].
  intros H. apply bind_Ok in H as (r1 & H1 & H).
  apply bind_Ok in H as (r2 & H2 & H). injection H as <-.
  apply execute_run_1_tag in H1. apply execute_run_2_tag in H2.
  pose proof (execute_run_3_tag U F conn broad_q (normalize_for_fuzz U query)
                query) as H3.
  pose proof (execute_run_4_tag U F conn (normalize_for_fts U query)
                (normalize_for_fuzz U query)) as H4.
  repeat (apply Forall_app; split);
    [revert H1 | revert H2 | revert H3 | revert H4];
    apply Forall_impl; intros c ->; unfold RUN_TAGS; simpl; tauto.
Qed.

Lemma in_runs (r1 r2 r3 r4 : list cand) (tag : str) (out : list cand) :
  In (tag, out)
    [(u "RUN_1", r1); (u "RUN_2", r2); (u "RUN_3", r3); (u "RUN_4", r4)] ->
  (tag = u "RUN_1" /\ out = r1) \/ (tag = u "RUN_2" /\ out = r2)
  \/ (tag = u "RUN_3" /\ out = r3) \/ (tag = u "RUN_4" /\ out = r4).
Proof.
  intros [E|[E|[E|[E|[]]]]]; injection E as <- <-; tauto.
Qed.

(** X15.  Every candidate that [get_search_results] returns was produced
    by one of the four runs and carries the tag of that run: a candidate
    of the output of run 1 has the tag RUN_1, of run 2 the tag RUN_2, of
    run 3 the tag RUN_3 and of run 4 the tag RUN_4.  The one exception is
    the candidate promoted by the arbiter, the first of the list: it is
    such a candidate with the identifier the arbiter chose, its score set
    to 100 and +LLM added to the tag of its run. *)
Theorem origin_tags (U : UCD) (F : Fuzz) (conn : Store) (model : Arbiter)
  (set_iter : list str -> list str) (query query_place query_author : str)
  (final : list cand) (w : str) :
  get_search_results U F conn model set_iter query query_place query_author
  = Ok (final, w) ->
  exists r1 r2,
    let norm_query_fts := normalize_for_fts U query in
    let norm_query_fuzz := normalize_for_fuzz U query in
    let query_year := extract_query_year U query in
    let strict_q := fst (build_fts_queries U set_iter norm_query_fts) in
    let broad_q := snd (build_fts_queries U set_iter norm_query_fts) in
    let r3 := execute_run_3 U F conn broad_q norm_query_fuzz query in
    let r4 := execute_run_4 U F conn norm_query_fts norm_query_fuzz in
    let runs :=
      [(u "RUN_1", r1); (u "RUN_2", r2); (u "RUN_3", r3); (u "RUN_4", r4)] in
    execute_run_1 U F conn norm_query_fts strict_q broad_q query_year
      norm_query_fuzz query_place query_author = Ok r1
    /\ execute_run_2 U F conn broad_q query_year norm_query_fuzz query_author
       = Ok r2
    /\ (forall tag out c, In (tag, out) runs -> In c out -> source c = tag)
    /\ forall c,
         In c final ->
         produced_by runs c
         \/ exists c0,
              produced_by runs c0 /\ c = promoted c0
              /\ hd_error final = Some c /\ vd_id c0 = w.
Proof.
  intros H. apply get_search_results_inv in H.
  destruct H as (fused & Hf & Ha).
  unfold fused_ranking in Hf. apply bind_Ok in Hf as (all & Hall & Hf).
  apply bind_Ok in Hf as (x & _ & Hf). injection Hf as <-.
  unfold all_results_of in Hall. cbv zeta.
  destruct (build_fts_queries U set_iter (normalize_for_fts U query))
    as [strict_q broad_q].
  cbn [fst snd].
  apply bind_Ok in Hall as (r1 & H1 & Hall).
  apply bind_Ok in Hall as (r2 & H2 & Hall). injection Hall as <-.
  set (r3 := execute_run_3 U F conn broad_q (normalize_for_fuzz U query)
               query) in *.
  set (r4 := execute_run_4 U F conn (normalize_for_fts U query)
               (normalize_for_fuzz U query)) in *.
  exists r1, r2. split; [exact H1|]. split; [exact H2|].
  assert (forall tag out c,
             In (tag, out)
               [(u "RUN_1", r1); (u "RUN_2", r2); (u "RUN_3", r3);
                (u "RUN_4", r4)] ->
             In c out -> source c = tag) as Htag.
  { intros tag out c Hin Hc. apply in_runs in Hin.
    pose proof (execute_run_1_tag _ _ _ _ _ _ _ _ _ _ H1) as T1.
    pose proof (execute_run_2_tag _ _ _ _ _ _ _ H2) as T2.
    pose proof (execute_run_3_tag U F conn broad_q
                  (normalize_for_fuzz U query) query) as T3.
    pose proof (execute_run_4_tag U F conn (normalize_for_fts U query)
                  (normalize_for_fuzz U query)) as T4.
    rewrite Forall_forall in T1, T2, T3, T4.
    destruct Hin as [[-> ->]|[[-> ->]|[[-> ->]|[-> ->]]]];
      [now apply T1 | now apply T2 | now apply T3 | now apply T4]. }
  split; [exact Htag|].
  assert (forall c, In c (r1 ++ r2 ++ r3 ++ r4) ->
                    produced_by
                      [(u "RUN_1", r1); (u "RUN_2", r2); (u "RUN_3", r3);
                       (u "RUN_4", r4)] c) as Hp.
  { intros c Hc. unfold produced_by.
    apply in_app_or in Hc. destruct Hc as [Hc|Hc];
      [exists (u "RUN_1"), r1|
       apply in_app_or in Hc; destruct Hc as [Hc|Hc];
       [exists (u "RUN_2"), r2|
        apply in_app_or in Hc; destruct Hc as [Hc|Hc];
        [exists (u "RUN_3"), r3 | exists (u "RUN_4"), r4]]];
      (split; [simpl; tauto|]); (split; [exact Hc|]);
      (eapply Htag; [|exact Hc]); simpl; tauto. }
  intros c Hc.
  destruct (arbiter_step_cases conn model query
              (fuse x (r1 ++ r2 ++ r3 ++ r4)))
    as [E|(w' & pre & item & post & _ & E1 & E2 & _ & E3)].
  - rewrite E in Ha. injection Ha as <- <-. left.
    apply Hp. eapply fuse_incl, Hc.
  - rewrite E3 in Ha. injection Ha as <- <-.
    assert (forall c', In c' (pre ++ item :: post) ->
                       In c' (r1 ++ r2 ++ r3 ++ r4)) as Hin
        by (intros c' Hc'; rewrite <- E1 in Hc'; eapply fuse_incl, Hc').
    destruct Hc as [<-|Hc].
    + right. exists item. split; [|now repeat split].
      apply Hp, Hin. apply in_or_app. right. now left.
    + left. apply Hp, Hin. apply in_app_or in Hc.
      apply in_or_app. destruct Hc; [now left | right; now right].
Qed.

Lemma origin_tags_witness :
  exists r1 r2,
    let norm_query_fts := normalize_for_fts basic_latin sample_query in
    let norm_query_fuzz := normalize_for_fuzz basic_latin sample_query in
    let query_year := extract_query_year basic_latin sample_query in
    let strict_q :=
      fst (build_fts_queries basic_latin insertion_order norm_query_fts) in
    let broad_q :=
      snd (build_fts_queries basic_latin insertion_order norm_query_fts) in
    let r3 :=
      execute_run_3 basic_latin sample_fuzz sample_store broad_q
        norm_query_fuzz sample_query in
    let r4 :=
      execute_run_4 basic_latin sample_fuzz sample_store norm_query_fts
        norm_query_fuzz in
    let runs :=
      [(u "RUN_1", r1); (u "RUN_2", r2); (u "RUN_3", r3); (u "RUN_4", r4)] in
    execute_run_1 basic_latin sample_fuzz sample_store norm_query_fts
      strict_q broad_q query_year norm_query_fuzz (u "Jena") (u "Frolich")
    = Ok r1
    /\ execute_run_2 basic_latin sample_fuzz sample_store broad_q query_year
         norm_query_fuzz (u "Frolich")
       = Ok r2
    /\ (forall tag out c, In (tag, out) runs -> In c out -> source c = tag)
    /\ forall c,
         In c [sample_vd18 "RUN_3+LLM"; sample_vd17] ->
         produced_by runs c
         \/ exists c0,
              produced_by runs c0 /\ c = promoted c0
              /\ hd_error [sample_vd18 "RUN_3+LLM"; sample_vd17] = Some c
              /\ vd_id c0 = u "VD18 10123456".
Proof.
  apply (@origin_tags basic_latin sample_fuzz sample_store
           (replying (LLMResult (Some (u "VD18 10123456")))) insertion_order
           sample_query (u "Jena") (u "Frolich")
           [sample_vd18 "RUN_3+LLM"; sample_vd17] (u "VD18 10123456")).
  vm_compute. reflexivity.
Defined.

(** ** The evaluation loop *)

Lemma alnum_not_space (c : char) : is_alnum_ascii c = true -> isspace c = false.
Proof.
  intros H. assert (48 <= c <= 122)%N as Hc.
  { unfold is_alnum_ascii, is_az, is_AZ, is_09, in_range in H.
    repeat (apply orb_prop in H; destruct H as [H|H]);
      apply andb_prop in H; destruct H as [A B]; apply N.leb_le in A, B; lia. }
  unfold isspace, in_range.
  repeat match goal with
         | |- context [N.leb ?a ?b] => destruct (N.leb_spec a b); try lia
         | |- context [N.eqb ?a ?b] => destruct (N.eqb_spec a b); try lia
         end; reflexivity.
Qed.

Lemma dropwhile_app_all (p : char -> bool) (ws g : str) :
  Forall (fun c => p c = true) ws ->
  dropwhile p (ws ++ g) = dropwhile p g.
Proof.
  induction 1 as [|c ws Hc _ IH]; [reflexivity|]. simpl. now rewrite Hc.
Qed.

Lemma takewhile_all (p : char -> bool) (g : str) :
  forallb p g = true -> takewhile p g = g.
Proof.
  induction g as [|c g IH]; [reflexivity|]. simpl. intros H.
  apply andb_prop in H. destruct H as [H1 H2]. rewrite H1. f_equal. now apply IH.
Qed.

Lemma alnum_id_char (g : str) :
  forallb is_alnum_ascii g = true -> forallb is_id_char g = true.
Proof.
  rewrite !forallb_forall. intros H c Hc. unfold is_id_char.
  now rewrite (H c Hc).
Qed.

(** The group of an identifier of ASCII letters and digits after spaces. *)
Lemma id_group_of_id (ws g : str) :
  Forall (fun c => isspace c = true) ws ->
  forallb is_alnum_ascii g = true -> g <> [] ->
  id_group (ws ++ g) = Some g.
Proof.
  intros Hws Hg Hne. unfold id_group.
  destruct g as [|c g]; [contradiction|].
  assert (is_alnum_ascii c = true) as Hc
      by (simpl in Hg; now apply andb_prop in Hg).
  assert (dropwhile isspace (c :: g) = c :: g) as Hd
      by (simpl; now rewrite (alnum_not_space c Hc)).
  rewrite dropwhile_app_all, Hd by assumption.
  assert (N.eqb c 58 = false) as H58.
  { destruct (N.eqb_spec c 58) as [->|]; [discriminate Hc | reflexivity]. }
  rewrite H58, Hd, (takewhile_all is_id_char (c :: g) (alnum_id_char _ Hg)).
  reflexivity.
Qed.

Lemma filter_alnum_drop_spaces (ws g : str) :
  Forall (fun c => isspace c = true) ws ->
  filter is_alnum_ascii (ws ++ g) = filter is_alnum_ascii g.
Proof.
  induction 1 as [|c ws Hc _ IH]; [reflexivity|]. simpl.
  destruct (is_alnum_ascii c) eqn:E; [|exact IH].
  apply alnum_not_space in E. congruence.
Qed.

Lemma filter_alnum_id (g : str) :
  forallb is_alnum_ascii g = true -> filter is_alnum_ascii g = g.
Proof.
  induction g as [|c g IH]; [reflexivity|]. simpl. intros H.
  apply andb_prop in H. destruct H as [H1 H2]. rewrite H1. f_equal. now apply IH.
Qed.

(** X16.  The target of a ground truth written as VD18, spaces and an
    identifier of ASCII letters and digits is the normalized identifier
    that the search gives to the record of that name, so that the two can
    be compared for equality; without a space the identifier must not
    begin with 8. *)
Theorem ground_truth_matches_index_id (U : UCD) (ws g : str) :
  ascii_lower_law U ->
  Forall (fun c => isspace c = true) ws ->
  forallb is_alnum_ascii g = true -> g <> [] ->
  (ws = [] -> hd_error g <> Some 56%N) ->
  extract_vd18_id_from_gt U (u "VD18" ++ ws ++ g)
  = normalize_db_vd_id U (u "VD18" ++ ws ++ g)
  /\ extract_vd18_id_from_gt U (u "VD18" ++ ws ++ g)
     = u "vd18" ++ map ascii_lower g.
Proof.
  intros HU Hws Hg Hne H8.
  assert (gt_match_at (u "VD18" ++ ws ++ g) = Some g) as Hm.
  { change (u "VD18") with [86%N; 68%N; 49%N; 56%N].
    unfold gt_match_at. cbn [app vd18_prefix N.eqb Pos.eqb orb andb].
    pose proof (@id_group_of_id ws g Hws Hg Hne) as Hgrp.
    destruct (ws ++ g) as [|c rest] eqn:E; [exact Hgrp|].
    destruct (N.eqb_spec c 56) as [->|_]; [|exact Hgrp].
    destruct ws as [|w ws'].
    - exfalso. apply H8; [reflexivity|]. simpl in E. now rewrite E.
    - exfalso. simpl in E. injection E as -> _.
      apply Forall_inv in Hws. discriminate Hws. }
  assert (extract_vd18_id_from_gt U (u "VD18" ++ ws ++ g)
          = u "vd18" ++ map ascii_lower g) as He.
  { unfold extract_vd18_id_from_gt.
    change (u "VD18" ++ ws ++ g)
      with (86%N :: ([68%N; 49%N; 56%N] ++ ws ++ g)) at 1.
    cbv iota. change (86%N :: ([68%N; 49%N; 56%N] ++ ws ++ g))
      with (u "VD18" ++ ws ++ g).
    assert (gt_search (u "VD18" ++ ws ++ g) = Some g) as ->.
    { change (u "VD18" ++ ws ++ g)
        with (86%N :: ([68%N; 49%N; 56%N] ++ ws ++ g)) at 1.
      cbn [gt_search].
      change (86%N :: ([68%N; 49%N; 56%N] ++ ws ++ g))
        with (u "VD18" ++ ws ++ g).
      now rewrite Hm. }
    now rewrite (HU g Hg). }
  split; [|exact He]. rewrite He, normalize_db_vd_id_lower by assumption.
  change (u "VD18") with [86%N; 68%N; 49%N; 56%N].
  cbn [app filter is_alnum_ascii]. 
  rewrite filter_alnum_drop_spaces, filter_alnum_id by assumption.
  reflexivity.
Qed.

Lemma ground_truth_matches_index_id_witness :
  extract_vd18_id_from_gt basic_latin (u "VD18" ++ u " " ++ u "80123456X")
  = normalize_db_vd_id basic_latin (u "VD18" ++ u " " ++ u "80123456X")
  /\ extract_vd18_id_from_gt basic_latin (u "VD18" ++ u " " ++ u "80123456X")
     = u "vd18" ++ map ascii_lower (u "80123456X").
Proof.
  apply (@ground_truth_matches_index_id basic_latin (u " ") (u "80123456X")).
  - exact basic_latin_ascii_lower_law.
  - repeat constructor.
  - reflexivity.
  - discriminate.
  - discriminate.
Defined.

(** X17.  In a ground truth written without a space, an 8 at the head of
    the identifier is taken for the optional 8 of the prefix and is lost:
    the target differs from the normalized identifier of the record, and
    no result with that normalized identifier counts as a hit. *)
Theorem ground_truth_loses_leading_8 (U : UCD) (g : str) (final : list cand) :
  ascii_lower_law U ->
  forallb is_alnum_ascii g = true -> g <> [] ->
  Forall (fun c => vd_id_norm c = normalize_db_vd_id U (u "VD188" ++ g))
    final ->
  extract_vd18_id_from_gt U (u "VD188" ++ g) = u "vd18" ++ map ascii_lower g
  /\ normalize_db_vd_id U (u "VD188" ++ g) = u "vd188" ++ map ascii_lower g
  /\ hit (extract_vd18_id_from_gt U (u "VD188" ++ g)) final = false.
Proof.
  intros HU Hg Hne Hfinal.
  assert (extract_vd18_id_from_gt U (u "VD188" ++ g)
          = u "vd18" ++ map ascii_lower g) as He.
  { unfold extract_vd18_id_from_gt.
    change (u "VD188" ++ g) with (86%N :: 68%N :: 49%N :: 56%N :: 56%N :: g).
    cbv iota.
    assert (gt_search (86%N :: 68%N :: 49%N :: 56%N :: 56%N :: g) = Some g)
      as ->.
    { cbn [gt_search]. unfold gt_match_at.
      cbn [vd18_prefix N.eqb Pos.eqb orb andb].
      pose proof (@id_group_of_id [] g (Forall_nil _) Hg Hne) as Hgrp.
      cbn [app] in Hgrp. now rewrite Hgrp. }
    now rewrite (HU g Hg). }
  assert (normalize_db_vd_id U (u "VD188" ++ g)
          = u "vd188" ++ map ascii_lower g) as Hn.
  { rewrite normalize_db_vd_id_lower by assumption.
    change (u "VD188" ++ g) with (86%N :: 68%N :: 49%N :: 56%N :: 56%N :: g).
    cbn [filter is_alnum_ascii]. now rewrite filter_alnum_id. }
  split; [exact He|]. split; [exact Hn|].
  unfold hit. apply not_true_is_false. intros H.
  apply existsb_exists in H. destruct H as (c & Hc & E).
  apply firstn_incl_In in Hc. rewrite Forall_forall in Hfinal.
  apply str_eqb_eq in E. rewrite (Hfinal c Hc), He, Hn in E.
  apply (f_equal (@length char)) in E. rewrite !length_app in E.
  simpl in E. lia.
Qed.

Lemma ground_truth_loses_leading_8_witness :
  extract_vd18_id_from_gt basic_latin (u "VD188" ++ u "0123456")
  = u "vd18" ++ map ascii_lower (u "0123456")
  /\ normalize_db_vd_id basic_latin (u "VD188" ++ u "0123456")
     = u "vd188" ++ map ascii_lower (u "0123456")
  /\ hit (extract_vd18_id_from_gt basic_latin (u "VD188" ++ u "0123456"))
       [{| vd_id := u "VD18 80123456"; vd_id_norm := u "vd1880123456";
           score := 100; source := u "RUN_1" |}]
     = false.
Proof.
  apply (@ground_truth_loses_leading_8 basic_latin (u "0123456")).
  - exact basic_latin_ascii_lower_law.
  - reflexivity.
  - discriminate.
  - repeat constructor.
Defined.

(** X18.  When the arbiter chooses an identifier, the item is a hit for
    the target that is the normalized form of this identifier: the
    promoted record is the first of the five results that are compared. *)
Theorem arbiter_choice_is_hit (U : UCD) (F : Fuzz) (conn : Store)
  (model : Arbiter) (set_iter : list str -> list str)
  (query query_place query_author : str) (final : list cand) (w : str) :
  get_search_results U F conn model set_iter query query_place query_author
  = Ok (final, w) ->
  w <> u "-" ->
  hit (normalize_db_vd_id U w) final = true.
Proof.
  intros H Hw. apply get_search_results_inv in H.
  destruct H as (fused & Hf & Ha).
  apply fused_ranking_inv in Hf.
  destruct Hf as (all & x & _ & _ & -> & Hall).
  apply (@fuse_Forall _ x) in Hall. rewrite Forall_forall in Hall.
  destruct (arbiter_step_cases conn model query (fuse x all))
    as [E|(w' & pre & item & post & _ & E1 & E2 & _ & E3)].
  - rewrite E in Ha. injection Ha as _ E'. now subst w.
  - rewrite E3 in Ha. injection Ha as <- <-.
    unfold hit. cbn [firstn existsb promoted vd_id_norm].
    assert (In item (fuse x all)) as Hin
        by (rewrite E1; apply in_or_app; right; now left).
    destruct (Hall item Hin) as (_ & _ & Hn).
    rewrite Hn, E2, str_eqb_refl. reflexivity.
Qed.

Lemma arbiter_choice_is_hit_witness :
  hit (normalize_db_vd_id basic_latin (u "VD18 10123456"))
    [sample_vd18 "RUN_3+LLM"; sample_vd17]
  = true.
Proof.
  apply (@arbiter_choice_is_hit basic_latin sample_fuzz sample_store
           (replying (LLMResult (Some (u "VD18 10123456")))) insertion_order
           sample_query (u "Jena") (u "Frolich")).
  - vm_compute. reflexivity.
  - discriminate.
Defined.

Lemma evaluate_item_counts (U : UCD) (F : Fuzz) (conn : Store)
  (model : Arbiter) (set_iter : list str -> list str) (st st' : stats)
  (b : bibl_item) (gt_id : str) :
  evaluate_item U F conn model set_iter st b gt_id = Ok st' ->
  total st' = total st + 1
  /\ found st <= found st'
     <= found st
        + (if nonempty (extract_vd18_id_from_gt U gt_id) then 1 else 0).
Proof.
  unfold evaluate_item.
  destruct (build_query_string b) as [[q q_place] q_author].
  destruct (nonempty (extract_vd18_id_from_gt U gt_id)); cbn [negb].
  - intros H. apply bind_Ok in H as (res & _ & H).
    destruct (hit _ (fst res)); injection H as <-; simpl; lia.
  - intros [= <-]. simpl. lia.
Qed.

(** X19.  When the evaluation loop ends, the total has grown by the number
    of items, those without a target included, and the number of items
    found has grown by no more than the number of items with a target: the
    share of items found never exceeds 1, and an item without a target
    counts as not found. *)
Theorem evaluate_counts (U : UCD) (F : Fuzz) (conn : Store)
  (model : Arbiter) (set_iter : list str -> list str)
  (pairs : list (bibl_item * str)) (st st' : stats) :
  evaluate U F conn model set_iter st pairs = Ok st' ->
  total st' = total st + Z.of_nat (length pairs)
  /\ found st <= found st'
     <= found st + Z.of_nat (length (with_target U pairs))
  /\ found st' - found st <= total st' - total st.
Proof.
  revert st. induction pairs as [|[b gt_id] pairs IH]; intros st H.
  - injection H as <-. simpl. lia.
  - cbn [evaluate] in H. apply bind_Ok in H as (st1 & H1 & H).
    apply evaluate_item_counts in H1. apply IH in H.
    pose proof (filter_length_le
                  (fun p => nonempty (extract_vd18_id_from_gt U (snd p)))
                  pairs) as Hle.
    unfold with_target in *. cbn [filter snd length].
    destruct (nonempty (extract_vd18_id_from_gt U gt_id)); cbn [length];
      lia.
Qed.

Lemma evaluate_counts_witness :
  total {| total := 2; found := 1 |}
  = total {| total := 0; found := 0 |}
    + Z.of_nat (length [(sample_item, u "VD17 12:345678A"); (sample_item, [])])
  /\ found {| total := 0; found := 0 |}
     <= found {| total := 2; found := 1 |}
     <= found {| total := 0; found := 0 |}
        + Z.of_nat
            (length
               (with_target basic_latin
                  [(sample_item, u "VD17 12:345678A"); (sample_item, [])]))
  /\ found {| total := 2; found := 1 |} - found {| total := 0; found := 0 |}
     <= total {| total := 2; found := 1 |}
        - total {| total := 0; found := 0 |}.
Proof.
  apply (@evaluate_counts basic_latin sample_fuzz sample_store
           (replying LLMError) insertion_order
           [(sample_item, u "VD17 12:345678A"); (sample_item, [])]).
  vm_compute. reflexivity.
Defined.

(** ** The year of an item and the year of its query *)

Section QueryYear.
Variable U : UCD.
Hypothesis HD : decimal_laws U.
Hypothesis HW : word_laws U.

Lemma space_not_decimal : is_decimal U 32%N = false.
Proof.
  destruct (is_decimal U 32%N) eqn:E; [|reflexivity].
  apply HD in E. destruct E as [E _]. discriminate E.
Qed.

Lemma space_not_word : is_word U 32%N = false.
Proof. unfold is_word. destruct HW as [_ ->]. reflexivity. Qed.

Lemma boundary_space (p : option char) :
  boundary U p (Some 32%N) = boundary U p None.
Proof. unfold boundary. cbn [is_word_opt]. now rewrite space_not_word. Qed.

Lemma boundary_after_space (q : option char) :
  boundary U (Some 32%N) q = boundary U None q.
Proof. unfold boundary. cbn [is_word_opt]. now rewrite space_not_word. Qed.

Lemma year_at_app_space (prev : option char) (p s : str) :
  year_at U prev (p ++ 32%N :: s) = year_at U prev p.
Proof.
  pose proof space_not_decimal as Hd.
  destruct p as [|a [|b [|c [|d rest]]]]; cbn [app]; unfold year_at.
  - destruct s as [|x [|y [|z s]]]; try reflexivity.
    cbn [N.eqb Pos.eqb]. now rewrite andb_false_r.
  - destruct s as [|x [|y s]]; try reflexivity.
    change (in_range 52 57 32%N) with false. now rewrite andb_false_r.
  - destruct s as [|x s]; try reflexivity.
    rewrite Hd. now rewrite andb_false_r.
  - rewrite Hd. now rewrite andb_false_r.
  - destruct rest as [|e rest]; [|reflexivity].
    cbn [app hd_error]. now rewrite boundary_space.
Qed.

Lemma year_at_after_space (t : str) :
  year_at U (Some 32%N) t = year_at U None t.
Proof.
  unfold year_at. destruct t as [|a [|b [|c [|d rest]]]]; try reflexivity.
  now rewrite boundary_after_space.
Qed.

Lemma year_search_after_space (t : str) :
  year_search U (Some 32%N) t = year_search U None t.
Proof.
  destruct t as [|a t]; [reflexivity|].
  now rewrite !year_search_cons, year_at_after_space.
Qed.

Lemma year_search_nil (prev : option char) : year_search U prev [] = None.
Proof. reflexivity. Qed.

Lemma year_search_app_space (prev : option char) (p s : str) :
  year_search U prev (p ++ 32%N :: s)
  = match year_search U prev p with
    | Some y => Some y
    | None => year_search U None s
    end.
Proof.
  revert prev. induction p as [|a p IH]; intros prev.
  - rewrite year_search_nil. cbn [app]. rewrite year_search_cons.
    pose proof (year_at_app_space prev [] s) as H. cbn [app] in H.
    set (o := year_at U prev _). assert (o = None) as -> by exact H.
    apply year_search_after_space.
  - cbn [app]. rewrite !year_search_cons.
    change (a :: p ++ 32%N :: s) with ((a :: p) ++ 32%N :: s).
    rewrite year_at_app_space.
    destruct (year_at U prev (a :: p)); [reflexivity | apply IH].
Qed.

Lemma extract_query_year_join (parts : list str) :
  extract_query_year U (join (u " ") parts) = first_year U parts.
Proof.
  unfold extract_query_year.
  induction parts as [|p parts IH]; [reflexivity|].
  destruct parts as [|p' parts].
  - cbn [join first_year]. unfold extract_query_year.
    now destruct (year_search U None p).
  - change (join (u " ") (p :: p' :: parts))
      with (p ++ 32%N :: join (u " ") (p' :: parts)).
    rewrite year_search_app_space, IH. reflexivity.
Qed.

End QueryYear.

(** X20.  The year of a query is the first year that stands in the author
    of the item, else in its title, else in its year: a year in the name of
    the author or in the title goes before the year of the item, and the
    place is never read.  An item whose author and title hold no year has
    the year of its year field. *)
Theorem query_year_of_item (U : UCD) (bibl : bibl_item) :
  decimal_laws U -> word_laws U ->
  extract_query_year U (fst (fst (build_query_string bibl)))
  = first_year U
      [get_val (b_author bibl); get_val (b_title bibl);
       get_val (b_year bibl)]
  /\ (extract_query_year U (get_val (b_author bibl)) = None ->
      extract_query_year U (get_val (b_title bibl)) = None ->
      extract_query_year U (fst (fst (build_query_string bibl)))
      = extract_query_year U (get_val (b_year bibl))).
Proof.
  intros HD HW.
  assert (extract_query_year U (fst (fst (build_query_string bibl)))
          = first_year U
              [get_val (b_author bibl); get_val (b_title bibl);
               get_val (b_year bibl)]) as H.
  { unfold build_query_string. cbn [fst].
    rewrite (extract_query_year_join HD HW).
    destruct (b_author bibl) as [a|], (b_title bibl) as [t|],
      (b_year bibl) as [y|]; cbn [present app first_year get_val];
      change (extract_query_year U []) with (@None str);
      repeat match goal with
             | |- context [extract_query_year U ?x] =>
                 destruct (extract_query_year U x)
             end; reflexivity. }
  split; [exact H|]. intros Ha Ht. rewrite H. cbn [first_year].
  rewrite Ha, Ht. now destruct (extract_query_year U (get_val (b_year bibl))).
Qed.

Lemma basic_latin_word_laws : word_laws basic_latin.
Proof.
  split; [|reflexivity]. intros c H. unfold is_decimal in H. simpl in H.
  simpl. destruct (is_09 c); [now rewrite !orb_true_r | discriminate].
Qed.

Lemma query_year_of_item_witness :
  extract_query_year basic_latin (fst (fst (build_query_string sample_item)))
  = first_year basic_latin
      [get_val (b_author sample_item); get_val (b_title sample_item);
       get_val (b_year sample_item)]
  /\ (extract_query_year basic_latin (get_val (b_author sample_item)) = None ->
      extract_query_year basic_latin (get_val (b_title sample_item)) = None ->
      extract_query_year basic_latin
        (fst (fst (build_query_string sample_item)))
      = extract_query_year basic_latin (get_val (b_year sample_item))).
Proof.
  apply (@query_year_of_item basic_latin sample_item).
  - exact basic_latin_decimal_laws.
  - exact basic_latin_word_laws.
Defined.

(** ** The catalogue download *)

Lemma dropwhile_idem (p : char -> bool) (s : str) :
  dropwhile p (dropwhile p s) = dropwhile p s.
Proof.
  induction s as [|c s IH]; [reflexivity|]. simpl.
  destruct (p c) eqn:E; [exact IH|]. simpl. now rewrite E.
Qed.

Lemma rstrip_idem (s : str) : rstrip (rstrip s) = rstrip s.
Proof. unfold rstrip. now rewrite rev_involutive, dropwhile_idem. Qed.

Lemma lstrip_head (s : str) :
  lstrip s = [] \/ exists c t, lstrip s = c :: t /\ isspace c = false.
Proof.
  unfold lstrip. induction s as [|c s IH]; [now left|]. simpl.
  destruct (isspace c) eqn:E; [exact IH|]. right. now exists c, s.
Qed.

Lemma strip_strip (s : str) : strip (strip s) = strip s.
Proof.
  unfold strip. destruct (lstrip_head s) as [->|(c & t & -> & Hc)];
    [reflexivity|].
  rewrite (@rstrip_cons_nonspace c t Hc).
  assert (lstrip (c :: rstrip t) = c :: rstrip t) as ->
      by (unfold lstrip; simpl; now rewrite Hc).
  now rewrite (@rstrip_cons_nonspace c (rstrip t) Hc), rstrip_idem.
Qed.

Lemma strip_stripped (s : str) : nonempty (strip s) = true -> stripped (strip s).
Proof.
  intros H. split; [|apply strip_strip]. intros E. now rewrite E in H.
Qed.

Lemma hval_ind_list (P : hval -> Prop) :
  P HNone -> P HNaN -> (forall text, P (HNum text)) ->
  (forall s, P (HStr s)) -> (forall l, Forall P l -> P (HList l)) ->
  forall v, P v.
Proof.
  intros H1 H2 H3 H4 H5. fix IH 1.
  intros [| |text|s|l]; [exact H1 | exact H2 | apply H3 | apply H4 |].
  apply H5. induction l as [|x l IHl]; constructor; [apply IH | exact IHl].
Qed.

Lemma scalarize_cons (x : hval) (l : list hval) :
  scalarize (HList (x :: l))
  = match scalarize x with
    | Some sx => if nonempty sx then Some sx else scalarize (HList l)
    | None => scalarize (HList l)
    end.
Proof. reflexivity. Qed.

Lemma scalarize_stripped (v : hval) (s : str) :
  wf_hval v -> scalarize v = Some s -> stripped s.
Proof.
  revert s. induction v as [| |text|s0|l IHl] using hval_ind_list;
    intros s Hwf H.
  - discriminate.
  - discriminate.
  - injection H as <-. destruct Hwf as [H1 H2]. split; [exact H1|].
    now apply strip_nospace.
  - simpl in H. destruct (nonempty (strip s0)) eqn:E; [|discriminate].
    injection H as <-. now apply strip_stripped.
  - induction IHl as [|x l Hx _ IH]; [discriminate|].
    destruct Hwf as [Hwx Hwl]. rewrite scalarize_cons in H.
    destruct (scalarize x) as [sx|] eqn:Ex.
    + destruct (nonempty sx) eqn:En.
      * injection H as <-. now apply Hx.
      * now apply IH.
    + now apply IH.
Qed.

Lemma get_first_present_wf (row : hrow) (candidates : list str) :
  wf_row row -> wf_hval (get_first_present row candidates).
Proof.
  intros Hrow. induction candidates as [|k ks IH]; simpl; [exact I|].
  destruct (row k) as [v|] eqn:E; [|exact IH].
  destruct (is_empty v); [exact IH|]. simpl. eapply Hrow, E.
Qed.

Lemma parse_list_field_stripped (val : hval) :
  Forall stripped (parse_list_field val).
Proof.
  destruct val as [| |text|s|l]; simpl; try constructor.
  - destruct (nonempty (strip s)); cbn [negb]; [|constructor].
    apply Forall_forall. intros p Hp. apply filter_In in Hp.
    destruct Hp as [Hp Hne]. apply in_map_iff in Hp.
    destruct Hp as (q & <- & _). now apply strip_stripped.
  - apply Forall_forall. intros p Hp. apply in_flat_map in Hp.
    destruct Hp as (v & _ & Hp). destruct v as [| |t|s|l']; try destruct Hp.
    destruct (nonempty (strip s)) eqn:E; [|destruct Hp].
    destruct Hp as [<-|[]]. now apply strip_stripped.
Qed.

Lemma filter_stripped (l : list str) :
  Forall stripped l -> filter (fun a => nonempty (strip a)) l = l.
Proof.
  induction 1 as [|a l [Ha1 Ha2] _ IH]; [reflexivity|]. simpl.
  rewrite Ha2, IH. destruct a; [contradiction | reflexivity].
Qed.

Lemma first_scalar_stripped (s : str) :
  stripped s -> _first_scalar (jval_of (Some s)) = s /\ nonempty s = true.
Proof.
  intros [H1 H2]. simpl. split; [exact H2|]. destruct s; [contradiction|].
  reflexivity.
Qed.

Lemma extract_record_id (rec : vd_record) :
  (forall s, r_vd18_number rec = Some s -> stripped s) ->
  (forall s, r_vd17_number rec = Some s -> stripped s) ->
  (forall s, r_vd16_number rec = Some s -> stripped s) ->
  truthy (r_vd16_number rec) || truthy (r_vd17_number rec)
  || truthy (r_vd18_number rec) = true ->
  extract_vd_id_from_record (work_of rec) = record_id rec
  /\ record_id rec <> [].
Proof.
  intros H18 H17 H16 T. unfold extract_vd_id_from_record, work_of, record_id.
  cbn [w_vd18_number w_vd17_number w_vd16_number]. cbv zeta.
  destruct (r_vd18_number rec) as [s18|].
  { destruct (first_scalar_stripped (H18 s18 eq_refl)) as [-> ->].
    split; [reflexivity | apply (H18 s18 eq_refl)]. }
  cbn [jval_of _first_scalar nonempty].
  destruct (r_vd17_number rec) as [s17|].
  { destruct (first_scalar_stripped (H17 s17 eq_refl)) as [-> ->].
    split; [reflexivity | apply (H17 s17 eq_refl)]. }
  cbn [jval_of _first_scalar nonempty].
  destruct (r_vd16_number rec) as [s16|]; [|discriminate T].
  destruct (first_scalar_stripped (H16 s16 eq_refl)) as [-> _].
  split; [reflexivity | apply (H16 s16 eq_refl)].
Qed.

Lemma index_row_Some (U : UCD) (data : work) :
  extract_vd_id_from_record data <> [] ->
  exists r,
    index_row U data = Some r
    /\ db_vd_id r = Some (extract_vd_id_from_record data)
    /\ db_title r
       = Some (normalize_text U
                 (if truthy (w_title data) then or_empty (w_title data)
                  else w_normalized_title data))
    /\ db_author r
       = Some (normalize_text U
                 (join (u " ")
                    (filter (fun a => nonempty (strip a)) (w_authors data)))).
Proof.
  intros Hne. unfold index_row.
  destruct (extract_vd_id_from_record data) as [|c id]; [contradiction|].
  cbn [nonempty negb].
  destruct (len _ <? 3) eqn:E.
  - exfalso. apply Z.ltb_lt in E. unfold len in E.
    rewrite !length_app in E. simpl in E. lia.
  - eexists. split; [reflexivity|]. now repeat split.
Qed.

Lemma map_row_to_first_schema_inv (U : UCD) (row : hrow) (rec : vd_record) :
  map_row_to_first_schema U row = Some rec ->
  truthy (r_vd16_number rec) || truthy (r_vd17_number rec)
  || truthy (r_vd18_number rec) = true
  /\ (exists ks, r_vd18_number rec = scalarize (get_first_present row ks))
  /\ (exists ks, r_vd17_number rec = scalarize (get_first_present row ks))
  /\ (exists ks, r_vd16_number rec = scalarize (get_first_present row ks))
  /\ r_normalized_title rec = normalize_title U (r_title rec)
  /\ (exists v, r_authors rec = parse_list_field v)
  /\ (exists v, r_alt_titles rec = parse_list_field v).
Proof.
  unfold map_row_to_first_schema.
  destruct (truthy _ || truthy _ || truthy _) eqn:T;
    cbn [negb]; [|discriminate].
  intros [= <-]. split; [exact T|].
  split; [now exists (candidates_of CANDIDATES (u "vd18"))|].
  split; [now exists (candidates_of CANDIDATES (u "vd17"))|].
  split; [now exists (candidates_of CANDIDATES (u "vd16"))|].
  split; [reflexivity|].
  split.
  - now exists (get_first_present row
                  (candidates_of CANDIDATES (u "authors"))).
  - now exists (get_first_present row
                  (candidates_of CANDIDATES (u "alt_titles"))).
Qed.

(** X21.  Every record that the download writes is indexed: it has an
    identifier, so that build_index does not skip it, and the row it gets
    carries the VD18 number of the record if there is one, else its VD17
    number, else its VD16 number, the normalized title and the normalized
    names of all its authors.  The key normalized_title is never needed:
    it is empty whenever the title is. *)
Theorem downloaded_record_is_indexed (U : UCD) (row : hrow)
  (rec : vd_record) :
  wf_row row ->
  map_row_to_first_schema U row = Some rec ->
  exists r,
    index_row U (work_of rec) = Some r
    /\ record_id rec <> []
    /\ db_vd_id r = Some (record_id rec)
    /\ db_title r = Some (normalize_text U (or_empty (r_title rec)))
    /\ db_author r
       = Some (normalize_text U (join (u " ") (r_authors rec)))
    /\ (truthy (r_title rec) = false -> r_normalized_title rec = []).
Proof.
  intros Hrow H. apply map_row_to_first_schema_inv in H.
  destruct H as (T & (k18 & E18) & (k17 & E17) & (k16 & E16) & En
                 & (va & Ea) & _).
  assert (forall ks s,
             scalarize (get_first_present row ks) = Some s -> stripped s)
    as Hnum.
  { intros ks s Hs. eapply scalarize_stripped; [|exact Hs].
    now apply get_first_present_wf. }
  destruct (@extract_record_id rec) as [Hid Hne].
  - intros s Hs. rewrite E18 in Hs. eapply Hnum, Hs.
  - intros s Hs. rewrite E17 in Hs. eapply Hnum, Hs.
  - intros s Hs. rewrite E16 in Hs. eapply Hnum, Hs.
  - exact T.
  - assert (truthy (r_title rec) = false -> r_normalized_title rec = [])
      as Hnt.
    { rewrite En. unfold normalize_title. now intros ->. }
    assert (Forall stripped (r_authors rec)) as Hau.
    { rewrite Ea. apply parse_list_field_stripped. }
    destruct (@index_row_Some U (work_of rec)) as (r & Hr & H1 & H2 & H3).
    { now rewrite Hid. }
    exists r. split; [exact Hr|]. split; [exact Hne|].
    split; [now rewrite H1, Hid|].
    split; [|split; [|exact Hnt]].
    + rewrite H2. cbn [work_of w_title w_normalized_title].
      destruct (truthy (r_title rec)) eqn:Tt; [reflexivity|].
      rewrite (Hnt eq_refl).
      destruct (r_title rec) as [[|c t]|]; try reflexivity. discriminate Tt.
    + rewrite H3. cbn [work_of w_authors]. now rewrite filter_stripped.
Qed.

Lemma sample_hrow_wf : wf_row sample_hrow.
Proof.
  intros k v. unfold sample_hrow.
  repeat match goal with
         | |- context [str_eqb k ?x] => destruct (str_eqb k x)
         end; intros [= <-]; simpl; repeat split; try discriminate;
    repeat constructor.
Qed.

Lemma downloaded_record_is_indexed_witness :
  exists r,
    index_row basic_latin (work_of sample_record) = Some r
    /\ record_id sample_record <> []
    /\ db_vd_id r = Some (record_id sample_record)
    /\ db_title r
       = Some (normalize_text basic_latin (or_empty (r_title sample_record)))
    /\ db_author r
       = Some (normalize_text basic_latin
                 (join (u " ") (r_authors sample_record)))
    /\ (truthy (r_title sample_record) = false ->
        r_normalized_title sample_record = []).
Proof.
  apply (@downloaded_record_is_indexed basic_latin sample_hrow sample_record).
  - exact sample_hrow_wf.
  - vm_compute. reflexivity.
Defined.

Lemma split_on_nosep (x : str) : ~ In 44%N x -> split_on 44%N x = [x].
Proof.
  induction x as [|c x IH]; [reflexivity|]. intros H. simpl.
  destruct (N.eqb_spec c 44%N) as [->|_]; [exfalso; apply H; now left|].
  rewrite IH; [reflexivity|]. intros Hx. apply H. now right.
Qed.

Lemma split_on_app (x t : str) :
  ~ In 44%N x -> split_on 44%N (x ++ 44%N :: t) = x :: split_on 44%N t.
Proof.
  induction x as [|c x IH]; [reflexivity|]. intros H. simpl.
  destruct (N.eqb_spec c 44%N) as [->|_]; [exfalso; apply H; now left|].
  rewrite IH; [reflexivity|]. intros Hx. apply H. now right.
Qed.

Lemma split_on_join (l : list str) :
  Forall (fun p => ~ In 44%N p) l ->
  split_on 44%N (join (u ", ") l)
  = match l with
    | [] => [[]]
    | x :: l' => x :: map (cons 32%N) l'
    end.
Proof.
  induction 1 as [|x l Hx Hl IH]; [reflexivity|].
  destruct l as [|y l'].
  - cbn [join map]. now apply split_on_nosep.
  - etransitivity;
      [exact (@split_on_app x (32%N :: join (u ", ") (y :: l')) Hx)|].
    f_equal.
    exact (f_equal (fun r => match r with
                             | w :: ws => (32%N :: w) :: ws
                             | [] => [[32%N]]
                             end) IH).
Qed.

Lemma strip_cons_space (y : str) : strip (32%N :: y) = strip y.
Proof. reflexivity. Qed.

Lemma strip_between (c d : char) (t : str) :
  isspace c = false -> isspace d = false ->
  strip (c :: t ++ [d]) = c :: t ++ [d].
Proof.
  intros Hc Hd. unfold strip.
  assert (lstrip (c :: t ++ [d]) = c :: t ++ [d]) as ->
      by (unfold lstrip; simpl; now rewrite Hc).
  rewrite (@rstrip_cons_nonspace c (t ++ [d]) Hc). f_equal.
  unfold rstrip. rewrite rev_app_distr. simpl. rewrite Hd. simpl.
  now rewrite rev_involutive.
Qed.

Lemma endswith_last (p : str) (d : char) : endswith [d] (p ++ [d]) = true.
Proof.
  unfold endswith. rewrite rev_app_distr. simpl. now rewrite N.eqb_refl.
Qed.

(** X22.  parse_list_field reads back a list that was written as a text
    in brackets with its items separated by a comma and a space, and
    leaves a list of such items as it is, when no item is empty, has white
    space at either end or holds a comma.  On any value, the items it
    returns are not empty and have no white space at either end. *)
Theorem parse_list_field_round_trip (l : list str) :
  Forall (fun p => stripped p /\ ~ In 44%N p) l ->
  parse_list_field (HStr (u "[" ++ join (u ", ") l ++ u "]")) = l
  /\ parse_list_field (HList (map HStr l)) = l
  /\ forall val, Forall stripped (parse_list_field val).
Proof.
  intros H.
  assert (Forall stripped l) as Hs
      by (eapply Forall_impl; [|exact H]; now intros p [Hp _]).
  assert (Forall (fun p => ~ In 44%N p) l) as Hc
      by (eapply Forall_impl; [|exact H]; now intros p [_ Hp]).
  split; [|split; [|apply parse_list_field_stripped]].
  - unfold parse_list_field.
    change (u "[" ++ join (u ", ") l ++ u "]")
      with (91%N :: join (u ", ") l ++ [93%N]).
    rewrite strip_between by reflexivity.
    cbn [nonempty negb].
    set (b := startswith _ _ && endswith _ _).
    assert (b = true) as ->.
    { apply andb_true_intro. split; [reflexivity|].
      exact (endswith_last (91%N :: join (u ", ") l) 93%N). }
    set (body := removelast _).
    assert (body = join (u ", ") l) as ->
        by exact (removelast_last (join (u ", ") l) 93%N).
    set (parts := split_on _ _).
    assert (parts = match l with
                    | [] => [[]]
                    | x :: l' => x :: map (cons 32%N) l'
                    end) as -> by exact (split_on_join Hc).
    clear H Hc. destruct Hs as [|x l [Hx1 Hx2] Hl]; [reflexivity|].
    cbn [map filter]. rewrite Hx2.
    destruct x as [|c x]; [contradiction|]. cbn [nonempty]. f_equal.
    induction Hl as [|y l [Hy1 Hy2] _ IH]; [reflexivity|].
    cbn [map filter]. rewrite strip_cons_space, Hy2.
    destruct y as [|d y]; [contradiction|]. cbn [nonempty]. now rewrite IH.
  - clear H Hc. unfold parse_list_field.
    induction Hs as [|x l [Hx1 Hx2] _ IH]; [reflexivity|].
    cbn [map flat_map]. rewrite Hx2, IH.
    now destruct x as [|c x]; [contradiction|].
Qed.

Lemma parse_list_field_round_trip_witness :
  parse_list_field
    (HStr (u "[" ++ join (u ", ") [u "Frolich"; u "Georg M."] ++ u "]"))
  = [u "Frolich"; u "Georg M."]
  /\ parse_list_field (HList (map HStr [u "Frolich"; u "Georg M."]))
     = [u "Frolich"; u "Georg M."]
  /\ forall val, Forall stripped (parse_list_field val).
Proof.
  apply (@parse_list_field_round_trip [u "Frolich"; u "Georg M."]).
  repeat constructor; try discriminate;
    vm_compute; intuition discriminate.
Defined.

(** ** The year in run 1 *)

(** X23.  The year moves the score of a hit of run 1 by no more than 15
    either way.  The strict pass rejects a hit only when both years are
    numbers that lie more than one apart, and never lowers a score; the
    broad pass rejects no hit for its year.  A score of 60 or less earns
    no bonus, and a score of 92 or more is never lowered. *)
Theorem year_adjust_effect (U : UCD) (query_year : option str)
  (strict_mode : bool) (r : row) (score : Z) (o : option Z) :
  year_adjust U query_year strict_mode r score = Ok o ->
  match o with
  | None =>
      strict_mode = true
      /\ exists qy ry,
           py_int U (or_empty query_year) = Ok qy
           /\ py_int_opt U (db_year r) = Ok ry /\ 1 < Z.abs (qy - ry)
  | Some s =>
      score - 15 <= s <= score + YEAR_BONUS_EXACT
      /\ (strict_mode = true -> score <= s)
      /\ (score <= 60 -> s <= score)
      /\ (92 <= score -> score <= s)
  end.
Proof.
  unfold year_adjust, YEAR_BONUS_EXACT, YEAR_BONUS_CLOSE.
  destruct (truthy query_year && truthy (db_year r)
            && str_isdigit U (str_of (db_year r)));
    [|intros [= <-]; repeat split; lia].
  intros H. apply bind_Ok in H as (qy & Hq & H).
  apply bind_Ok in H as (ry & Hr & H).
  destruct (Z.gtb_spec (Z.abs (qy - ry)) 1) as [Hd|Hd];
    destruct strict_mode; cbn [andb negb] in H.
  - injection H as <-. split; [reflexivity|]. now exists qy, ry.
  - injection H as <-.
    destruct (Z.gtb_spec score 60), (Z.eqb_spec (Z.abs (qy - ry)) 0),
      (Z.eqb_spec (Z.abs (qy - ry)) 1);
      repeat match goal with
             | |- context [?a <? ?b] => destruct (Z.ltb_spec a b)
             end; repeat split; lia.
  - injection H as <-.
    destruct (Z.gtb_spec score 60), (Z.eqb_spec (Z.abs (qy - ry)) 0),
      (Z.eqb_spec (Z.abs (qy - ry)) 1); repeat split; lia.
  - injection H as <-.
    destruct (Z.gtb_spec score 60), (Z.eqb_spec (Z.abs (qy - ry)) 0),
      (Z.eqb_spec (Z.abs (qy - ry)) 1); repeat split; lia.
Qed.

Lemma year_adjust_effect_witness :
  100 - 15 <= 115 <= 100 + YEAR_BONUS_EXACT
  /\ (true = true -> 100 <= 115)
  /\ (100 <= 60 -> 115 <= 100)
  /\ (92 <= 100 -> 100 <= 115).
Proof.
  apply (@year_adjust_effect basic_latin (Some (u "1680")) true frolich_1680
           100 (Some 115)).
  vm_compute. reflexivity.
Defined.

(** ** Records with a malformed year in the index *)






(** The search on the index of a catalogue whose one record has no year:
    the record is found by a query with a year, with its textual
    score. *)
Example undated_record_is_found :
  get_search_results basic_latin sample_fuzz
    (store_of (build_index basic_latin [undated_work])) (replying LLMError)
    insertion_order (u "Frolich De Peste 1702") (u "Jena") (u "Frolich")
  = Ok ([undated_cand], u "-").
Proof. vm_compute. reflexivity. Qed.
